(** * undevgoals: preprocessing.py

    A shallow embedding of [src/preprocessing.py] and the properties of its
    feature/target split and of its imputation strategies.

    Modelling conventions.
    - A pandas float cell is a binary64 number, a primitive [float]:
      finite, infinite or [NaN]. [np.interp] and [np.median] compute in
      binary64, with its rounding and its overflow to infinity.
    - A raised Python exception is an [Err e] result; every function that can
      raise returns [result].
    - A DataFrame is a list of column labels and a list of rows. The raw
      table is a block of year columns followed by the three metadata columns
      Country Name, Series Code, Series Name, so a row is its index label,
      its year cells and its metadata; [iloc[:, :-3]] keeps the year cells.
    - Writes go to the table by label, as the code writes them:
      [X.loc[ix] = ...] and [X[col][i] = ...] reach every row carrying the
      label, and the chained assignment writes through to [X], as it did in
      the pandas the code was written for. Statements that need a label to
      denote one row assume distinct row labels.
    - [row.interpolate(method='linear', limit=50, limit_direction='backward')]
      is modelled after pandas: [np.interp] over the positions of the known
      values, then the cells to preserve set back to missing. [np.median] is
      [np.mean] of the middle of the sorted values.
    - The services of pycountry, pycountry_convert, Python's [int] and
      [str] on a tuple are variables of the sections that use them. *)

From Stdlib Require Import ZArith QArith List Ascii String Bool Lia Sorted Permutation.
From Stdlib Require Import Floats.
From stdpp Require Import gmap strings pretty.
Import ListNotations.

Open Scope string_scope.
Open Scope list_scope.
Open Scope Z_scope.

(** ** Exceptions and results *)

Inductive exn := KeyError | IndexError | ValueError.

(** [KeyError] and [IndexError] are the subclasses of Python's [LookupError]. *)
Definition is_LookupError (e : exn) : bool :=
  match e with
  | KeyError | IndexError => true
  | ValueError => false
  end.

Inductive result (A : Type) :=
| Ok (a : A)
| Err (e : exn).
Arguments Ok {A} a.
Arguments Err {A} e.

#[global] Instance result_ret : MRet result := fun A a => Ok a.
#[global] Instance result_bind : MBind result := fun A B k c =>
  match c with
  | Ok a => k a
  | Err e => Err e
  end.

Fixpoint mapM {A B} (f : A -> result B) (l : list A) : result (list B) :=
  match l with
  | [] => Ok []
  | a :: l' => b ← f a; bs ← mapM f l'; Ok (b :: bs)
  end.

(** A loop [for a in l: s = body(s, a)] whose body can raise. *)
Fixpoint foldM {A S} (body : S -> A -> result S) (l : list A) (s : S) : result S :=
  match l with
  | [] => Ok s
  | a :: l' => s' ← body s a; foldM body l' s'
  end.

(** ** Cells, rows, frames *)

(** [np.nan] *)
Definition NaN : float := nan.

(** [np.isnan], [pd.isna] and [isnull] on a float cell: infinities are not
    missing. *)
Definition isnan (x : float) : bool := is_nan x.

Record Meta := mkMeta {
  country_name : string;
  series_code : string;
  series_name : string
}.

Record Row (M : Type) := mkRow {
  ix : Z;
  values : list float;
  meta : M
}.
Arguments mkRow {M} ix values meta.
Arguments ix {M} r.
Arguments values {M} r.
Arguments meta {M} r.

Record Frame (L M : Type) := mkFrame {
  columns : list L;
  rows : list (Row M)
}.
Arguments mkFrame {L M} columns rows.
Arguments columns {L M} f.
Arguments rows {L M} f.

(** A Series: index labels paired with values. *)
Definition Series := list (Z * float).

(** Every row has one cell per column label. *)
Definition rectangular {L M} (X : Frame L M) : Prop :=
  Forall (fun r => length (values r) = length (columns X)) (rows X).

(** ** Python positional indexing *)

(** The position that index [i] denotes in a sequence of length [n], negative
    [i] counting from the end; [None] when out of range. *)
Definition py_pos (n : nat) (i : Z) : option nat :=
  let j := if i <? 0 then i + Z.of_nat n else i in
  if (j <? 0) || (Z.of_nat n <=? j) then None else Some (Z.to_nat j).

(** [l[i]] *)
Definition py_index {A} (l : list A) (i : Z) : option A :=
  match py_pos (length l) i with
  | Some k => l !! k
  | None => None
  end.

(** [l[i] = v], for [i] in range. *)
Definition py_set {A} (l : list A) (i : Z) (v : A) : list A :=
  match py_pos (length l) i with
  | Some k => <[k := v]> l
  | None => l
  end.

(** [l[:stop]], clipped as Python slices are. *)
Definition py_slice_to {A} (l : list A) (stop : Z) : list A :=
  let n := Z.of_nat (length l) in
  let s := if stop <? 0 then Z.max 0 (stop + n) else Z.min stop n in
  firstn (Z.to_nat s) l.

Definition of_option {A} (e : exn) (o : option A) : result A :=
  match o with
  | Some a => Ok a
  | None => Err e
  end.

(** [X.iloc[:, i]]: the column at position [i] as a Series. *)
Definition iloc_col {L M} (X : Frame L M) (i : Z) : result Series :=
  _ ← of_option IndexError (py_index (columns X) i);
  mapM (fun r => v ← of_option IndexError (py_index (values r) i); Ok (ix r, v))
       (rows X).

(** [X.iloc[:, :stop]] on the year block. *)
Definition iloc_cols_to {L M} (X : Frame L M) (stop : Z) : Frame L M :=
  mkFrame (py_slice_to (columns X) stop)
          (map (fun r => mkRow (ix r) (py_slice_to (values r) stop) (meta r)) (rows X)).

(** [X.loc[labels]]: the rows carrying each label, in the order of [labels];
    a label carried by no row raises [KeyError]. *)
Definition loc {L M} (X : Frame L M) (labels : list Z) : result (Frame L M) :=
  rs ← mapM (fun l => match List.filter (fun r => ix r =? l) (rows X) with
                       | [] => Err KeyError
                       | hit => Ok hit
                       end) labels;
  Ok (mkFrame (columns X) (concat rs)).

(** Dropping the trailing metadata columns, [X.iloc[:, :-3]] on the raw table
    and [X.iloc[:, :-4]] on the continent-tagged one. *)
Definition drop_meta {L M} (X : Frame L M) : Frame L unit :=
  mkFrame (columns X) (map (fun r => mkRow (ix r) (values r) tt) (rows X)).

(** ** Continent Classifier *)

Definition NA_names : list string :=
  ["Bahamas, The"; "Curacao"; "Sint Maarten (Dutch part)"; "St. Kitts and Nevis";
   "St. Lucia"; "St. Martin (French part)"; "St. Vincent and the Grenadines";
   "Virgin Islands (U.S.)"].
Definition EU_names : list string :=
  ["Channel Islands"; "Czech Republic"; "Faeroe Islands"; "Kosovo";
   "Macedonia, FYR"; "Moldova"; "Slovak Republic"].
Definition AS_names : list string :=
  ["Hong Kong SAR, China"; "Iran, Islamic Rep."; "Korea, Dem. Rep."; "Korea, Rep.";
   "Kyrgyz Republic"; "Lao PDR"; "Macao SAR, China"; "Micronesia, Fed. Sts.";
   "Timor-Leste"; "Vietnam"; "West Bank and Gaza"; "Yemen, Rep."].
Definition AF_names : list string :=
  ["Congo, Dem. Rep."; "Congo, Rep."; "Cote d'Ivoire"; "Egypt, Arab Rep.";
   "Tanzania"; "Gambia, The"].
Definition SA_names : list string := ["Bolivia"; "Venezuela, RB"].

(** Python's [x in [...]] on strings. *)
Definition str_in (x : string) (l : list string) : bool := existsb (String.eqb x) l.

(** The calls made to the generic services, in order. *)
Inductive service_call :=
| CountriesGet (name : string)
| Alpha2ToContinent (code : string).

Section Continents.

(** [pycountry.countries.get(name = n).alpha_2]: the alpha-2 code of the
    country registered under exactly that name; an unknown name raises
    [KeyError]. *)
Variable countries_get : string -> option string.
(** [pycountry_convert.country_alpha2_to_continent_code]; an unknown code
    raises [KeyError]. *)
Variable country_alpha2_to_continent_code : string -> option string.

(** The continent of a row's country name, with the service calls made. *)
Definition get_continent (name : string) : list service_call * result string :=
  if str_in name NA_names then ([], Ok "NA")
  else if str_in name EU_names then ([], Ok "EU")
  else if str_in name AS_names then ([], Ok "AS")
  else if str_in name AF_names then ([], Ok "AF")
  else if str_in name SA_names then ([], Ok "SA")
  else
    match countries_get name with
    | None => ([CountriesGet name], Err KeyError)
    | Some a2 =>
        ([CountriesGet name; Alpha2ToContinent a2],
         of_option KeyError (country_alpha2_to_continent_code a2))
    end.

(** [X['continent'] = X.apply(get_continent, axis=1)] on a copy. *)
Definition preprocess_continents {L} (training_set : Frame L Meta)
  : result (Frame L (Meta * string)) :=
  rs ← mapM (fun r => c ← snd (get_continent (country_name (meta r)));
                       Ok (mkRow (ix r) (values r) (meta r, c)))
             (rows training_set);
  Ok (mkFrame (columns training_set) rs).

End Continents.

(** ** Row Selector / Reshaper *)

(** [x.split(' ')[0]]: the text before the first space. *)
Fixpoint first_token (s : string) : string :=
  match s with
  | EmptyString => EmptyString
  | String c s' => if Ascii.eqb c " "%char then EmptyString else String c (first_token s')
  end.

(** A column label after [rename_cols]: an integer year or a kept name. *)
Inductive label := Year (y : Z) | Name (s : string).

(** [X.loc[l] = cells]: every row labelled [l] receives the cells. *)
Definition set_row {M} (l : Z) (cells : list float) (rs : list (Row M)) : list (Row M) :=
  map (fun r => if ix r =? l then mkRow (ix r) cells (meta r) else r) rs.

(** [for ix, row in X.iterrows(): X.loc[ix] = f(row)], the rows being read
    from the table as it was when the loop started. *)
Definition iterrows_update {L M} (f : Row M -> result (list float)) (X : Frame L M)
  : result (Frame L M) :=
  rs ← foldM (fun cur row => cells ← f row; Ok (set_row (ix row) cells cur))
             (rows X) (rows X);
  Ok (mkFrame (columns X) rs).

Section Reshape.

(** Python's [int] on a string; [None] where it raises [ValueError]. *)
Variable py_int : string -> option Z.

(** [X.rename(lambda x: int(x.split(' ')[0]), axis=1)] *)
Definition rename_years {M} (X : Frame string M) : result (Frame Z M) :=
  cols ← mapM (fun c => of_option ValueError (py_int (first_token c))) (columns X);
  Ok (mkFrame cols (rows X)).

(** [rename_cols] of [preprocess_with_continent_interpolation], on the
    labels of the year block. *)
Definition rename_cols (colname : string) : result label :=
  if negb (str_in colname ["Country Name"; "Series Code"; "Series Name"; "continent"])
  then y ← of_option ValueError (py_int (first_token colname)); Ok (Year y)
  else Ok (Name colname).

Definition preprocess_simple (training_set : Frame string Meta)
    (submit_rows_index : list Z) (years_ahead : Z)
  : result (Frame Z unit * Series) :=
  X ← loc training_set submit_rows_index;
  let X := drop_meta X in
  X ← rename_years X;
  Y ← iloc_col X (-1);
  let X := iloc_cols_to X (-1 * years_ahead) in
  Ok (X, Y).

Section AverageTable.

Variable countries_get : string -> option string.
Variable country_alpha2_to_continent_code : string -> option string.
(** [str((ind, cont, name))], the key format of ind_yr_cont_avgs.json. *)
Variable tuple_str : string -> string -> label -> string.
(** The content of ind_yr_cont_avgs.json. *)
Variable cont_avgs : gmap string float.

Definition impute_indyrcontavg (name : label) (value : float) (ind cont : string)
  : result float :=
  if isnan value
  then of_option KeyError (cont_avgs !! tuple_str ind cont name)
  else Ok value.

(** The body of the row loop up to [df['value']]: the row's cells paired
    with their column labels, each passed to [impute_indyrcontavg]. The
    four metadata cells are strings, never missing, and pass unchanged. *)
Definition impute_row (cols : list label) (row : Row (Meta * string))
  : result (list float) :=
  let ind := series_code (fst (meta row)) in
  let cont := snd (meta row) in
  mapM (fun '(name, value) => impute_indyrcontavg name value ind cont)
       (zip cols (values row)).

Definition preprocess_with_continent_interpolation
    (training_set : Frame string Meta) (submit_rows_index : list Z) (years_ahead : Z)
  : result (Frame label unit * Series) :=
  X_with_cont ← preprocess_continents countries_get country_alpha2_to_continent_code
                                      training_set;
  X_submit ← loc X_with_cont submit_rows_index;
  cols ← mapM rename_cols (columns X_submit);
  let X := mkFrame cols (rows X_submit) in
  X ← iterrows_update (impute_row (columns X)) X;
  let X := drop_meta X in
  Y ← iloc_col X (-1);
  let X := iloc_cols_to X (-1 * years_ahead) in
  Ok (X, Y).

End AverageTable.

End Reshape.

(** ** Cell access by column position and row label *)

(** [X[X.columns[pos]][i]]: column labels and index labels are distinct
    years and row ids, so the label picks the column at [pos] and the row
    labelled [i]. *)
Definition read_cell {L M} (X : Frame L M) (pos i : Z) : result float :=
  _ ← of_option IndexError (py_index (columns X) pos);
  r ← of_option KeyError (find (fun r => ix r =? i) (rows X));
  of_option IndexError (py_index (values r) pos).

(** [X[X.columns[pos]][i] = v] *)
Definition write_cell {L M} (X : Frame L M) (pos i : Z) (v : float) : result (Frame L M) :=
  _ ← of_option IndexError (py_index (columns X) pos);
  Ok (mkFrame (columns X)
        (map (fun r => if ix r =? i then mkRow (ix r) (py_set (values r) pos v) (meta r)
                       else r) (rows X))).

(** [s.loc[mask]] for a boolean mask over the same index. *)
Definition loc_mask (s : Series) (mask : list bool) : Series :=
  map fst (List.filter snd (zip s mask)).

(** ** numpy: unique and median *)

Fixpoint insert_unique (s : string) (l : list string) : list string :=
  match l with
  | [] => [s]
  | x :: l' =>
      match String.compare s x with
      | Lt => s :: l
      | Eq => l
      | Gt => x :: insert_unique s l'
      end
  end.

(** [np.unique]: the distinct values, sorted. *)
Definition np_unique (l : list string) : list string := foldr insert_unique [] l.

Fixpoint insert_sorted (x : float) (l : list float) : list float :=
  match l with
  | [] => [x]
  | y :: l' => if (x <=? y)%float then x :: l else y :: insert_sorted x l'
  end.

(** The values in ascending order (the array holds no [nan]). *)
Definition np_sort (l : list float) : list float := foldr insert_sorted [] l.

(** [np.median] of a one-dimensional array without [nan]: [np.mean] of the
    middle of the sorted values, which is the middle value for an odd count
    and the sum of the two middle values divided by two, in binary64, for an
    even count; [nan] for no value. *)
Definition np_median (l : list float) : float :=
  let s := np_sort l in
  let n := length s in
  if (n =? 0)%nat then NaN
  else if Nat.odd n then nth (n / 2)%nat s NaN
  else ((nth (n / 2 - 1)%nat s NaN + nth (n / 2)%nat s NaN) / 2)%float.

(** [s[~s.isnull()]] *)
Fixpoint dropna (l : list float) : list float :=
  match l with
  | [] => []
  | v :: l' => if isnan v then dropna l' else v :: dropna l'
  end.

(** ** pandas: linear interpolation, limit_direction backward *)

(** [indices[valid], yvalues[valid]]: the positions and values that are known. *)
Fixpoint valid_points (i : Z) (row : list float) : list (Z * float) :=
  match row with
  | [] => []
  | v :: rest =>
      if isnan v then valid_points (i + 1) rest else (i, v) :: valid_points (i + 1) rest
  end.

(** A position as [np.interp] receives it, a float64. *)
Definition float_of_pos (i : Z) : float := of_uint63 (Uint63.of_Z i).

(** What [np.interp] computes at [x] between the neighbouring points
    [(x0, y0)] and [(x1, y1)]: [slope*(x - x0) + y0] in binary64, and, should
    that be [nan], the same from the other end, or the common value of equal
    ends. *)
Definition interp_between (x0 : Z) (y0 : float) (x1 : Z) (y1 : float) (x : Z) : float :=
  let slope := ((y1 - y0) / (float_of_pos x1 - float_of_pos x0))%float in
  let res := (slope * (float_of_pos x - float_of_pos x0) + y0)%float in
  if is_nan res
  then
    let res' := (slope * (float_of_pos x - float_of_pos x1) + y1)%float in
    if is_nan res' && (y0 =? y1)%float then y0 else res'
  else res.

(** [np.interp(x, xp, fp)] over known points in increasing position: linear
    between the two points around [x], the end value outside them. *)
Fixpoint np_interp (x : Z) (pts : list (Z * float)) : float :=
  match pts with
  | [] => NaN
  | (x0, y0) :: rest =>
      if x <=? x0 then y0
      else match rest with
           | [] => y0
           | (x1, y1) :: _ =>
               if x <? x1 then interp_between x0 y0 x1 y1 x else np_interp x rest
           end
  end.

(** A missing value stays missing ([preserve_nans]) when none of the [limit]
    positions after it is known; that covers the trailing run, which the
    backward direction never fills. Every other missing value receives its
    [np.interp] value. *)
Fixpoint fill_backward (limit : nat) (pts : list (Z * float)) (i : Z) (row : list float)
  : list float :=
  match row with
  | [] => []
  | v :: rest =>
      (if isnan v
       then if forallb isnan (firstn limit rest) then NaN else np_interp i pts
       else v)
        :: fill_backward limit pts (i + 1) rest
  end.

(** [row.interpolate(method='linear', limit=limit, limit_direction='backward')] *)
Definition interpolate (limit : nat) (row : list float) : list float :=
  fill_backward limit (valid_points 0 row) 0 row.

(** ** Median / Recent-Value Imputer and Interpolator *)

(** [np.arange(2, 10)] *)
Definition lookback : list Z := [2; 3; 4; 5; 6; 7; 8; 9].

(** The inner [for recent_index in ...] loop with its [break]. *)
Fixpoint scan_recent {L M} (X : Frame L M) (i : Z) (recent : list Z)
  : result (Frame L M) :=
  match recent with
  | [] => Ok X
  | recent_index :: rest =>
      recent_val ← read_cell X (- recent_index) i;
      if negb (isnan recent_val)
      then write_cell X (-1) i recent_val
      else scan_recent X i rest
  end.

(** The body of [for i in NAN_training_indices_with_indicator]. *)
Definition fill_index {L M} (median_of_others : float) (X : Frame L M) (i : Z)
  : result (Frame L M) :=
  X ← write_cell X (-1) i median_of_others;
  scan_recent X i lookback.

(** The body of [for ind in indicators]. [last_column_all] is
    [training_set.iloc[:, -5]], [last_column_train] is [X.iloc[:, -1]] taken
    before the loop. *)
Definition fill_indicator {L} (training_set full_training_rows : Frame L Meta)
    (last_column_train last_column_all : Series) (X : Frame Z unit) (ind : string)
  : result (Frame Z unit) :=
  let training_rows_with_indicator :=
    loc_mask last_column_train
      (map (fun r => String.eqb (series_name (meta r)) ind) (rows full_training_rows)) in
  let all_rows_with_indicator :=
    loc_mask last_column_all
      (map (fun r => String.eqb (series_name (meta r)) ind) (rows training_set)) in
  let NAN_training_indices_with_indicator :=
    map fst (List.filter (fun p => isnan (snd p)) training_rows_with_indicator) in
  let median_of_others := np_median (dropna (map snd all_rows_with_indicator)) in
  foldM (fill_index median_of_others) NAN_training_indices_with_indicator X.

Section AvgNANs.

Variable py_int : string -> option Z.

(** The statements of [preprocess_avg_NANs] up to the end of the
    per-indicator loop: the split and the median / recent-value fill. *)
Definition median_recent_fill (training_set : Frame string Meta)
    (submit_rows_index : list Z) (years_ahead : Z)
  : result (Frame Z unit * Series) :=
  full_training_rows ← loc training_set submit_rows_index;
  let X := drop_meta full_training_rows in
  X ← rename_years py_int X;
  Y ← iloc_col X (-1);
  let X := iloc_cols_to X (-1 * years_ahead) in
  let indicators :=
    np_unique (map (fun r => series_name (meta r)) (rows full_training_rows)) in
  last_column_train ← iloc_col X (-1);
  (* column -5 of the raw table is column -2 of its year block *)
  last_column_all ← iloc_col training_set (-5 + 3);
  X ← foldM (fill_indicator training_set full_training_rows
               last_column_train last_column_all) indicators X;
  Ok (X, Y).

Definition preprocess_avg_NANs (training_set : Frame string Meta)
    (submit_rows_index : list Z) (years_ahead : Z)
  : result (Frame Z unit * Series) :=
  '(X, Y) ← median_recent_fill training_set submit_rows_index years_ahead;
  X ← iterrows_update (fun row => Ok (interpolate 50 (values row))) X;
  Ok (X, Y).

End AvgNANs.

(** ** Grouping for visualisation *)

(** [pd.concat([yrs, names], axis=1)] for two blocks over the same rows: the
    name cells are put back beside the year cells, row by row. *)
Definition concat_names {L} (yrs : Frame L unit) (names : list Meta) : Frame L Meta :=
  mkFrame (columns yrs)
          (zip_with (fun r m => mkRow (ix r) (values r) m) (rows yrs) names).

(** [df.groupby('Series Name')], as the groups it iterates over: the keys in
    ascending order, each with the rows of [df] that carry it, in the order
    of [df]. *)
Definition groupby_series_name {L} (df : Frame L Meta) : list (string * Frame L Meta) :=
  map (fun key =>
         (key, mkFrame (columns df)
                 (List.filter (fun r => String.eqb (series_name (meta r)) key)
                              (rows df))))
      (np_unique (map (fun r => series_name (meta r)) (rows df))).

Definition preprocess_for_viz (py_int : string -> option Z)
    (training_set : Frame string Meta) (submit_rows_index : list Z)
  : result (list (string * Frame Z Meta)) :=
  X ← loc training_set submit_rows_index;
  let yrs := drop_meta X in
  let names := map meta (rows X) in
  yrs ← rename_years py_int yrs;
  let df := concat_names yrs names in
  Ok (groupby_series_name df).

(** ** Notions used in the statements *)

(** The order of float cells. *)
Definition float_le (x y : float) : Prop := (x <=? y)%float = true.

(** The order of the group keys: strings compared character by character. *)
Definition string_lt (a b : string) : Prop := String.compare a b = Lt.

(** The row a loop iteration leaves in place of [r]. *)
Definition updated_row {M} (f : Row M -> result (list float)) (r : Row M)
  : result (Row M) :=
  cells ← f r; Ok (mkRow (ix r) cells (meta r)).

(** The cell [fill_backward] leaves at a position, from the cell there and
    the cells after it. *)
Definition filled_cell (limit : nat) (pts : list (Z * float)) (i : Z) (v : float)
    (rest : list float) : float :=
  if isnan v
  then if forallb isnan (take limit rest) then NaN else np_interp i pts
  else v.

(** Two rows of cells that differ at most in the last cell. *)
Definition agree_but_last (c c' : list float) : Prop :=
  length c' = length c /\
  forall j : nat, (S j < length c)%nat -> c' !! j = c !! j.

(** Two tables with the same columns, row labels and metadata whose cells
    differ at most in the last column. *)
Definition last_written {L M} (X X' : Frame L M) : Prop :=
  columns X' = columns X /\
  Forall2 (fun r r' => ix r' = ix r /\ meta r' = meta r /\
                       agree_but_last (values r) (values r'))
          (rows X) (rows X').

(** The row of a table that a label denotes. *)
Definition row_of {L M} (X : Frame L M) (i : Z) : option (Row M) :=
  find (fun r => ix r =? i) (rows X).

(** The lookback scan read off a row's own cells: the first known value at
    the positions [recent] from the end, [None] when all are missing. *)
Fixpoint scan_cells (cells : list float) (recent : list Z) : result (option float) :=
  match recent with
  | [] => Ok None
  | k :: rest =>
      v ← of_option IndexError (py_index cells (- k));
      if negb (isnan v) then Ok (Some v) else scan_cells cells rest
  end.

(** A row with its last cell replaced. *)
Definition with_last {M} (r : Row M) (v : float) : Row M :=
  mkRow (ix r) (py_set (values r) (-1) v) (meta r).

(** The median that [fill_indicator] computes for an indicator. *)
Definition median_of_others {L} (training_set : Frame L Meta) (last_column_all : Series)
    (ind : string) : float :=
  np_median (dropna (map snd
    (loc_mask last_column_all
       (map (fun r => String.eqb (series_name (meta r)) ind) (rows training_set))))).

(** The labels [fill_indicator] loops over, when the last feature column of
    the selected rows is given row by row by [g]. *)
Definition NAN_labels {L} (full : Frame L Meta) (g : Row Meta -> float) (ind : string)
  : list Z :=
  map ix (List.filter (fun r => isnan (g r))
            (List.filter (fun r => String.eqb (series_name (meta r)) ind) (rows full))).

(** The median of the known values that the rows of an indicator hold in the
    fifth column from the end of the raw table, which is the second year
    column from the end. *)
Definition indicator_median {L} (training_set : Frame L Meta) (ind : string) : float :=
  np_median (dropna
    (map (fun r => nth (length (columns training_set) - 2) (values r) NaN)
         (List.filter (fun r => String.eqb (series_name (meta r)) ind)
                      (rows training_set)))).

(** The known values the specification takes the median of: the cells that
    are not missing in the fifth column from the end of the raw table, whose
    year block is followed by the three name columns, of the rows carrying
    the indicator name. *)
Definition known_fifth_from_last (training_set : Frame string Meta) (ind : string)
  : list float :=
  flat_map (fun r =>
              if String.eqb (series_name (meta r)) ind
              then match py_index (values r) (-5 + 3) with
                   | Some v => if isnan v then [] else [v]
                   | None => []
                   end
              else [])
           (rows training_set).

(** [m] is the median of [vals]: with the values in ascending order, the
    middle one, or for an even count the two middle ones added and halved in
    binary64; [nan] for no value. *)
Definition is_median (vals : list float) (m : float) : Prop :=
  exists s,
    Permutation s vals /\ Sorted float_le s /\
    m = if (length s =? 0)%nat then NaN
        else if Nat.odd (length s) then nth (length s / 2) s NaN
        else ((nth (length s / 2 - 1) s NaN + nth (length s / 2) s NaN) / 2)%float.



(** The point [step] steps along [span] equal steps from [a] to [b], as
    binary64 computes slope times distance plus the left end. *)
Definition line_value (a b : float) (span step : Z) : float :=
  ((b - a) / float_of_pos span * float_of_pos step + a)%float.

(** The integers [z], [z + 1], ... up to [n] of them. *)
Fixpoint upto (n : nat) (z : Z) : list Z :=
  match n with
  | O => []
  | S n' => z :: upto n' (z + 1)
  end.

(** Whether, for all positions [p] below [np] and distances [d] below [nd],
    the float64 of [p + d] less the float64 of [p] is the float64 of [d]. *)
Definition positions_exact (np nd : Z) : bool :=
  forallb (fun p =>
             forallb (fun d =>
                        Leibniz.eqb (float_of_pos (p + d) - float_of_pos p)%float
                                    (float_of_pos d))
                     (upto (Z.to_nat nd) 0))
          (upto (Z.to_nat np) 0).

(** A table of width [w] with the given row labels, one cell per column. *)
Definition wide_frame {L M} (w : nat) (labels : list Z) (X : Frame L M) : Prop :=
  length (columns X) = w /\
  Forall (fun r => length (values r) = w) (rows X) /\
  map ix (rows X) = labels.

(** The Features and the Target of a returned pair carry the same row
    labels, which are the requested ones when the raw table's labels are
    distinct. *)
Definition aligned_with {L} (training_set : Frame string Meta) (submit_rows_index : list Z)
    (out : result (Frame L unit * Series)) : Prop :=
  forall X Y, out = Ok (X, Y) ->
    map ix (rows X) = map fst Y /\
    (List.NoDup (map ix (rows training_set)) -> map fst Y = submit_rows_index).

(** ** Concrete inputs used to exercise the statements *)

(** A reading of Python's [int] on plain decimal digit strings. *)
Fixpoint digits (s : string) (acc : Z) : option Z :=
  match s with
  | EmptyString => Some acc
  | String c s' =>
      let n := Z.of_nat (nat_of_ascii c) in
      if (48 <=? n) && (n <=? 57) then digits s' (10 * acc + (n - 48)) else None
  end.

Definition dec_int (s : string) : option Z :=
  match s with
  | EmptyString => None
  | _ => digits s 0
  end.

(** Three rows over the years 2005 to 2007. *)
Definition ex_training_set : Frame string Meta :=
  mkFrame ["2005 [YR2005]"; "2006 [YR2006]"; "2007 [YR2007]"]
    [mkRow 10 [1%float; NaN; 3%float] (mkMeta "Kosovo" "NY.GDP" "GDP");
     mkRow 11 [4%float; 5%float; 6%float] (mkMeta "Moldova" "NY.GDP" "GDP");
     mkRow 12 [NaN; NaN; 9%float] (mkMeta "Bolivia" "SP.POP" "Population")].

(** Five rows over the years 1998 to 2007, nine feature years when
    [years_ahead] is 1. *)
Definition ex_wide_training_set : Frame string Meta :=
  mkFrame ["1998 [YR1998]"; "1999 [YR1999]"; "2000 [YR2000]"; "2001 [YR2001]";
           "2002 [YR2002]"; "2003 [YR2003]"; "2004 [YR2004]"; "2005 [YR2005]";
           "2006 [YR2006]"; "2007 [YR2007]"]
    [mkRow 10 [NaN; NaN; NaN; NaN; NaN; NaN; 2%float; NaN; NaN; 3%float]
       (mkMeta "Kosovo" "NY.GDP" "GDP");
     mkRow 11 [NaN; NaN; NaN; NaN; NaN; NaN; NaN; 4%float; 5%float; 6%float]
       (mkMeta "Moldova" "NY.GDP" "GDP");
     mkRow 13 [NaN; NaN; NaN; NaN; NaN; NaN; NaN; 4%float; 8%float; 6%float]
       (mkMeta "Vietnam" "NY.GDP" "GDP");
     mkRow 14 [NaN; NaN; NaN; NaN; NaN; NaN; NaN; NaN; NaN; NaN]
       (mkMeta "Tanzania" "NY.GDP" "GDP");
     mkRow 12 [2%float; NaN; 1%float; NaN; NaN; NaN; NaN; NaN; 7%float; 9%float]
       (mkMeta "Bolivia" "SP.POP" "Population")].

Definition ex_wide_index : list Z := [10; 12; 14].

Definition ex_wide_selected : Frame string Meta :=
  mkFrame (columns ex_wide_training_set)
    [mkRow 10 [NaN; NaN; NaN; NaN; NaN; NaN; 2%float; NaN; NaN; 3%float]
       (mkMeta "Kosovo" "NY.GDP" "GDP");
     mkRow 12 [2%float; NaN; 1%float; NaN; NaN; NaN; NaN; NaN; 7%float; 9%float]
       (mkMeta "Bolivia" "SP.POP" "Population");
     mkRow 14 [NaN; NaN; NaN; NaN; NaN; NaN; NaN; NaN; NaN; NaN]
       (mkMeta "Tanzania" "NY.GDP" "GDP")].

(** What [median_recent_fill] and [preprocess_avg_NANs] return on it. *)
Definition ex_wide_filled : Frame Z unit * Series :=
  Eval vm_compute in
    match median_recent_fill dec_int ex_wide_training_set ex_wide_index 1 with
    | Ok p => p
    | Err _ => (mkFrame [] [], [])
    end.

Definition ex_wide_result : Frame Z unit * Series :=
  Eval vm_compute in
    match preprocess_avg_NANs dec_int ex_wide_training_set ex_wide_index 1 with
    | Ok p => p
    | Err _ => (mkFrame [] [], [])
    end.

(** Two rows over the years 1998 to 2007; the only row of indicator GDP has
    no known value before 2007. *)
Definition ex_lonely_training_set : Frame string Meta :=
  mkFrame (columns ex_wide_training_set)
    [mkRow 14 [NaN; NaN; NaN; NaN; NaN; NaN; NaN; NaN; NaN; 1%float]
       (mkMeta "Tanzania" "NY.GDP" "GDP");
     mkRow 12 [2%float; NaN; 1%float; NaN; NaN; NaN; NaN; NaN; 7%float; 9%float]
       (mkMeta "Bolivia" "SP.POP" "Population")].

(** The table of the specification's end-to-end scenario, years 2000 to
    2007: two rows of indicator GDP and one of Population. The second GDP
    row has no value before 2007. *)
Definition ex_eight_year_training_set : Frame string Meta :=
  mkFrame ["2000 [YR2000]"; "2001 [YR2001]"; "2002 [YR2002]"; "2003 [YR2003]";
           "2004 [YR2004]"; "2005 [YR2005]"; "2006 [YR2006]"; "2007 [YR2007]"]
    [mkRow 1 [1; 2; 3; 4; 5; 6; 7; 8]%float (mkMeta "CountryA" "NY.GDP" "GDP");
     mkRow 2 [NaN; NaN; NaN; NaN; NaN; NaN; NaN; 5%float]
       (mkMeta "CountryB" "NY.GDP" "GDP");
     mkRow 3 [3; 3; 3; 3; 3; 3; 3; 3]%float (mkMeta "CountryA" "SP.POP" "Population")].

(** One row over the years 2004 to 2007 with a gap of one year between 0.1
    and 0.5. *)
Definition ex_gap_training_set : Frame string Meta :=
  mkFrame ["2004 [YR2004]"; "2005 [YR2005]"; "2006 [YR2006]"; "2007 [YR2007]"]
    [mkRow 10 [0x1.999999999999ap-4; NaN; 0.5; 9]%float
       (mkMeta "Kosovo" "NY.GDP" "GDP")].

(** A key format for the average table: code, continent and column name
    joined by slashes. *)
Definition ex_tuple_str (ind cont : string) (name : label) : string :=
  (ind +:+ "/" +:+ cont +:+ "/" +:+
   match name with
   | Year y => pretty y
   | Name s => s
   end)%string.

Definition ex_cont_avgs : gmap string float :=
  {[ "NY.GDP/EU/2006" := 7%float ]}.

(** [ex_training_set] with the continent of each row, and its rows 10
    and 11. *)
Definition ex_tagged_training_set : Frame string (Meta * string) :=
  mkFrame ["2005 [YR2005]"; "2006 [YR2006]"; "2007 [YR2007]"]
    [mkRow 10 [1%float; NaN; 3%float] (mkMeta "Kosovo" "NY.GDP" "GDP", "EU");
     mkRow 11 [4%float; 5%float; 6%float] (mkMeta "Moldova" "NY.GDP" "GDP", "EU");
     mkRow 12 [NaN; NaN; 9%float] (mkMeta "Bolivia" "SP.POP" "Population", "SA")].

Definition ex_tagged_selected : Frame string (Meta * string) :=
  mkFrame (columns ex_tagged_training_set) (take 2 (rows ex_tagged_training_set)).

(** The first [m] year columns of the rows [rs] under the labels [cols],
    paired with the year column at position [k] (from 0) as a Series. *)
Definition first_columns_and_column {L} (m k : nat) (cols : list L) (rs : list (Row unit))
  : Frame L unit * Series :=
  (mkFrame (take m cols) (map (fun r => mkRow (ix r) (take m (values r)) tt) rs),
   map (fun r => (ix r, nth k (values r) NaN)) rs).

(** The override lists with the code each returns. *)
Definition override_lists : list (list string * string) :=
  [(NA_names, "NA"); (EU_names, "EU"); (AS_names, "AS"); (AF_names, "AF");
   (SA_names, "SA")].

(** * Properties *)

(** ** Float cells *)

Lemma SFcompare_refl_not_nan (f : spec_float) :
  SFeqb f f = true <-> f <> S754_nan.
Proof.
  unfold SFeqb. destruct f as [s | s | | s m e]; cbn.
  - split; [discriminate | reflexivity].
  - destruct s; split; (discriminate || reflexivity).
  - split; [discriminate | congruence].
  - rewrite Z.compare_refl, Pos.compare_cont_refl.
    destruct s; split; (discriminate || reflexivity).
Qed.

(** A cell is missing exactly when its binary64 value is the [nan]. *)
Lemma isnan_spec (v : float) : isnan v = true <-> Prim2SF v = S754_nan.
Proof.
  unfold isnan, is_nan. rewrite FloatAxioms.eqb_spec.
  destruct (SFeqb (Prim2SF v) (Prim2SF v)) eqn:E; cbn.
  - apply SFcompare_refl_not_nan in E. split; [discriminate | contradiction].
  - split; [intros _ | reflexivity].
    destruct (Prim2SF v) eqn:Ev; try reflexivity;
      exfalso; assert (H : SFeqb (Prim2SF v) (Prim2SF v) = true)
        by (rewrite Ev; apply SFcompare_refl_not_nan; discriminate);
      rewrite Ev in H; congruence.
Qed.

Lemma isnan_NaN (v : float) : isnan v = true -> v = NaN.
Proof.
  intros H. apply isnan_spec in H. apply Prim2SF_inj. rewrite H. reflexivity.
Qed.

Lemma SFcompare_antisym (f g : spec_float) (c : comparison) :
  SFcompare f g = Some c -> SFcompare g f = Some (CompOpp c).
Proof.
  destruct f as [s | s | | s m e], g as [s' | s' | | s' m' e']; cbn;
    try discriminate; try (intros [= <-]; try destruct s; try destruct s'; reflexivity).
  intros [= <-]. f_equal.
  pose proof (Pos.compare_cont_antisym m m' Eq) as Hm. cbn [CompOpp] in Hm.
  change PosDef.Pos.compare_cont with Pos.compare_cont.
  destruct s, s'; try reflexivity;
    rewrite (Z.compare_antisym e e');
    destruct (e ?= e')%Z; cbn [CompOpp]; try reflexivity;
    rewrite <- Hm; destruct (Pos.compare_cont Eq m m'); reflexivity.
Qed.

(** Cells that are not missing are totally ordered. *)
Lemma float_leb_total (x y : float) :
  isnan x = false -> isnan y = false -> (x <=? y)%float = false -> (y <=? x)%float = true.
Proof.
  intros Hx Hy. rewrite !FloatAxioms.leb_spec. unfold SFleb.
  assert (Hx' : Prim2SF x <> S754_nan)
    by (intros E; apply isnan_spec in E; congruence).
  assert (Hy' : Prim2SF y <> S754_nan)
    by (intros E; apply isnan_spec in E; congruence).
  destruct (SFcompare (Prim2SF x) (Prim2SF y)) as [c |] eqn:E.
  - rewrite (SFcompare_antisym _ _ _ E). destruct c; (discriminate || reflexivity).
  - exfalso. destruct (Prim2SF x), (Prim2SF y); cbn in E; congruence.
Qed.

(** ** Results and loops *)

Lemma str_in_In (x : string) (l : list string) : str_in x l = true <-> In x l.
Proof.
  unfold str_in. rewrite existsb_exists. split.
  - intros (y & Hy & E). apply String.eqb_eq in E. now subst.
  - intros H. exists x. split; [assumption | apply String.eqb_refl].
Qed.

Lemma str_in_false (x : string) (l : list string) : ~ In x l -> str_in x l = false.
Proof.
  intros H. destruct (str_in x l) eqn:E; [| reflexivity].
  apply str_in_In in E. contradiction.
Qed.

(** Reduce the binds of the result monad and nothing else. *)
Tactic Notation "bind_step" := cbn [mbind result_bind of_option].
Tactic Notation "bind_step" "in" hyp(H) := cbn [mbind result_bind of_option] in H.

(** A loop over [l] whose body only ever raises [e] raises [e] as soon as
    one element makes it raise. *)
Lemma mapM_raises {A B} (f : A -> result B) (e : exn) (l : list A) (a : A) :
  (forall x e', f x = Err e' -> e' = e) ->
  In a l -> f a = Err e -> mapM f l = Err e.
Proof.
  intros Hall Hin Ha. induction l as [| x l IH]; [destruct Hin |].
  cbn. destruct (f x) as [b | e'] eqn:Ex.
  - destruct Hin as [-> | Hin]; [congruence |].
    cbn. rewrite (IH Hin). reflexivity.
  - cbn. f_equal. eauto.
Qed.

(** ** Continent Classifier *)

(** The only exception the classifier raises is [KeyError]. *)
Lemma get_continent_raises_KeyError
    (countries_get alpha2 : string -> option string) (name : string) (e : exn) :
  snd (get_continent countries_get alpha2 name) = Err e -> e = KeyError.
Proof.
  unfold get_continent.
  repeat (destruct (str_in _ _); [discriminate |]).
  destruct (countries_get _); cbn; [| congruence].
  destruct (alpha2 _); cbn; congruence.
Qed.

(** C8. A country name on one of the fixed override lists gets that list's
    continent code, and the classifier makes no call to the country registry
    or to the alpha-2-to-continent service, whatever those services are. *)
Theorem get_continent_override_short_circuit
    (countries_get alpha2 : string -> option string)
    (names : list string) (code name : string) :
  In (names, code) override_lists ->
  In name names ->
  get_continent countries_get alpha2 name = ([], Ok code).
Proof.
  unfold override_lists. cbn [In].
  intros Hl Hn.
  repeat (destruct Hl as [Hl | Hl]; [injection Hl as <- <- |]); try contradiction;
    cbn [In NA_names EU_names AS_names AF_names SA_names] in Hn;
    repeat (destruct Hn as [<- | Hn]; [reflexivity |]); contradiction.
Qed.

Lemma get_continent_override_short_circuit_witness :
  get_continent (fun _ => None) (fun _ => Some "OC") "Kosovo" = ([], Ok "EU").
Proof.
  apply (get_continent_override_short_circuit _ _ EU_names "EU" "Kosovo").
  - cbn. tauto.
  - cbn. tauto.
Defined.

(** C4. A country name on no override list that the registry does not know
    makes the classifier fail with [KeyError], a [LookupError]; the failure
    is not caught: tagging a table holding such a row fails the same way, and
    so does the whole average-table path. *)
Theorem get_continent_unknown_country_fails
    (py_int : string -> option Z)
    (countries_get alpha2 : string -> option string)
    (tuple_str : string -> string -> label -> string)
    (cont_avgs : gmap string float)
    (name : string) :
  ~ In name (NA_names ++ EU_names ++ AS_names ++ AF_names ++ SA_names) ->
  countries_get name = None ->
  get_continent countries_get alpha2 name = ([CountriesGet name], Err KeyError) /\
  is_LookupError KeyError = true /\
  forall (training_set : Frame string Meta) (r : Row Meta)
         (submit_rows_index : list Z) (years_ahead : Z),
    In r (rows training_set) ->
    country_name (meta r) = name ->
    preprocess_continents countries_get alpha2 training_set = Err KeyError /\
    preprocess_with_continent_interpolation py_int countries_get alpha2 tuple_str
      cont_avgs training_set submit_rows_index years_ahead = Err KeyError.
Proof.
  intros Hnot Hreg.
  assert (Hget : get_continent countries_get alpha2 name
                 = ([CountriesGet name], Err KeyError)).
  { unfold get_continent.
    rewrite !in_app_iff in Hnot.
    rewrite !str_in_false by tauto.
    now rewrite Hreg. }
  split; [exact Hget |]. split; [reflexivity |].
  intros ts r idx ya Hin Hname.
  assert (Hpc : preprocess_continents countries_get alpha2 ts = Err KeyError).
  { unfold preprocess_continents.
    erewrite (mapM_raises _ KeyError _ r); [reflexivity | | exact Hin |].
    - intros x e'.
      destruct (snd (get_continent countries_get alpha2 (country_name (meta x))))
        as [c | e''] eqn:Ec; cbn; [discriminate |].
      apply get_continent_raises_KeyError in Ec. congruence.
    - rewrite Hname, Hget. reflexivity. }
  split; [exact Hpc |].
  unfold preprocess_with_continent_interpolation. now rewrite Hpc.
Qed.

Lemma get_continent_unknown_country_fails_witness :
  get_continent (fun _ => None) (fun _ => Some "OC") "Atlantis"
  = ([CountriesGet "Atlantis"], Err KeyError).
Proof.
  apply (get_continent_unknown_country_fails dec_int (fun _ => None) (fun _ => Some "OC")
           (fun _ _ _ => "k") ∅ "Atlantis").
  - vm_compute. intuition discriminate.
  - reflexivity.
Defined.

(** ** Row loops that write back by label *)

Lemma set_row_fresh {M} (l : Z) (cells : list float) (rs : list (Row M)) :
  ~ In l (map ix rs) -> set_row l cells rs = rs.
Proof.
  induction rs as [| r rs IH]; [reflexivity |].
  cbn. intros H.
  destruct (Z.eqb_spec (ix r) l) as [E | E]; [tauto |].
  f_equal. apply IH. tauto.
Qed.

Lemma set_row_app {M} (l : Z) (cells : list float) (rs1 rs2 : list (Row M)) :
  set_row l cells (rs1 ++ rs2) = set_row l cells rs1 ++ set_row l cells rs2.
Proof. unfold set_row. apply map_app. Qed.

Lemma set_row_here {M} (cells : list float) (r : Row M) (rs : list (Row M)) :
  set_row (ix r) cells (r :: rs) = mkRow (ix r) cells (meta r) :: set_row (ix r) cells rs.
Proof. unfold set_row. cbn. now rewrite Z.eqb_refl. Qed.

Lemma updated_row_ix {M} (f : Row M -> result (list float)) (r r' : Row M) :
  updated_row f r = Ok r' -> ix r' = ix r.
Proof.
  unfold updated_row. destruct (f r); cbn; [| discriminate].
  intros [= <-]. reflexivity.
Qed.

Lemma mapM_updated_row_ix {M} (f : Row M -> result (list float)) (rs rs' : list (Row M)) :
  mapM (updated_row f) rs = Ok rs' -> map ix rs' = map ix rs.
Proof.
  revert rs'. induction rs as [| r rs IH]; cbn; intros rs'.
  - intros [= <-]. reflexivity.
  - destruct (updated_row f r) as [r1 |] eqn:E1; cbn; [| discriminate].
    destruct (mapM (updated_row f) rs) as [rs1 |]; cbn; [| discriminate].
    intros [= <-]. cbn. f_equal; [eapply updated_row_ix; eassumption | now apply IH].
Qed.

Lemma foldM_set_row {M} (f : Row M -> result (list float))
    (done post : list (Row M)) :
  List.NoDup (map ix (done ++ post)) ->
  foldM (fun cur row => cells ← f row; Ok (set_row (ix row) cells cur)) post (done ++ post)
  = (rs ← mapM (updated_row f) post; Ok (done ++ rs)).
Proof.
  revert done. induction post as [| r post IH]; intros done Hnd.
  - cbn. reflexivity.
  - cbn [foldM mapM].
    destruct (f r) as [cells | e] eqn:E.
    2:{ assert (Hu : updated_row f r = Err e) by (unfold updated_row; now rewrite E).
        rewrite Hu. reflexivity. }
    assert (Hu : updated_row f r = Ok (mkRow (ix r) cells (meta r)))
      by (unfold updated_row; now rewrite E).
    rewrite Hu. cbn.
    assert (Hfresh : ~ In (ix r) (map ix done) /\ ~ In (ix r) (map ix post)).
    { rewrite map_app in Hnd. cbn in Hnd.
      apply NoDup_remove_2 in Hnd. rewrite in_app_iff in Hnd. tauto. }
    rewrite set_row_app, set_row_here, !set_row_fresh by tauto.
    specialize (IH (done ++ [mkRow (ix r) cells (meta r)])).
    rewrite <- !app_assoc in IH. cbn in IH. rewrite IH.
    + destruct (mapM (updated_row f) post); cbn; [| reflexivity].
      now rewrite <- app_assoc.
    + rewrite !map_app in *. cbn in *. exact Hnd.
Qed.

Lemma iterrows_update_unique {L M} (f : Row M -> result (list float)) (X : Frame L M) :
  List.NoDup (map ix (rows X)) ->
  iterrows_update f X
  = (rs ← mapM (updated_row f) (rows X); Ok (mkFrame (columns X) rs)).
Proof.
  intros Hnd. unfold iterrows_update.
  pose proof (foldM_set_row f [] (rows X) Hnd) as H. cbn [app] in H.
  rewrite H. destruct (mapM (updated_row f) (rows X)); reflexivity.
Qed.

Lemma iterrows_update_raises {L M} (f : Row M -> result (list float)) (e : exn)
    (X : Frame L M) (r : Row M) :
  (forall x e', f x = Err e' -> e' = e) ->
  In r (rows X) -> f r = Err e -> iterrows_update f X = Err e.
Proof.
  intros Hall Hin Hr. unfold iterrows_update.
  enough (H : forall post cur, In r post ->
            foldM (fun cur row => cells ← f row; Ok (set_row (ix row) cells cur)) post cur
            = Err e) by now rewrite H.
  induction post as [| x post IH]; intros cur Hp; [destruct Hp |].
  cbn. destruct (f x) as [cells | e'] eqn:Ex; cbn.
  - destruct Hp as [-> | Hp]; [congruence | now apply IH].
  - f_equal. eauto.
Qed.

Lemma mapM_raises_only {A B} (f : A -> result B) (e e' : exn) (l : list A) :
  (forall x e', f x = Err e' -> e' = e) -> mapM f l = Err e' -> e' = e.
Proof.
  intros Hall. induction l as [| x l IH]; cbn; [discriminate |].
  destruct (f x) eqn:Ex; cbn.
  - destruct (mapM f l); cbn; [discriminate | exact IH].
  - intros [= <-]. eauto.
Qed.

Lemma mapM_lookup {A B} (f : A -> result B) (l : list A) (l' : list B) (k : nat) (a : A) :
  mapM f l = Ok l' -> l !! k = Some a -> exists b, f a = Ok b /\ l' !! k = Some b.
Proof.
  revert l' k. induction l as [| x l IH]; intros l' k; cbn; [intros _ [=] |].
  destruct (f x) as [b |] eqn:Ex; cbn; [| discriminate].
  destruct (mapM f l) as [bs |]; cbn; [| discriminate].
  intros [= <-]. destruct k as [| k]; cbn.
  - intros [= <-]. eauto.
  - intros Hk. now apply IH.
Qed.

Lemma mapM_length {A B} (f : A -> result B) (l : list A) (l' : list B) :
  mapM f l = Ok l' -> length l' = length l.
Proof.
  revert l'. induction l as [| x l IH]; intros l'; cbn; [now intros [= <-] |].
  destruct (f x); cbn; [| discriminate].
  destruct (mapM f l); cbn; [| discriminate].
  intros [= <-]. cbn. f_equal. now apply IH.
Qed.

Lemma mapM_id {A} (f : A -> result A) (l : list A) :
  (forall a, In a l -> f a = Ok a) -> mapM f l = Ok l.
Proof.
  induction l as [| x l IH]; intros H; [reflexivity |].
  cbn. rewrite (H x) by now left. cbn. rewrite IH; [reflexivity |].
  intros a Ha. apply H. now right.
Qed.

Lemma mapM_fixed {A} (f : A -> result A) (l l' : list A) :
  (forall a b, In a l -> f a = Ok b -> f b = Ok b) ->
  mapM f l = Ok l' -> mapM f l' = Ok l'.
Proof.
  revert l'. induction l as [| x l IH]; intros l' Hf; cbn; [now intros [= <-] |].
  destruct (f x) as [b |] eqn:Ex; cbn; [| discriminate].
  destruct (mapM f l) as [bs |] eqn:El; cbn; [| discriminate].
  intros [= <-]. cbn. rewrite (Hf x b) by (assumption || now left). cbn.
  rewrite (IH bs); [reflexivity | | reflexivity].
  intros a b' Ha. apply Hf. now right.
Qed.

(** ** Average-Table Imputer *)

Section AverageTableFacts.

Variable tuple_str : string -> string -> label -> string.
Variable cont_avgs : gmap string float.

Lemma impute_indyrcontavg_raises_KeyError name value ind cont e :
  impute_indyrcontavg tuple_str cont_avgs name value ind cont = Err e -> e = KeyError.
Proof.
  unfold impute_indyrcontavg. destruct (isnan value); [| discriminate].
  destruct (cont_avgs !! _); cbn; congruence.
Qed.

Lemma impute_row_raises_KeyError cols row e :
  impute_row tuple_str cont_avgs cols row = Err e -> e = KeyError.
Proof.
  unfold impute_row. apply mapM_raises_only.
  intros [name value] e'. apply impute_indyrcontavg_raises_KeyError.
Qed.

(** A missing cell whose key the table lacks makes the row's imputation
    raise [KeyError]. *)
Lemma impute_row_missing_key cols row (j : nat) name :
  cols !! j = Some name ->
  values row !! j = Some NaN ->
  cont_avgs !! tuple_str (series_code (fst (meta row))) (snd (meta row)) name = None ->
  impute_row tuple_str cont_avgs cols row = Err KeyError.
Proof.
  intros Hc Hv Hk. unfold impute_row.
  apply (mapM_raises _ KeyError _ (name, NaN)).
  - intros [n v] e'. apply impute_indyrcontavg_raises_KeyError.
  - apply list_elem_of_In, (list_elem_of_lookup_2 _ j).
    apply lookup_zip_Some. auto.
  - unfold impute_indyrcontavg. cbn. now rewrite Hk.
Qed.

(** A row without missing cells is returned as it is. *)
Lemma impute_row_complete cols (row : Row (Meta * string)) :
  length cols = length (values row) ->
  Forall (fun v => isnan v = false) (values row) ->
  impute_row tuple_str cont_avgs cols row = Ok (values row).
Proof.
  unfold impute_row. generalize (series_code (meta row).1), (meta row).2.
  intros ind cont. generalize (values row). clear row.
  intros vs. revert cols.
  induction vs as [| v vs IH]; intros [| c cols]; cbn; try discriminate;
    [reflexivity |].
  intros [= Hlen] Hall. inversion Hall as [| ? ? Hv Hvs]; subst.
  assert (E : impute_indyrcontavg tuple_str cont_avgs c v ind cont = Ok v)
    by (unfold impute_indyrcontavg; now rewrite Hv).
  rewrite E. cbn. now rewrite (IH cols Hlen Hvs).
Qed.

(** Imputing an imputed row gives the same cells again. *)
Lemma impute_row_idempotent cols (row : Row (Meta * string)) cells :
  impute_row tuple_str cont_avgs cols row = Ok cells ->
  impute_row tuple_str cont_avgs cols (mkRow (ix row) cells (meta row)) = Ok cells.
Proof.
  unfold impute_row. cbn [meta values].
  generalize (series_code (meta row).1), (meta row).2.
  intros ind cont. generalize (values row). clear row.
  intros vs. revert cols cells.
  induction vs as [| v vs IH]; intros [| c cols] cells; cbn;
    try (intros [= <-]; reflexivity).
  destruct (impute_indyrcontavg tuple_str cont_avgs c v ind cont) as [v' |] eqn:Ev;
    cbn; [| discriminate].
  destruct (mapM _ (zip cols vs)) as [vs' |] eqn:Evs; cbn; [| discriminate].
  intros [= <-]. cbn.
  assert (Ev' : impute_indyrcontavg tuple_str cont_avgs c v' ind cont = Ok v').
  { unfold impute_indyrcontavg in *.
    destruct (isnan v) eqn:Hv.
    - destruct (isnan v') eqn:Hv'; [exact Ev | reflexivity].
    - injection Ev as <-. now rewrite Hv. }
  rewrite Ev'. cbn. now rewrite (IH cols vs' Evs).
Qed.

End AverageTableFacts.

(** C5. In a continent-tagged selected row, a missing cell whose key (series
    code, continent, column label) the average table lacks makes the row's
    imputation raise [KeyError], and with it the whole average-table path:
    no default value is substituted. *)
Theorem impute_missing_key_raises
    (py_int : string -> option Z)
    (countries_get alpha2 : string -> option string)
    (tuple_str : string -> string -> label -> string)
    (cont_avgs : gmap string float)
    (training_set : Frame string Meta) (submit_rows_index : list Z) (years_ahead : Z)
    (X_with_cont X_submit : Frame string (Meta * string)) (cols : list label)
    (row : Row (Meta * string)) (j : nat) (name : label) :
  preprocess_continents countries_get alpha2 training_set = Ok X_with_cont ->
  loc X_with_cont submit_rows_index = Ok X_submit ->
  mapM (rename_cols py_int) (columns X_submit) = Ok cols ->
  In row (rows X_submit) ->
  cols !! j = Some name ->
  values row !! j = Some NaN ->
  cont_avgs !! tuple_str (series_code (fst (meta row))) (snd (meta row)) name = None ->
  impute_row tuple_str cont_avgs cols row = Err KeyError /\
  preprocess_with_continent_interpolation py_int countries_get alpha2 tuple_str
    cont_avgs training_set submit_rows_index years_ahead = Err KeyError.
Proof.
  intros Hc Hl Hr Hin Hj Hv Hk.
  pose proof (impute_row_missing_key tuple_str cont_avgs cols row j name Hj Hv Hk) as Hrow.
  split; [exact Hrow |].
  unfold preprocess_with_continent_interpolation.
  rewrite Hc. bind_step. rewrite Hl. bind_step. rewrite Hr. bind_step.
  erewrite (iterrows_update_raises _ KeyError _ row); [reflexivity | | exact Hin | exact Hrow].
  intros x e'. apply impute_row_raises_KeyError.
Qed.

Lemma impute_missing_key_raises_witness :
  preprocess_with_continent_interpolation dec_int (fun _ => None) (fun _ => None)
    ex_tuple_str ∅ ex_training_set [10; 11] 1 = Err KeyError.
Proof.
  eapply (impute_missing_key_raises dec_int (fun _ => None) (fun _ => None)
            ex_tuple_str ∅ ex_training_set [10; 11] 1 _ _ _
            (mkRow 10 [1%float; NaN; 3%float] (mkMeta "Kosovo" "NY.GDP" "GDP", "EU"))
            1%nat (Year 2006)).
  - vm_compute. reflexivity.
  - vm_compute. reflexivity.
  - vm_compute. reflexivity.
  - cbn. tauto.
  - reflexivity.
  - reflexivity.
  - reflexivity.
Defined.

(** C6. On a table with one cell per column and distinct row labels: the
    imputation of a row without missing cells returns the row's cells as
    they are; on a table without any missing cell the imputation loop
    returns the table itself; and whenever the loop returns, the rows that
    had no missing cell are unchanged in the table it returns and running
    the loop again on that table returns it as it is. *)
Theorem impute_complete_row_unchanged
    (tuple_str : string -> string -> label -> string)
    (cont_avgs : gmap string float)
    (X : Frame label (Meta * string)) :
  rectangular X ->
  List.NoDup (map ix (rows X)) ->
  let complete (row : Row (Meta * string)) :=
    Forall (fun v => isnan v = false) (values row) in
  let impute_table (X : Frame label (Meta * string)) :=
    iterrows_update (impute_row tuple_str cont_avgs (columns X)) X in
  (forall row, In row (rows X) -> complete row ->
               impute_row tuple_str cont_avgs (columns X) row = Ok (values row)) /\
  ((forall row, In row (rows X) -> complete row) -> impute_table X = Ok X) /\
  (forall X',
     impute_table X = Ok X' ->
     (forall (k : nat) row,
        rows X !! k = Some row -> complete row -> rows X' !! k = Some row) /\
     impute_table X' = Ok X').
Proof.
  intros Hrect Hnd complete impute_table.
  assert (Hrow : forall row, In row (rows X) -> complete row ->
                   impute_row tuple_str cont_avgs (columns X) row = Ok (values row)).
  { intros row Hin Hfull. apply impute_row_complete; [| assumption].
    unfold rectangular in Hrect. rewrite Forall_forall in Hrect.
    symmetry. apply Hrect. now apply list_elem_of_In. }
  split; [exact Hrow |]. split.
  - intros Hall. unfold impute_table. rewrite iterrows_update_unique by assumption.
    rewrite mapM_id; [now destruct X |].
    intros row Hin. unfold updated_row. rewrite Hrow by auto.
    bind_step. now destruct row.
  - intros X' Hrun. unfold impute_table in *.
    rewrite iterrows_update_unique in Hrun by assumption.
    destruct (mapM _ (rows X)) as [rs |] eqn:Ers; bind_step in Hrun; [| discriminate].
    injection Hrun as <-. cbn [rows columns]. split.
    + intros k row Hk Hfull.
      destruct (mapM_lookup _ _ _ _ _ Ers Hk) as (b & Hb & Hkb).
      unfold updated_row in Hb.
      rewrite Hrow in Hb
        by (assumption || (apply list_elem_of_In; eapply list_elem_of_lookup_2; eassumption)).
      bind_step in Hb. injection Hb as <-. rewrite Hkb. now destruct row.
    + rewrite iterrows_update_unique; cbn [rows columns].
      * erewrite mapM_fixed; [reflexivity | | exact Ers].
        intros a b _. unfold updated_row.
        destruct (impute_row tuple_str cont_avgs (columns X) a) as [cells |] eqn:Ea;
          bind_step; [| discriminate].
        intros [= <-].
        now rewrite (impute_row_idempotent _ _ _ _ _ Ea).
      * now rewrite (mapM_updated_row_ix _ _ _ Ers).
Qed.

Lemma impute_complete_row_unchanged_witness :
  let X := mkFrame [Year 2005; Year 2006]
             [mkRow 10 [1%float; NaN] (mkMeta "Kosovo" "NY.GDP" "GDP", "EU");
              mkRow 11 [4%float; 5%float] (mkMeta "Moldova" "NY.GDP" "GDP", "EU")] in
  let X' := mkFrame [Year 2005; Year 2006]
             [mkRow 10 [1%float; 7%float] (mkMeta "Kosovo" "NY.GDP" "GDP", "EU");
              mkRow 11 [4%float; 5%float] (mkMeta "Moldova" "NY.GDP" "GDP", "EU")] in
  rows X' !! 1%nat = rows X !! 1%nat /\
  iterrows_update (impute_row ex_tuple_str ex_cont_avgs (columns X')) X' = Ok X'.
Proof.
  intros X X'.
  destruct (impute_complete_row_unchanged ex_tuple_str ex_cont_avgs X) as (_ & _ & H).
  - repeat constructor.
  - repeat constructor; cbn; intuition lia.
  - destruct (H X') as [Hkeep Hagain].
    + vm_compute. reflexivity.
    + split; [| exact Hagain].
      apply (Hkeep 1%nat); [reflexivity | repeat constructor].
Defined.

(** ** Positional indexing *)

Lemma py_pos_neg (n : nat) (k : Z) :
  0 < k <= Z.of_nat n -> py_pos n (- k) = Some (n - Z.to_nat k)%nat.
Proof.
  intros Hk. unfold py_pos.
  destruct (Z.ltb_spec (- k) 0); [| lia].
  destruct (Z.ltb_spec (- k + Z.of_nat n) 0); [lia |].
  destruct (Z.leb_spec (Z.of_nat n) (- k + Z.of_nat n)); [lia |].
  cbn. f_equal. lia.
Qed.

Lemma py_pos_last (n : nat) : (0 < n)%nat -> py_pos n (-1) = Some (n - 1)%nat.
Proof. intros Hn. apply (py_pos_neg n 1). lia. Qed.

Lemma py_pos_neg_out (n : nat) (k : Z) : Z.of_nat n < k -> py_pos n (- k) = None.
Proof.
  intros Hk. unfold py_pos.
  destruct (Z.ltb_spec (- k) 0); [| lia].
  destruct (Z.ltb_spec (- k + Z.of_nat n) 0); [reflexivity | lia].
Qed.

Lemma py_index_neg {A} (l : list A) (d : A) (k : Z) :
  0 < k <= Z.of_nat (length l) ->
  py_index l (- k) = Some (nth (length l - Z.to_nat k) l d).
Proof.
  intros Hk. unfold py_index. rewrite py_pos_neg by assumption.
  destruct (nth_lookup_or_length l (length l - Z.to_nat k) d) as [H | H];
    [exact H | lia].
Qed.

Lemma py_index_last {A} (l : list A) (d : A) :
  (0 < length l)%nat -> py_index l (-1) = Some (nth (length l - 1) l d).
Proof. intros Hn. apply (py_index_neg l d 1). lia. Qed.

Lemma py_slice_to_neg {A} (l : list A) (k : Z) :
  0 < k -> py_slice_to l (-k) = take (Z.to_nat (Z.of_nat (length l) - k)) l.
Proof.
  intros Hk. unfold py_slice_to.
  destruct (Z.ltb_spec (-k) 0); [| lia].
  f_equal. lia.
Qed.

(** The two lines that split a table of year columns: [Y = X.iloc[:, -1]]
    and [X = X.iloc[:, :-1*years_ahead]]. *)
Lemma split_last_column {L M} (X : Frame L M) (years_ahead : Z) :
  rectangular X ->
  0 < years_ahead < Z.of_nat (length (columns X)) ->
  let n := length (columns X) in
  let m := Z.to_nat (Z.of_nat n - years_ahead) in
  iloc_col X (-1) = Ok (map (fun r => (ix r, nth (n - 1) (values r) NaN)) (rows X)) /\
  iloc_cols_to X (-1 * years_ahead)
  = mkFrame (take m (columns X))
            (map (fun r => mkRow (ix r) (take m (values r)) (meta r)) (rows X)).
Proof.
  intros Hrect Hya n m. split.
  - unfold iloc_col.
    destruct (columns X) as [| c cs] eqn:Ec; [cbn in Hya; lia |].
    rewrite (py_index_last (c :: cs) c) by (cbn; lia). bind_step.
    unfold rectangular in Hrect. rewrite Ec in Hrect. subst n m.
    induction Hrect as [| r rs Hr _ IH]; [reflexivity |].
    cbn [mapM map]. rewrite (py_index_last (values r) NaN) by (rewrite Hr; cbn; lia).
    bind_step. rewrite IH. bind_step. now rewrite Hr.
  - unfold iloc_cols_to. replace (-1 * years_ahead) with (- years_ahead) by lia.
    rewrite py_slice_to_neg by lia. fold n m. f_equal.
    apply map_ext_in. intros r Hr.
    rewrite py_slice_to_neg by lia. f_equal. f_equal.
    unfold rectangular in Hrect. rewrite Forall_forall in Hrect.
    rewrite (Hrect r) by now apply list_elem_of_In. reflexivity.
Qed.

(** ** Row selection keeps rows and columns *)

Lemma loc_columns {L M} (X sel : Frame L M) (labels : list Z) :
  loc X labels = Ok sel -> columns sel = columns X.
Proof.
  unfold loc. destruct (mapM _ labels); cbn; [| discriminate].
  now intros [= <-].
Qed.

Lemma loc_rows {L M} (X sel : Frame L M) (labels : list Z) (r : Row M) :
  loc X labels = Ok sel -> In r (rows sel) -> In r (rows X) /\ In (ix r) labels.
Proof.
  unfold loc.
  destruct (mapM _ labels) as [rs |] eqn:E; cbn; [| discriminate].
  intros [= <-]. cbn. revert rs E.
  induction labels as [| l labels IH]; intros rs; cbn.
  - intros [= <-]. cbn. intros [].
  - destruct (List.filter _ (rows X)) as [| h hit] eqn:Eh; cbn; [discriminate |].
    destruct (mapM _ labels) as [rs' |]; cbn; [| discriminate].
    intros [= <-]. cbn [concat]. rewrite in_app_iff. intros [Hr | Hr].
    + rewrite <- Eh in Hr. apply filter_In in Hr as [Hr Hl].
      apply Z.eqb_eq in Hl. split; [assumption | now left].
    + destruct (IH rs' eq_refl Hr). split; [assumption | now right].
Qed.

Lemma loc_rectangular {L M} (X sel : Frame L M) (labels : list Z) :
  rectangular X -> loc X labels = Ok sel -> rectangular sel.
Proof.
  unfold rectangular. rewrite !Forall_forall. intros HX Hloc r Hr.
  rewrite (loc_columns _ _ _ Hloc). apply HX.
  apply list_elem_of_In. apply list_elem_of_In in Hr.
  now destruct (loc_rows _ _ _ _ Hloc Hr).
Qed.

Lemma drop_meta_rectangular {L M} (X : Frame L M) :
  rectangular X -> rectangular (drop_meta X).
Proof.
  unfold rectangular, drop_meta. cbn. intros H.
  apply Forall_forall. intros r Hr. apply list_elem_of_In, in_map_iff in Hr.
  destruct Hr as (r0 & <- & Hr0). cbn.
  rewrite Forall_forall in H. apply H. now apply list_elem_of_In.
Qed.

Lemma rename_years_spec (py_int : string -> option Z) {M} (X : Frame string M)
    (cols : list Z) :
  mapM (fun c => of_option ValueError (py_int (first_token c))) (columns X) = Ok cols ->
  rename_years py_int X = Ok (mkFrame cols (rows X)) /\
  length cols = length (columns X).
Proof.
  intros H. unfold rename_years. rewrite H. split; [reflexivity |].
  eapply mapM_length; eassumption.
Qed.

Lemma mapM_Forall {A B} (f : A -> result B) (Q : B -> Prop) (l : list A) (l' : list B) :
  (forall a b, In a l -> f a = Ok b -> Q b) -> mapM f l = Ok l' -> Forall Q l'.
Proof.
  revert l'. induction l as [| x l IH]; intros l' HQ; cbn.
  - intros [= <-]. constructor.
  - destruct (f x) as [b |] eqn:Ex; cbn; [| discriminate].
    destruct (mapM f l) as [bs |]; cbn; [| discriminate].
    intros [= <-]. constructor.
    + apply (HQ x); [now left | assumption].
    + apply IH; [| reflexivity]. intros a b' Ha. apply HQ. now right.
Qed.

Lemma foldM_set_row_Forall {M} (P : list float -> Prop)
    (f : Row M -> result (list float)) (post cur rs : list (Row M)) :
  Forall (fun r => P (values r)) cur ->
  (forall r cells, In r post -> f r = Ok cells -> P cells) ->
  foldM (fun cur row => cells ← f row; Ok (set_row (ix row) cells cur)) post cur = Ok rs ->
  Forall (fun r => P (values r)) rs.
Proof.
  revert cur. induction post as [| r post IH]; intros cur Hcur Hf; cbn.
  - now intros [= <-].
  - destruct (f r) as [cells |] eqn:Er; cbn; [| discriminate].
    apply IH.
    + unfold set_row. apply Forall_forall. intros r0 Hr0.
      apply list_elem_of_In, in_map_iff in Hr0. destruct Hr0 as (r1 & <- & Hr1).
      destruct (ix r1 =? ix r); cbn.
      * apply (Hf r); [now left | assumption].
      * rewrite Forall_forall in Hcur. apply Hcur. now apply list_elem_of_In.
    + intros r0 c0 Hr0. apply Hf. now right.
Qed.

(** What holds of every row's cells before a row loop, and of the cells the
    loop body computes, holds of every row's cells after it. *)
Lemma iterrows_update_Forall {L M} (P : list float -> Prop)
    (f : Row M -> result (list float)) (X X' : Frame L M) :
  Forall (fun r => P (values r)) (rows X) ->
  (forall r cells, In r (rows X) -> f r = Ok cells -> P cells) ->
  iterrows_update f X = Ok X' ->
  columns X' = columns X /\ Forall (fun r => P (values r)) (rows X').
Proof.
  intros HX Hf. unfold iterrows_update.
  destruct (foldM _ (rows X) (rows X)) as [rs |] eqn:E; cbn; [| discriminate].
  intros [= <-]. cbn. split; [reflexivity |].
  eapply foldM_set_row_Forall; eassumption.
Qed.

Lemma preprocess_continents_rectangular
    (countries_get alpha2 : string -> option string) {L}
    (training_set : Frame L Meta) (X_with_cont : Frame L (Meta * string)) :
  rectangular training_set ->
  preprocess_continents countries_get alpha2 training_set = Ok X_with_cont ->
  rectangular X_with_cont.
Proof.
  unfold preprocess_continents, rectangular. intros Hts.
  destruct (mapM _ (rows training_set)) as [rs |] eqn:E; cbn; [| discriminate].
  intros [= <-]. cbn.
  eapply mapM_Forall; [| exact E].
  intros r r' Hr. cbn.
  destruct (snd (get_continent _ _ _)); cbn; [| discriminate].
  intros [= <-]. cbn.
  rewrite Forall_forall in Hts. apply Hts. now apply list_elem_of_In.
Qed.

Lemma preprocess_continents_columns
    (countries_get alpha2 : string -> option string) {L}
    (training_set : Frame L Meta) (X_with_cont : Frame L (Meta * string)) :
  preprocess_continents countries_get alpha2 training_set = Ok X_with_cont ->
  columns X_with_cont = columns training_set.
Proof.
  unfold preprocess_continents.
  destruct (mapM _ (rows training_set)); cbn; [| discriminate].
  now intros [= <-].
Qed.

Lemma impute_row_length tuple_str cont_avgs cols (row : Row (Meta * string)) cells :
  length (values row) = length cols ->
  impute_row tuple_str cont_avgs cols row = Ok cells ->
  length cells = length cols.
Proof.
  unfold impute_row. intros Hlen H. apply mapM_length in H.
  rewrite H, length_zip. lia.
Qed.

(** C1, as the code has it. For a table of one cell per column, the
    selected rows' year block having [n] columns and [0 < years_ahead < n]:
    the Target is the last year column, whatever [years_ahead] is; the
    Features are the first [n - years_ahead] year columns, the ones strictly
    before the cutoff; and the number of feature columns plus [years_ahead]
    is [n]. This holds of [preprocess_simple] on the selected rows and of
    [preprocess_with_continent_interpolation] on the selected rows after
    imputation. *)
Theorem feature_target_split
    (py_int : string -> option Z)
    (countries_get alpha2 : string -> option string)
    (tuple_str : string -> string -> label -> string)
    (cont_avgs : gmap string float)
    (training_set : Frame string Meta) (submit_rows_index : list Z) (years_ahead : Z)
    (n : nat) :
  rectangular training_set ->
  n = length (columns training_set) ->
  0 < years_ahead < Z.of_nat n ->
  let m := Z.to_nat (Z.of_nat n - years_ahead) in
  Z.of_nat m + years_ahead = Z.of_nat n /\
  (forall (sel : Frame string Meta) (cols : list Z),
     loc training_set submit_rows_index = Ok sel ->
     mapM (fun c => of_option ValueError (py_int (first_token c))) (columns training_set)
     = Ok cols ->
     preprocess_simple py_int training_set submit_rows_index years_ahead
     = Ok (first_columns_and_column m (n - 1) cols (rows (drop_meta sel))) /\
     length (take m cols) = m) /\
  (forall (X_with_cont X_submit X_imputed : Frame _ (Meta * string)) (cols : list label),
     preprocess_continents countries_get alpha2 training_set = Ok X_with_cont ->
     loc X_with_cont submit_rows_index = Ok X_submit ->
     mapM (rename_cols py_int) (columns X_submit) = Ok cols ->
     iterrows_update (impute_row tuple_str cont_avgs cols) (mkFrame cols (rows X_submit))
     = Ok X_imputed ->
     preprocess_with_continent_interpolation py_int countries_get alpha2 tuple_str
       cont_avgs training_set submit_rows_index years_ahead
     = Ok (first_columns_and_column m (n - 1) cols (rows (drop_meta X_imputed))) /\
     length (take m cols) = m).
Proof.
  intros Hrect Hn Hya m.
  split; [lia |]. split.
  - intros sel cols Hloc Hcols.
    assert (Hlen : length cols = n).
    { rewrite Hn. eapply mapM_length; eassumption. }
    split; [| rewrite length_take; lia].
    unfold preprocess_simple. rewrite Hloc. bind_step.
    rewrite <- (loc_columns _ _ _ Hloc) in Hcols.
    destruct (rename_years_spec py_int (drop_meta sel) cols Hcols) as [-> _]. bind_step.
    assert (Hr : rectangular (mkFrame cols (rows (drop_meta sel)))).
    { pose proof (drop_meta_rectangular _ (loc_rectangular _ _ _ Hrect Hloc)) as H.
      unfold rectangular, drop_meta in *. cbn [columns rows] in *.
      rewrite Hlen. rewrite (loc_columns _ _ _ Hloc), <- Hn in H. exact H. }
    destruct (split_last_column _ years_ahead Hr) as [HY HX];
      [cbn [columns]; lia |].
    cbn [columns rows] in HY, HX. rewrite Hlen in HY, HX.
    rewrite HY. bind_step. rewrite HX. unfold first_columns_and_column. fold m.
    do 3 f_equal. apply map_ext. now intros [i v []].
  - intros Xc Xs Xi cols Hc Hloc Hcols Himp.
    pose proof (loc_rectangular _ _ _
                  (preprocess_continents_rectangular _ _ _ _ Hrect Hc) Hloc) as Hs.
    assert (Hcs : columns Xs = columns training_set).
    { rewrite (loc_columns _ _ _ Hloc).
      eapply preprocess_continents_columns; eassumption. }
    assert (Hlen : length cols = n).
    { rewrite Hn, <- Hcs. eapply mapM_length; eassumption. }
    split; [| rewrite length_take; lia].
    destruct (fun H1 H2 => iterrows_update_Forall (fun c => length c = n)
                               _ _ _ H1 H2 Himp) as [Hic Hiw].
    { unfold rectangular in Hs. cbn [rows]. now rewrite Hcs, <- Hn in Hs. }
    { cbn [rows]. intros r cells Hr Hcells.
      rewrite <- Hlen. eapply impute_row_length; [| eassumption].
      unfold rectangular in Hs. rewrite Forall_forall in Hs.
      rewrite (Hs r) by now apply list_elem_of_In. now rewrite Hcs, Hlen. }
    cbn [columns] in Hic.
    unfold preprocess_with_continent_interpolation.
    rewrite Hc. bind_step. rewrite Hloc. bind_step. rewrite Hcols. bind_step.
    cbn [columns]. rewrite Himp. bind_step.
    assert (Hr : rectangular (drop_meta Xi)).
    { apply drop_meta_rectangular. unfold rectangular. now rewrite Hic, Hlen. }
    destruct (split_last_column _ years_ahead Hr) as [HY HX];
      [cbn [columns drop_meta]; rewrite Hic; lia |].
    cbn [columns drop_meta] in HY, HX. rewrite Hic, Hlen in HY, HX.
    rewrite HY. bind_step. rewrite HX. unfold first_columns_and_column. fold m.
    cbn [rows]. do 3 f_equal. apply map_ext. now intros [i v []].
Qed.

Lemma feature_target_split_witness :
  preprocess_simple dec_int ex_training_set [10; 12] 2
  = Ok (mkFrame [2005] [mkRow 10 [1%float] tt; mkRow 12 [NaN] tt],
        [(10, 3%float); (12, 9%float)]).
Proof.
  destruct (feature_target_split dec_int (fun _ => None) (fun _ => None)
              ex_tuple_str ex_cont_avgs ex_training_set [10; 12] 2 3)
    as (_ & Hsimple & _).
  - repeat constructor.
  - reflexivity.
  - lia.
  - destruct (Hsimple
                (mkFrame (columns ex_training_set)
                   [mkRow 10 [1%float; NaN; 3%float] (mkMeta "Kosovo" "NY.GDP" "GDP");
                    mkRow 12 [NaN; NaN; 9%float] (mkMeta "Bolivia" "SP.POP" "Population")])
                [2005; 2006; 2007]) as [H _].
    + reflexivity.
    + reflexivity.
    + exact H.
Defined.

(** C1, as the specification words it: the Target would be the year column
    at position [-years_ahead]. With three year columns and
    [years_ahead = 2] that is the 2006 column, but the code returns the 2007
    column. *)
Lemma target_at_years_ahead_refuted :
  ~ (forall (training_set sel : Frame string Meta) (submit_rows_index : list Z)
            (years_ahead : Z) (cols : list Z) (X : Frame Z unit) (Y : Series),
       rectangular training_set ->
       loc training_set submit_rows_index = Ok sel ->
       mapM (fun c => of_option ValueError (dec_int (first_token c)))
            (columns training_set) = Ok cols ->
       0 < years_ahead < Z.of_nat (length cols) ->
       preprocess_simple dec_int training_set submit_rows_index years_ahead = Ok (X, Y) ->
       let n := length cols in
       let cutoff := Z.to_nat (Z.of_nat n - years_ahead) in
       (X, Y) = first_columns_and_column cutoff cutoff cols (rows (drop_meta sel)) /\
       Z.of_nat (length (columns X)) + years_ahead = Z.of_nat n).
Proof.
  intros H.
  specialize (H ex_training_set
                (mkFrame (columns ex_training_set)
                   [mkRow 10 [1%float; NaN; 3%float] (mkMeta "Kosovo" "NY.GDP" "GDP")])
                [10] 2 [2005; 2006; 2007]
                (mkFrame [2005] [mkRow 10 [1%float] tt]) [(10, 3%float)]).
  assert (E : (mkFrame [2005] [mkRow 10 [1%float] tt], [(10, 3%float)])
              = first_columns_and_column 1 1 [2005; 2006; 2007]
                  [mkRow 10 [1%float; NaN; 3%float] tt]).
  { apply H; try reflexivity; try (cbn; lia). repeat constructor. }
  discriminate E.
Qed.

(** ** Interpolator *)

Lemma valid_points_NaN (i : Z) (rest : list float) :
  valid_points i (NaN :: rest) = valid_points (i + 1) rest.
Proof. reflexivity. Qed.

Lemma valid_points_known (i : Z) (v : float) (rest : list float) :
  isnan v = false -> valid_points i (v :: rest) = (i, v) :: valid_points (i + 1) rest.
Proof. intros Hv. cbn [valid_points]. now rewrite Hv. Qed.

Lemma filled_cell_known (limit : nat) (pts : list (Z * float)) (i : Z) (v : float)
    (rest : list float) :
  isnan v = false -> filled_cell limit pts i v rest = v.
Proof. intros Hv. unfold filled_cell. now rewrite Hv. Qed.

Lemma filled_cell_NaN (limit : nat) (pts : list (Z * float)) (i : Z) (rest : list float) :
  filled_cell limit pts i NaN rest
  = if forallb isnan (take limit rest) then NaN else np_interp i pts.
Proof. reflexivity. Qed.

Lemma valid_points_app (i : Z) (l1 l2 : list float) :
  valid_points i (l1 ++ l2)
  = valid_points i l1 ++ valid_points (i + Z.of_nat (length l1)) l2.
Proof.
  revert i. induction l1 as [| v l1 IH]; intros i.
  - cbn. f_equal. lia.
  - cbn [app valid_points length].
    replace (i + Z.of_nat (S (length l1))) with (i + 1 + Z.of_nat (length l1)) by lia.
    destruct (isnan v); now rewrite IH.
Qed.

Lemma valid_points_bounds (i : Z) (l : list float) (x : Z) (y : float) :
  In (x, y) (valid_points i l) -> i <= x < i + Z.of_nat (length l).
Proof.
  revert i. induction l as [| v l IH]; intros i.
  - intros [].
  - cbn [valid_points length]. destruct (isnan v).
    + intros H. apply IH in H. lia.
    + intros [[= <- _] | H]; [lia | apply IH in H; lia].
Qed.

(** Between two neighbouring known points [np.interp] is the line through
    them, whatever known points come before and after. *)
Lemma np_interp_between (x x0 x1 : Z) (y0 y1 : float) (before after : list (Z * float)) :
  (forall p, In p before -> fst p < x0) ->
  x0 < x < x1 ->
  np_interp x (before ++ (x0, y0) :: (x1, y1) :: after)
  = interp_between x0 y0 x1 y1 x.
Proof.
  intros Hb Hx. induction before as [| [p y] before IH].
  - cbn. destruct (Z.leb_spec x x0); [lia |].
    destruct (Z.ltb_spec x x1); [reflexivity | lia].
  - assert (Hp : p < x0) by (apply (Hb (p, y)); now left).
    assert (IH' := IH (fun q Hq => Hb q (or_intror Hq))).
    cbn [app np_interp]. destruct (Z.leb_spec x p); [lia |].
    destruct before as [| [p' y'] before'].
    + cbn [app]. destruct (Z.ltb_spec x x0); [lia |]. exact IH'.
    + cbn [app]. assert (Hp' : p' < x0) by (apply (Hb (p', y')); right; now left).
      destruct (Z.ltb_spec x p'); [lia |]. exact IH'.
Qed.

Lemma fill_backward_lookup (limit : nat) (pts : list (Z * float)) (i : Z)
    (l1 : list float) (v : float) (l2 : list float) :
  fill_backward limit pts i (l1 ++ v :: l2) !! length l1
  = Some (filled_cell limit pts (i + Z.of_nat (length l1)) v l2).
Proof.
  revert i. induction l1 as [| w l1 IH]; intros i.
  - cbn [app length]. replace (i + Z.of_nat 0) with i by lia. reflexivity.
  - cbn [app length fill_backward].
    replace (i + Z.of_nat (S (length l1))) with (i + 1 + Z.of_nat (length l1)) by lia.
    cbn [lookup list_lookup]. apply IH.
Qed.

Lemma fill_backward_length (limit : nat) (pts : list (Z * float)) (i : Z) (l : list float) :
  length (fill_backward limit pts i l) = length l.
Proof.
  revert i. induction l as [| v l IH]; intros i; [reflexivity |].
  cbn [fill_backward length]. now rewrite IH.
Qed.

Lemma interpolate_length (limit : nat) (row : list float) :
  length (interpolate limit row) = length row.
Proof. apply fill_backward_length. Qed.

(** Interpolation keeps the last cell of a row, known or missing. *)
Lemma interpolate_last (limit : nat) (row : list float) :
  py_index (interpolate limit row) (-1) = py_index row (-1).
Proof.
  unfold py_index. rewrite interpolate_length.
  destruct (py_pos (length row) (-1)) as [k |] eqn:Ek; [| reflexivity].
  destruct row as [| v row] using rev_ind; [discriminate |].
  rewrite (py_pos_neg _ 1) in Ek by (rewrite length_app; cbn; lia).
  injection Ek as <-. rewrite length_app. cbn [length].
  replace (length row + 1 - Z.to_nat 1)%nat with (length row) by lia.
  unfold interpolate. rewrite fill_backward_lookup.
  rewrite list_lookup_middle by reflexivity.
  unfold filled_cell. destruct (isnan v) eqn:Hv; [| reflexivity].
  rewrite (isnan_NaN v Hv). now destruct limit.
Qed.


(** The interpolation loop of [preprocess_avg_NANs] replaces the cells of
    every row by their interpolation, when row labels are distinct. *)
Lemma interpolation_loop_rows {L M} (X : Frame L M) :
  List.NoDup (map ix (rows X)) ->
  iterrows_update (fun row => Ok (interpolate 50 (values row))) X
  = Ok (mkFrame (columns X)
          (map (fun r => mkRow (ix r) (interpolate 50 (values r)) (meta r)) (rows X))).
Proof.
  intros Hnd. rewrite iterrows_update_unique by assumption.
  assert (E : forall rs : list (Row M),
             mapM (updated_row (fun row => Ok (interpolate 50 (values row)))) rs
             = Ok (map (fun r => mkRow (ix r) (interpolate 50 (values r)) (meta r)) rs)).
  { induction rs as [| r rs IH]; [reflexivity |].
    cbn [mapM map]. rewrite IH. reflexivity. }
  now rewrite E.
Qed.

(** ** Median / Recent-Value Imputer: what a write touches *)

Lemma agree_but_last_refl c : agree_but_last c c.
Proof. split; auto. Qed.

Lemma agree_but_last_trans c1 c2 c3 :
  agree_but_last c1 c2 -> agree_but_last c2 c3 -> agree_but_last c1 c3.
Proof.
  intros [L1 H1] [L2 H2]. split; [congruence |].
  intros j Hj. rewrite H2 by lia. now apply H1.
Qed.

Lemma py_set_length {A} (l : list A) (i : Z) (v : A) : length (py_set l i v) = length l.
Proof. unfold py_set. destruct (py_pos _ i); [apply length_insert | reflexivity]. Qed.

Lemma py_set_last_agree c v : agree_but_last c (py_set c (-1) v).
Proof.
  split; [apply py_set_length |].
  intros j Hj. unfold py_set.
  rewrite (py_pos_neg _ 1) by lia.
  apply list_lookup_insert_ne. lia.
Qed.

Lemma last_written_refl {L M} (X : Frame L M) : last_written X X.
Proof.
  split; [reflexivity |]. apply Forall_Forall2_diag, Forall_forall.
  intros r _. auto using agree_but_last_refl.
Qed.

Lemma last_written_trans {L M} (X1 X2 X3 : Frame L M) :
  last_written X1 X2 -> last_written X2 X3 -> last_written X1 X3.
Proof.
  intros [C1 R1] [C2 R2]. split; [congruence |].
  eapply Forall2_trans; [| exact R1 | exact R2].
  intros r1 r2 r3 (I1 & M1 & A1) (I2 & M2 & A2).
  repeat split; try congruence. destruct (agree_but_last_trans _ _ _ A1 A2); auto.
  now destruct (agree_but_last_trans _ _ _ A1 A2).
Qed.

(** A relation that every iteration of a loop respects, reflexive and
    transitive, relates the state before the loop to the state after it. *)
Lemma foldM_rel {A S} (R : S -> S -> Prop) (body : S -> A -> result S)
    (l : list A) (s s' : S) :
  (forall s, R s s) ->
  (forall s1 s2 s3, R s1 s2 -> R s2 s3 -> R s1 s3) ->
  (forall s a s', In a l -> body s a = Ok s' -> R s s') ->
  foldM body l s = Ok s' -> R s s'.
Proof.
  intros Hrefl Htrans. revert s. induction l as [| a l IH]; intros s Hstep; cbn.
  - intros [= <-]. apply Hrefl.
  - destruct (body s a) as [s1 |] eqn:E; cbn; [| discriminate].
    intros H. apply (Htrans s s1 s').
    + apply (Hstep s a); [now left | assumption].
    + apply IH; [| assumption]. intros s0 b s0' Hb. apply Hstep. now right.
Qed.

Lemma write_cell_last_written {L M} (X X' : Frame L M) (i : Z) (v : float) :
  write_cell X (-1) i v = Ok X' -> last_written X X'.
Proof.
  unfold write_cell. destruct (py_index (columns X) (-1)); cbn; [| discriminate].
  intros [= <-]. split; [reflexivity |]. cbn [rows].
  induction (rows X) as [| r rs IH]; cbn; constructor; [| exact IH].
  destruct (ix r =? i); cbn; auto using agree_but_last_refl, py_set_last_agree.
Qed.

Lemma scan_recent_last_written {L M} (X X' : Frame L M) (i : Z) (recent : list Z) :
  scan_recent X i recent = Ok X' -> last_written X X'.
Proof.
  induction recent as [| k recent IH]; cbn.
  - intros [= <-]. apply last_written_refl.
  - destruct (read_cell X (- k) i) as [v |]; cbn; [| discriminate].
    destruct (isnan v); cbn; [exact IH | apply write_cell_last_written].
Qed.

Lemma fill_index_last_written {L M} (m : float) (X X' : Frame L M) (i : Z) :
  fill_index m X i = Ok X' -> last_written X X'.
Proof.
  unfold fill_index.
  destruct (write_cell X (-1) i m) as [X1 |] eqn:E; bind_step; [| discriminate].
  intros H. eapply last_written_trans.
  - eapply write_cell_last_written; eassumption.
  - eapply scan_recent_last_written; eassumption.
Qed.

Lemma fill_indicator_last_written {L} (training_set full : Frame L Meta)
    (lct lca : Series) (X X' : Frame Z unit) (ind : string) :
  fill_indicator training_set full lct lca X ind = Ok X' -> last_written X X'.
Proof.
  unfold fill_indicator. apply foldM_rel.
  - apply last_written_refl.
  - apply last_written_trans.
  - intros s a s' _. apply fill_index_last_written.
Qed.

(** C9. The per-indicator loop of [preprocess_avg_NANs] writes the last
    feature column only: the table it leaves has the columns, row labels and
    row count of the feature table it started from, and in every row every
    cell before the last one is the cell that was there. *)
Theorem median_fill_writes_last_column_only
    (py_int : string -> option Z)
    (training_set sel : Frame string Meta) (submit_rows_index : list Z)
    (years_ahead : Z) (cols : list Z) (X : Frame Z unit) (Y : Series) :
  loc training_set submit_rows_index = Ok sel ->
  mapM (fun c => of_option ValueError (py_int (first_token c))) (columns training_set)
  = Ok cols ->
  median_recent_fill py_int training_set submit_rows_index years_ahead = Ok (X, Y) ->
  let features := iloc_cols_to (mkFrame cols (rows (drop_meta sel))) (-1 * years_ahead) in
  columns X = columns features /\
  Forall2 (fun r r' =>
             ix r' = ix r /\
             length (values r') = length (values r) /\
             forall j : nat, (S j < length (values r))%nat ->
                             values r' !! j = values r !! j)
          (rows features) (rows X).
Proof.
  intros Hloc Hcols Hrun features. revert Hrun.
  unfold median_recent_fill. rewrite Hloc. bind_step.
  rewrite <- (loc_columns _ _ _ Hloc) in Hcols.
  destruct (rename_years_spec py_int (drop_meta sel) cols Hcols) as [-> _]. bind_step.
  destruct (iloc_col (mkFrame cols _) (-1)) as [Y0 |]; bind_step; [| discriminate].
  fold features.
  destruct (iloc_col features (-1)) as [lct |]; bind_step; [| discriminate].
  destruct (iloc_col training_set (-5 + 3)) as [lca |]; bind_step; [| discriminate].
  destruct (foldM _ _ features) as [X1 |] eqn:Efold; bind_step; [| discriminate].
  intros [= <- <-].
  assert (Hw : last_written features X1).
  { revert Efold. apply foldM_rel.
    - apply last_written_refl.
    - apply last_written_trans.
    - intros s a s' _. apply fill_indicator_last_written. }
  destruct Hw as [Hc Hr]. split; [exact Hc |].
  eapply Forall2_impl; [exact Hr |].
  intros r r' (Hi & _ & Hl & Hj). auto.
Qed.

Lemma median_fill_writes_last_column_only_witness :
  columns (fst ex_wide_filled) = [1998; 1999; 2000; 2001; 2002; 2003; 2004; 2005; 2006].
Proof.
  destruct (median_fill_writes_last_column_only dec_int ex_wide_training_set
              ex_wide_selected ex_wide_index 1
              [1998; 1999; 2000; 2001; 2002; 2003; 2004; 2005; 2006; 2007]
              (fst ex_wide_filled) (snd ex_wide_filled)) as [H _].
  - reflexivity.
  - reflexivity.
  - vm_compute. reflexivity.
  - exact H.
Defined.

(** ** Columns by position *)

Lemma iloc_col_neg {L M} (X : Frame L M) (k : Z) :
  rectangular X ->
  0 < k <= Z.of_nat (length (columns X)) ->
  iloc_col X (- k)
  = Ok (map (fun r => (ix r, nth (length (columns X) - Z.to_nat k) (values r) NaN))
            (rows X)).
Proof.
  intros Hrect Hk. unfold iloc_col.
  destruct (columns X) as [| c cs] eqn:Ec; [cbn in Hk; lia |].
  rewrite (py_index_neg (c :: cs) c) by assumption. bind_step.
  unfold rectangular in Hrect. rewrite Ec in Hrect.
  induction Hrect as [| r rs Hr _ IH]; [reflexivity |].
  cbn [mapM map]. rewrite (py_index_neg (values r) NaN) by (rewrite Hr; assumption).
  bind_step. rewrite IH. bind_step. now rewrite Hr.
Qed.

Lemma iloc_col_last {L M} (X : Frame L M) :
  rectangular X ->
  (1 <= length (columns X))%nat ->
  iloc_col X (-1)
  = Ok (map (fun r => (ix r, nth (length (columns X) - 1) (values r) NaN)) (rows X)).
Proof. intros Hrect Hn. apply (iloc_col_neg X 1 Hrect). lia. Qed.

Lemma iloc_col_fifth_from_end {L M} (X : Frame L M) :
  rectangular X ->
  (2 <= length (columns X))%nat ->
  iloc_col X (-5 + 3)
  = Ok (map (fun r => (ix r, nth (length (columns X) - 2) (values r) NaN)) (rows X)).
Proof. intros Hrect Hn. apply (iloc_col_neg X 2 Hrect). lia. Qed.

Lemma iloc_col_inv {L M} (X : Frame L M) (k : Z) (s : Series) :
  rectangular X ->
  0 < k ->
  iloc_col X (- k) = Ok s ->
  k <= Z.of_nat (length (columns X)) /\
  s = map (fun r => (ix r, nth (length (columns X) - Z.to_nat k) (values r) NaN)) (rows X).
Proof.
  intros Hrect Hk H.
  destruct (Z_le_gt_dec k (Z.of_nat (length (columns X)))) as [Hle | Hgt].
  - rewrite iloc_col_neg in H by (assumption || lia). injection H as <-. auto.
  - unfold iloc_col, py_index in H. rewrite py_pos_neg_out in H by lia.
    discriminate H.
Qed.

(** C10. For a positive [years_ahead], the [Y] that [preprocess_avg_NANs]
    returns is the raw last year column of the selected rows, label by
    label and missing values included: it is taken before the fill and the
    interpolation, which write the feature table only. It is the very [Y]
    that [preprocess_simple], which imputes nothing, returns. *)
Theorem avg_NANs_target_is_raw_last_column
    (py_int : string -> option Z)
    (training_set sel : Frame string Meta) (submit_rows_index : list Z)
    (years_ahead : Z) (X : Frame Z unit) (Y : Series) :
  rectangular training_set ->
  0 < years_ahead ->
  loc training_set submit_rows_index = Ok sel ->
  preprocess_avg_NANs py_int training_set submit_rows_index years_ahead = Ok (X, Y) ->
  Y = map (fun r => (ix r, nth (length (columns training_set) - 1) (values r) NaN))
          (rows sel) /\
  exists X_simple,
    preprocess_simple py_int training_set submit_rows_index years_ahead
    = Ok (X_simple, Y).
Proof.
  intros Hrect Hya Hloc.
  unfold preprocess_avg_NANs, median_recent_fill, preprocess_simple.
  rewrite Hloc. bind_step.
  destruct (rename_years py_int (drop_meta sel)) as [X0 |] eqn:Eren; bind_step;
    [| discriminate].
  destruct (iloc_col X0 (-1)) as [Y0 |] eqn:EY; bind_step; [| discriminate].
  destruct (iloc_col (iloc_cols_to X0 _) (-1)); bind_step; [| discriminate].
  destruct (iloc_col training_set _); bind_step; [| discriminate].
  destruct (foldM _ _ _) as [X1 |]; bind_step; [| discriminate].
  destruct (iterrows_update _ X1) as [X2 |]; bind_step; [| discriminate].
  intros [= <- <-]. split; [| eexists; reflexivity].
  unfold rename_years in Eren.
  destruct (mapM _ (columns (drop_meta sel))) as [cols |] eqn:Ecols;
    bind_step in Eren; [| discriminate].
  injection Eren as <-.
  assert (Hlen : length cols = length (columns training_set)).
  { rewrite (mapM_length _ _ _ Ecols). cbn. now rewrite (loc_columns _ _ _ Hloc). }
  assert (Hr : rectangular (mkFrame cols (rows (drop_meta sel)))).
  { pose proof (drop_meta_rectangular _ (loc_rectangular _ _ _ Hrect Hloc)) as H.
    unfold rectangular, drop_meta in *. cbn [columns rows] in *.
    now rewrite Hlen, <- (loc_columns _ _ _ Hloc). }
  destruct (iloc_col_inv _ 1 _ Hr ltac:(lia) EY) as [_ ->].
  cbn [columns rows drop_meta]. rewrite map_map, Hlen. reflexivity.
Qed.

Lemma avg_NANs_target_is_raw_last_column_witness :
  snd ex_wide_result = [(10, 3%float); (12, 9%float); (14, NaN)].
Proof.
  destruct (avg_NANs_target_is_raw_last_column dec_int ex_wide_training_set
              ex_wide_selected ex_wide_index 1
              (fst ex_wide_result) (snd ex_wide_result)) as [H _].
  - repeat constructor.
  - lia.
  - reflexivity.
  - vm_compute. reflexivity.
  - exact H.
Defined.

(** ** Median / Recent-Value Imputer: the value written *)

Lemma write_cell_row_of {L M} (X X' : Frame L M) (pos i i' : Z) (v : float) :
  write_cell X pos i v = Ok X' ->
  row_of X' i'
  = if i' =? i
    then option_map (fun r => mkRow (ix r) (py_set (values r) pos v) (meta r)) (row_of X i')
    else row_of X i'.
Proof.
  unfold write_cell, row_of.
  destruct (py_index (columns X) pos); bind_step; [| discriminate].
  intros [= <-]. cbn [rows].
  induction (rows X) as [| r rs IH]; cbn [map find].
  - now destruct (i' =? i).
  - destruct (Z.eqb_spec (ix r) i) as [Ei | Ei]; cbn [ix].
    + destruct (Z.eqb_spec (ix r) i') as [Ei' | Ei'].
      * subst. rewrite Z.eqb_refl. reflexivity.
      * exact IH.
    + destruct (Z.eqb_spec (ix r) i') as [Ei' | Ei']; [| exact IH].
      destruct (Z.eqb_spec i' i); [congruence | reflexivity].
Qed.

Lemma read_cell_row_of {L M} (X : Frame L M) (pos i : Z) (v : float) (r : Row M) :
  read_cell X pos i = Ok v -> row_of X i = Some r -> py_index (values r) pos = Some v.
Proof.
  unfold read_cell, row_of. intros H Hr. rewrite Hr in H.
  destruct (py_index (columns X) pos); bind_step in H; [| discriminate].
  destruct (py_index (values r) pos); bind_step in H; congruence.
Qed.

Lemma read_cell_row {L M} (X : Frame L M) (pos i : Z) (v : float) :
  read_cell X pos i = Ok v -> exists r, row_of X i = Some r.
Proof.
  unfold read_cell, row_of.
  destruct (py_index (columns X) pos); bind_step; [| discriminate].
  destruct (find _ (rows X)) as [r |]; bind_step; [eauto | discriminate].
Qed.

(** The scan on the table is the scan on the cells of the row it reads. *)
Lemma scan_recent_row_of {L M} (X X' : Frame L M) (i : Z) (recent : list Z) (r : Row M) :
  scan_recent X i recent = Ok X' ->
  row_of X i = Some r ->
  exists ov,
    scan_cells (values r) recent = Ok ov /\
    row_of X' i = Some (match ov with Some v => with_last r v | None => r end) /\
    forall i', i' <> i -> row_of X' i' = row_of X i'.
Proof.
  intros H Hr. induction recent as [| k recent IH]; cbn [scan_recent scan_cells] in *.
  - injection H as <-. exists None. auto.
  - destruct (read_cell X (- k) i) as [v |] eqn:Ev; bind_step in H; [| discriminate].
    rewrite (read_cell_row_of _ _ _ _ _ Ev Hr). bind_step.
    destruct (isnan v); cbn [negb] in *; [now apply IH |].
    exists (Some v). split; [reflexivity |]. split.
    + rewrite (write_cell_row_of _ _ _ _ i _ H), Z.eqb_refl, Hr. reflexivity.
    + intros i' Hi'. rewrite (write_cell_row_of _ _ _ _ i' _ H).
      destruct (Z.eqb_spec i' i); [contradiction | reflexivity].
Qed.

Lemma py_index_set_last_other (c : list float) (w : float) (k : Z) :
  2 <= k -> py_index (py_set c (-1) w) (- k) = py_index c (- k).
Proof.
  intros Hk. unfold py_index. rewrite py_set_length.
  destruct (Z_le_gt_dec k (Z.of_nat (length c))) as [Hle | Hgt].
  - rewrite py_pos_neg by lia. unfold py_set. rewrite (py_pos_neg _ 1) by lia.
    apply list_lookup_insert_ne. lia.
  - now rewrite py_pos_neg_out by lia.
Qed.

Lemma scan_cells_set_last (c : list float) (w : float) (recent : list Z) :
  Forall (fun k => 2 <= k) recent ->
  scan_cells (py_set c (-1) w) recent = scan_cells c recent.
Proof.
  induction 1 as [| k recent Hk _ IH]; [reflexivity |].
  cbn [scan_cells]. rewrite py_index_set_last_other by assumption.
  destruct (py_index c (- k)) as [v |]; bind_step; [| reflexivity].
  destruct (isnan v); cbn [negb]; auto.
Qed.

Lemma py_set_last_twice (c : list float) (w v : float) :
  py_set (py_set c (-1) w) (-1) v = py_set c (-1) v.
Proof.
  unfold py_set at 1 3. rewrite py_set_length.
  destruct (py_pos (length c) (-1)) as [k |] eqn:Ek.
  - unfold py_set. rewrite Ek. apply list_insert_insert_eq.
  - unfold py_set. now rewrite Ek.
Qed.

Lemma py_index_set_last (c : list float) (v : float) :
  (0 < length c)%nat -> py_index (py_set c (-1) v) (-1) = Some v.
Proof.
  intros Hc. unfold py_index. rewrite py_set_length.
  unfold py_set. rewrite (py_pos_last (length c)) by lia.
  apply list_lookup_insert_eq. lia.
Qed.

Lemma lookback_ge_2 : Forall (fun k => 2 <= k) lookback.
Proof. unfold lookback. repeat constructor; lia. Qed.

(** One iteration of the loop over the missing rows, seen from the row [i]
    it treats: whether the row still has its original cells [c] or already
    had its last cell written, it ends with the last cell holding the first
    known lookback value of [c], or the median when there is none. *)
Lemma fill_index_row_of {L M} (m : float) (X X' : Frame L M) (i : Z) (r : Row M)
    (c : list float) (ov : option float) :
  fill_index m X i = Ok X' ->
  row_of X i = Some r ->
  (values r = c \/ exists w, values r = py_set c (-1) w) ->
  scan_cells c lookback = Ok ov ->
  row_of X' i = Some (mkRow (ix r) (py_set c (-1) (default m ov)) (meta r)).
Proof.
  unfold fill_index. intros H Hr Hc Hov.
  destruct (write_cell X (-1) i m) as [X1 |] eqn:E1; bind_step in H; [| discriminate].
  pose proof (write_cell_row_of _ _ _ _ i _ E1) as Hr1.
  rewrite Z.eqb_refl, Hr in Hr1. cbn [option_map] in Hr1.
  destruct (scan_recent_row_of _ _ _ _ _ H Hr1) as (ov' & Hov' & Hrow & _).
  cbn [values] in Hov'. rewrite scan_cells_set_last in Hov' by apply lookback_ge_2.
  assert (Hsame : scan_cells (values r) lookback = scan_cells c lookback).
  { destruct Hc as [-> | [w ->]]; [reflexivity |].
    apply scan_cells_set_last, lookback_ge_2. }
  rewrite Hsame, Hov in Hov'. injection Hov' as <-.
  rewrite Hrow. f_equal.
  assert (Hset : forall v, py_set (values r) (-1) v = py_set c (-1) v).
  { intros v. destruct Hc as [-> | [w ->]]; [reflexivity | apply py_set_last_twice]. }
  destruct ov as [v |]; unfold with_last; cbn [ix values meta default].
  - now rewrite py_set_last_twice, Hset.
  - now rewrite Hset.
Qed.

Lemma fill_index_row_of_other {L M} (m : float) (X X' : Frame L M) (i i' : Z) :
  fill_index m X i = Ok X' -> i' <> i -> row_of X' i' = row_of X i'.
Proof.
  unfold fill_index. intros H Hi.
  destruct (write_cell X (-1) i m) as [X1 |] eqn:E1; bind_step in H; [| discriminate].
  pose proof (write_cell_row_of _ _ _ _ i' _ E1) as Hr1.
  destruct (Z.eqb_spec i' i); [contradiction |].
  destruct (row_of X1 i) as [r1 |] eqn:Er1.
  - destruct (scan_recent_row_of _ _ _ _ _ H Er1) as (_ & _ & _ & Hother).
    now rewrite Hother.
  - (* no row carries the label: the scan cannot read a cell *)
    unfold lookback in H. cbn [scan_recent] in H.
    destruct (read_cell X1 (- (2)) i) as [v |] eqn:Ev; bind_step in H; [| discriminate].
    destruct (read_cell_row X1 _ _ _ Ev) as [r Hr]. congruence.
Qed.

(** A loop that passes over the element [a]: if every other iteration keeps
    [P] and keeps [Q], and the iterations at [a] lead from [P] or [Q] to [Q],
    then the loop leads from [P] to [Q]. *)
Lemma foldM_reaches {A S} `{EqDecision A} (body : S -> A -> result S)
    (P Q : S -> Prop) (a : A) (l : list A) (s s' : S) :
  (forall s b s', In b l -> b <> a -> body s b = Ok s' -> (P s -> P s') /\ (Q s -> Q s')) ->
  (forall s s', body s a = Ok s' -> P s \/ Q s -> Q s') ->
  foldM body l s = Ok s' ->
  (P s \/ Q s -> P s' \/ Q s') /\ ((In a l /\ (P s \/ Q s)) \/ Q s -> Q s').
Proof.
  intros Hother Hat. revert s.
  induction l as [| b l IH]; intros s; cbn [foldM].
  - intros [= <-]. split; [auto |]. intros [[[] _] | HQ]. exact HQ.
  - destruct (body s b) as [s1 |] eqn:Eb; bind_step; [| discriminate].
    intros Hl.
    destruct (IH (fun s0 b0 s0' Hb0 => Hother s0 b0 s0' (or_intror Hb0)) s1 Hl)
      as [IH1 IH2].
    destruct (decide (b = a)) as [-> | Hne].
    + pose proof (Hat s s1 Eb) as Hstep. split.
      * intros HPQ. apply IH1. right. auto.
      * intros H. apply IH2. right. apply Hstep. tauto.
    + destruct (Hother s b s1 (or_introl eq_refl) Hne Eb) as [HP HQ]. split.
      * intros [H | H]; apply IH1; auto.
      * intros [[[-> | Hin] HPQ] | H]; [contradiction | |].
        -- apply IH2. left. split; [assumption |]. destruct HPQ; auto.
        -- apply IH2. right. auto.
Qed.

Lemma insert_unique_In (x s : string) (l : list string) :
  In x (insert_unique s l) <-> x = s \/ In x l.
Proof.
  induction l as [| y l IH]; cbn.
  - intuition.
  - destruct (String.compare s y) eqn:E; cbn.
    + apply String.compare_eq_iff in E. subst. intuition.
    + intuition.
    + rewrite IH. intuition.
Qed.

(** [np.unique] keeps exactly the values that occur. *)
Lemma np_unique_In (x : string) (l : list string) : In x (np_unique l) <-> In x l.
Proof.
  unfold np_unique. induction l as [| s l IH]; cbn; [reflexivity |].
  rewrite insert_unique_In, IH. intuition.
Qed.

(** [np_sort] is a sort: it permutes its input into ascending order, so
    [np_median] reads the middle of the ordered values. *)
Lemma insert_sorted_perm (x : float) (l : list float) :
  Permutation (insert_sorted x l) (x :: l).
Proof.
  induction l as [| y l IH]; cbn; [reflexivity |].
  destruct (x <=? y)%float; [reflexivity |].
  rewrite IH. apply perm_swap.
Qed.

Lemma np_sort_perm (l : list float) : Permutation (np_sort l) l.
Proof.
  unfold np_sort. induction l as [| x l IH]; cbn; [reflexivity |].
  now rewrite insert_sorted_perm, IH.
Qed.

Lemma insert_sorted_sorted (x : float) (l : list float) :
  isnan x = false ->
  Forall (fun v => isnan v = false) l ->
  Sorted float_le l -> Sorted float_le (insert_sorted x l).
Proof.
  intros Hx Hl Hs. induction l as [| y l IH]; cbn [insert_sorted].
  - repeat constructor.
  - inversion Hl as [| ? ? Hy Hl']; subst. inversion Hs as [| ? ? Hs' Hhd]; subst.
    destruct (x <=? y)%float eqn:E.
    + constructor; [exact Hs | constructor; exact E].
    + constructor; [now apply IH |].
      assert (Hyx : float_le y x) by now apply float_leb_total.
      destruct l as [| z l]; cbn [insert_sorted]; [now constructor |].
      destruct (x <=? z)%float; constructor; try assumption.
      now inversion Hhd.
Qed.

Lemma np_sort_sorted (l : list float) :
  Forall (fun v => isnan v = false) l -> Sorted float_le (np_sort l).
Proof.
  unfold np_sort. induction 1 as [| x l Hx Hl IH]; cbn [foldr]; [constructor |].
  apply insert_sorted_sorted; [exact Hx | | exact IH].
  eapply Permutation_Forall; [symmetry; apply np_sort_perm | exact Hl].
Qed.

Lemma dropna_known (l : list float) : Forall (fun v => isnan v = false) (dropna l).
Proof.
  induction l as [| v l IH]; cbn [dropna]; [constructor |].
  destruct (isnan v) eqn:Hv; [exact IH | now constructor].
Qed.

Lemma loc_mask_map {A} (f : A -> Z * float) (pred : A -> bool) (l : list A) :
  loc_mask (map f l) (map pred l) = map f (List.filter pred l).
Proof.
  unfold loc_mask. induction l as [| a l IH]; [reflexivity |].
  cbn. destruct (pred a); cbn; now rewrite IH.
Qed.

Lemma filter_map_swap {A B} (p : B -> bool) (f : A -> B) (l : list A) :
  List.filter p (map f l) = map f (List.filter (fun a => p (f a)) l).
Proof.
  induction l as [| a l IH]; [reflexivity |].
  cbn. destruct (p (f a)); cbn; now rewrite IH.
Qed.

(** With distinct labels, a row of the table is the row its label denotes. *)
Lemma find_unique_label {M} (rs : list (Row M)) (r : Row M) :
  List.NoDup (map ix rs) -> In r rs -> find (fun r' => ix r' =? ix r) rs = Some r.
Proof.
  induction rs as [| r0 rs IH]; cbn; [intros _ [] |].
  intros Hnd [-> | Hin].
  - now rewrite Z.eqb_refl.
  - apply NoDup_cons_iff in Hnd as [Hfresh Hnd].
    destruct (Z.eqb_spec (ix r0) (ix r)) as [E | E]; [| now apply IH].
    exfalso. apply Hfresh. rewrite E. now apply in_map.
Qed.

Lemma unique_label_eq {M} (rs : list (Row M)) (r r' : Row M) :
  List.NoDup (map ix rs) -> In r rs -> In r' rs -> ix r = ix r' -> r = r'.
Proof.
  intros Hnd Hr Hr' E.
  pose proof (find_unique_label rs r Hnd Hr) as H1.
  pose proof (find_unique_label rs r' Hnd Hr') as H2.
  rewrite E in H1. congruence.
Qed.

Lemma mapM_In {A B} (f : A -> result B) (l : list A) (l' : list B) (a : A) :
  mapM f l = Ok l' -> In a l -> exists b, f a = Ok b /\ In b l'.
Proof.
  intros H Ha. apply list_elem_of_In, list_elem_of_lookup in Ha as [k Hk].
  destruct (mapM_lookup _ _ _ _ _ H Hk) as (b & Hb & Hkb).
  exists b. split; [assumption |].
  apply list_elem_of_In. eapply list_elem_of_lookup_2. eassumption.
Qed.

Lemma fill_indicator_unfold {L} (training_set full : Frame L Meta)
    (g : Row Meta -> float) (lca : Series) (X : Frame Z unit) (ind : string) :
  fill_indicator training_set full (map (fun r => (ix r, g r)) (rows full)) lca X ind
  = foldM (fill_index (median_of_others training_set lca ind)) (NAN_labels full g ind) X.
Proof.
  unfold fill_indicator, median_of_others, NAN_labels.
  now rewrite loc_mask_map, filter_map_swap, map_map.
Qed.

Lemma NAN_labels_In {L} (full : Frame L Meta) (g : Row Meta -> float) (ind : string)
    (i : Z) :
  In i (NAN_labels full g ind) <->
  exists r, In r (rows full) /\ series_name (meta r) = ind /\ g r = NaN /\ ix r = i.
Proof.
  unfold NAN_labels. rewrite in_map_iff. split.
  - intros (r & Hi & Hr). apply filter_In in Hr as [Hr Hg].
    apply filter_In in Hr as [Hr Hn]. apply String.eqb_eq in Hn.
    exists r. repeat split; try assumption. now apply isnan_NaN.
  - intros (r & Hr & Hn & Hg & Hi). exists r. split; [assumption |].
    apply filter_In. split; [| now rewrite Hg].
    apply filter_In. split; [assumption | now apply String.eqb_eq].
Qed.

(** The per-indicator loop seen from one selected row [r] whose last feature
    cell is missing: with distinct row labels, the loop leaves in the row's
    last cell the first known lookback value of the row's feature cells, or
    the median of the row's indicator when the lookback holds none. *)
Lemma median_phase_row {L} (training_set full : Frame L Meta) (X0 X' : Frame Z unit)
    (g : Row Meta -> float) (lca : Series) (r : Row Meta) (x : Row unit)
    (ov : option float) :
  List.NoDup (map ix (rows full)) ->
  In r (rows full) ->
  g r = NaN ->
  row_of X0 (ix r) = Some x ->
  scan_cells (values x) lookback = Ok ov ->
  foldM (fill_indicator training_set full (map (fun r => (ix r, g r)) (rows full)) lca)
        (np_unique (map (fun r => series_name (meta r)) (rows full))) X0 = Ok X' ->
  row_of X' (ix r)
  = Some (mkRow (ix x)
            (py_set (values x) (-1)
               (default (median_of_others training_set lca (series_name (meta r))) ov))
            (meta x)).
Proof.
  intros Hnd Hr Hg Hx Hov Hfold.
  set (m := median_of_others training_set lca (series_name (meta r))).
  set (target := mkRow (ix x) (py_set (values x) (-1) (default m ov)) (meta x)).
  set (P := fun X : Frame Z unit => row_of X (ix r) = Some x).
  set (Q := fun X : Frame Z unit => row_of X (ix r) = Some target).
  assert (Hstep : forall X1 X2 m1,
             fill_index m1 X1 (ix r) = Ok X2 -> m1 = m -> P X1 \/ Q X1 -> Q X2).
  { intros X1 X2 m1 H -> [HP | HQ]; unfold P, Q in *.
    - rewrite (fill_index_row_of _ _ _ _ _ (values x) ov H HP); auto.
    - rewrite (fill_index_row_of _ _ _ _ _ (values x) ov H HQ); [reflexivity | | assumption].
      right. eexists. reflexivity. }
  assert (Hkeep : forall X1 X2 m1 i,
             fill_index m1 X1 i = Ok X2 -> i <> ix r ->
             (P X1 -> P X2) /\ (Q X1 -> Q X2)).
  { intros X1 X2 m1 i H Hi. unfold P, Q.
    rewrite (fill_index_row_of_other _ _ _ _ (ix r) H) by congruence. auto. }
  eapply (foldM_reaches _ P Q (series_name (meta r))); [| | exact Hfold |].
  - (* another indicator: none of its labels is the label of [r] *)
    intros X1 ind X2 _ Hind. rewrite fill_indicator_unfold.
    intros H. unfold P, Q.
    enough (E : row_of X2 (ix r) = row_of X1 (ix r)) by (rewrite E; auto).
    revert H.
    apply (foldM_rel (fun s s' : Frame Z unit => row_of s' (ix r) = row_of s (ix r)));
      [reflexivity | congruence |].
    intros X3 i X4 Hi H. apply (fill_index_row_of_other _ _ _ _ (ix r) H).
    apply NAN_labels_In in Hi as (r' & Hr' & Hn & _ & Hi).
    intros E. apply Hind. rewrite <- Hn.
    rewrite (unique_label_eq (rows full) r' r); congruence || assumption.
  - (* the indicator of [r]: its labels include the label of [r] *)
    intros X1 X2. rewrite fill_indicator_unfold. fold m. intros H HPQ.
    eapply (foldM_reaches _ P Q (ix r)); [| | exact H |].
    + intros X3 i X4 _ Hi H'. eapply Hkeep; eassumption.
    + intros X3 X4 H'. now apply (Hstep X3 X4 m).
    + left. split; [| exact HPQ].
      apply NAN_labels_In. exists r. auto.
  - left. split.
    + apply np_unique_In, in_map_iff. exists r. auto.
    + left. exact Hx.
Qed.

Lemma median_of_others_spec {L} (training_set : Frame L Meta) (lca : Series)
    (ind : string) :
  rectangular training_set ->
  iloc_col training_set (-5 + 3) = Ok lca ->
  median_of_others training_set lca ind = indicator_median training_set ind.
Proof.
  intros Hrect Hlca.
  destruct (iloc_col_inv training_set 2 lca Hrect ltac:(lia) Hlca) as [_ ->].
  unfold median_of_others, indicator_median.
  now rewrite loc_mask_map, map_map.
Qed.

Lemma iloc_cols_to_rectangular {L M} (X : Frame L M) (stop : Z) :
  rectangular X -> rectangular (iloc_cols_to X stop).
Proof.
  unfold rectangular, iloc_cols_to. cbn [rows columns]. intros H.
  apply Forall_forall. intros r Hr.
  apply list_elem_of_In, in_map_iff in Hr as (r0 & <- & Hr0). cbn [values].
  rewrite Forall_forall in H. specialize (H r0 (proj2 (list_elem_of_In _ _) Hr0)).
  unfold py_slice_to. rewrite !length_take, H. reflexivity.
Qed.

Lemma last_written_labels {L M} (X X' : Frame L M) :
  last_written X X' -> map ix (rows X') = map ix (rows X).
Proof.
  intros [_ H]. induction H as [| r r' rs rs' (Hi & _) _ IH]; [reflexivity |].
  cbn. now rewrite Hi, IH.
Qed.

Lemma py_index_Some_length {A} (l : list A) (i : Z) (v : A) :
  py_index l i = Some v -> (0 < length l)%nat.
Proof.
  unfold py_index. destruct (py_pos (length l) i) as [k |]; [| discriminate].
  intros H. apply lookup_lt_Some in H. lia.
Qed.

(** The last feature cell that [preprocess_avg_NANs] returns for a selected
    row whose last feature cell was missing. *)
Lemma avg_NANs_last_cell
    (py_int : string -> option Z)
    (training_set sel : Frame string Meta) (submit_rows_index : list Z)
    (years_ahead : Z) (X : Frame Z unit) (Y : Series) (r : Row Meta)
    (ov : option float) :
  rectangular training_set ->
  List.NoDup (map ix (rows sel)) ->
  loc training_set submit_rows_index = Ok sel ->
  preprocess_avg_NANs py_int training_set submit_rows_index years_ahead = Ok (X, Y) ->
  In r (rows sel) ->
  py_index (py_slice_to (values r) (-1 * years_ahead)) (-1) = Some NaN ->
  scan_cells (py_slice_to (values r) (-1 * years_ahead)) lookback = Ok ov ->
  exists r',
    In r' (rows X) /\ ix r' = ix r /\
    py_index (values r') (-1)
    = Some (default (indicator_median training_set (series_name (meta r))) ov).
Proof.
  intros Hrect Hnd Hloc Hrun Hr Hlast Hov.
  unfold preprocess_avg_NANs in Hrun.
  destruct (median_recent_fill _ _ _ _) as [[X1 Y1] |] eqn:Em; bind_step in Hrun;
    [| discriminate].
  destruct (iterrows_update _ X1) as [X2 |] eqn:Ei; bind_step in Hrun; [| discriminate].
  injection Hrun as -> ->.
  revert Em. unfold median_recent_fill. rewrite Hloc. bind_step.
  destruct (rename_years py_int (drop_meta sel)) as [Xr |] eqn:Eren; bind_step;
    [| discriminate].
  unfold rename_years in Eren.
  destruct (mapM _ (columns (drop_meta sel))) as [cols |] eqn:Ecols;
    bind_step in Eren; [| discriminate].
  injection Eren as <-.
  destruct (iloc_col (mkFrame cols _) (-1)) as [Y0 |]; bind_step; [| discriminate].
  set (features := iloc_cols_to _ (-1 * years_ahead)).
  destruct (iloc_col features (-1)) as [lct |] eqn:Elct; bind_step; [| discriminate].
  destruct (iloc_col training_set (-5 + 3)) as [lca |] eqn:Elca; bind_step;
    [| discriminate].
  destruct (foldM _ _ features) as [X1' |] eqn:Efold; bind_step; [| discriminate].
  intros [= -> ->].
  (* the feature table *)
  assert (Hrf : rectangular features).
  { apply iloc_cols_to_rectangular.
    pose proof (drop_meta_rectangular _ (loc_rectangular _ _ _ Hrect Hloc)) as H.
    unfold rectangular, drop_meta in *. cbn [columns rows] in *.
    now rewrite (mapM_length _ _ _ Ecols). }
  set (h := fun r : Row Meta =>
              mkRow (ix r) (py_slice_to (values r) (-1 * years_ahead)) tt).
  assert (Hrows : rows features = map h (rows sel)).
  { unfold features, iloc_cols_to. cbn [rows]. now rewrite map_map. }
  assert (Hlabels : map ix (rows features) = map ix (rows sel)).
  { rewrite Hrows, map_map. reflexivity. }
  set (w := length (columns features)).
  set (g := fun r : Row Meta => nth (w - 1) (values (h r)) NaN).
  assert (Hlct : lct = map (fun r => (ix r, g r)) (rows sel)).
  { destruct (iloc_col_inv features 1 lct Hrf ltac:(lia) Elct) as [_ ->].
    rewrite Hrows, map_map. reflexivity. }
  assert (Hin : In (h r) (rows features)) by (rewrite Hrows; now apply in_map).
  assert (Hw : length (values (h r)) = w).
  { unfold rectangular in Hrf. rewrite Forall_forall in Hrf.
    apply Hrf. now apply list_elem_of_In. }
  assert (Hg : g r = NaN).
  { pose proof (py_index_Some_length _ _ _ Hlast) as Hpos.
    rewrite (py_index_last _ NaN Hpos) in Hlast. injection Hlast as Hlast.
    unfold g. rewrite <- Hw. exact Hlast. }
  assert (Hx : row_of features (ix r) = Some (h r)).
  { apply (find_unique_label (rows features) (h r)); [now rewrite Hlabels | exact Hin]. }
  subst lct.
  pose proof (median_phase_row training_set sel features X1 g lca r (h r) ov
                Hnd Hr Hg Hx Hov Efold) as Hrow.
  rewrite (median_of_others_spec _ _ _ Hrect Elca) in Hrow.
  (* the interpolation loop *)
  assert (Hw1 : last_written features X1).
  { revert Efold. apply foldM_rel.
    - apply last_written_refl.
    - apply last_written_trans.
    - intros s a s' _. apply fill_indicator_last_written. }
  rewrite iterrows_update_unique in Ei
    by (rewrite (last_written_labels _ _ Hw1), Hlabels; exact Hnd).
  destruct (mapM _ (rows X1)) as [rs |] eqn:Ers; bind_step in Ei; [| discriminate].
  injection Ei as <-. cbn [rows].
  apply find_some in Hrow as [Hin1 _].
  destruct (mapM_In _ _ _ _ Ers Hin1) as (r' & Hr' & Hin').
  unfold updated_row in Hr'. bind_step in Hr'. injection Hr' as <-.
  eexists. split; [exact Hin' |]. split; [reflexivity |].
  cbn [values ix h]. rewrite interpolate_last.
  apply py_index_set_last. eapply py_index_Some_length. exact Hlast.
Qed.

Lemma scan_cells_first (c : list float) (l1 l2 : list Z) (k : Z) (v : float) :
  (forall k', In k' l1 -> py_index c (- k') = Some NaN) ->
  py_index c (- k) = Some v ->
  isnan v = false ->
  scan_cells c (l1 ++ k :: l2) = Ok (Some v).
Proof.
  intros Hl1 Hk Hv. induction l1 as [| k' l1 IH]; cbn [app scan_cells].
  - rewrite Hk. bind_step. now rewrite Hv.
  - rewrite (Hl1 k') by now left. bind_step.
    change (isnan NaN) with true. cbn [negb].
    apply IH. intros k'' Hk''. apply Hl1. now right.
Qed.

Lemma lookback_split (k : Z) :
  2 <= k <= 9 ->
  exists l1 l2, lookback = l1 ++ k :: l2 /\ forall k', In k' l1 -> 2 <= k' < k.
Proof.
  intros Hk.
  assert (H : k = 2 \/ k = 3 \/ k = 4 \/ k = 5 \/ k = 6 \/ k = 7 \/ k = 8 \/ k = 9) by lia.
  unfold lookback.
  destruct H as [-> | [-> | [-> | [-> | [-> | [-> | [-> | ->]]]]]]].
  - exists [], [3; 4; 5; 6; 7; 8; 9]. split; [reflexivity | intros k' []].
  - exists [2], [4; 5; 6; 7; 8; 9]. split; [reflexivity | cbn; intros; lia].
  - exists [2; 3], [5; 6; 7; 8; 9]. split; [reflexivity | cbn; intros; lia].
  - exists [2; 3; 4], [6; 7; 8; 9]. split; [reflexivity | cbn; intros; lia].
  - exists [2; 3; 4; 5], [7; 8; 9]. split; [reflexivity | cbn; intros; lia].
  - exists [2; 3; 4; 5; 6], [8; 9]. split; [reflexivity | cbn; intros; lia].
  - exists [2; 3; 4; 5; 6; 7], [9]. split; [reflexivity | cbn; intros; lia].
  - exists [2; 3; 4; 5; 6; 7; 8], []. split; [reflexivity | cbn; intros; lia].
Qed.

(** ** The median / recent-value path returns on wide enough tables *)

Lemma foldM_total {A S} (Inv : S -> Prop) (body : S -> A -> result S)
    (l : list A) (s : S) :
  (forall s a, In a l -> Inv s -> exists s', body s a = Ok s' /\ Inv s') ->
  Inv s -> exists s', foldM body l s = Ok s' /\ Inv s'.
Proof.
  revert s. induction l as [| a l IH]; intros s Hbody Hs; cbn [foldM].
  - eauto.
  - destruct (Hbody s a (or_introl eq_refl) Hs) as (s1 & -> & Hs1). bind_step.
    apply IH; [| assumption]. intros s0 b Hb. apply Hbody. now right.
Qed.

Lemma wide_frame_last_written {L M} (w : nat) (labels : list Z) (X X' : Frame L M) :
  wide_frame w labels X -> last_written X X' -> wide_frame w labels X'.
Proof.
  intros (Hc & Hr & Hl) Hw. pose proof (last_written_labels _ _ Hw) as Hl'.
  destruct Hw as [Hc' Hrows]. repeat split; try congruence.
  clear Hl Hl'. induction Hrows as [| r r' rs rs' (_ & _ & Hlen & _) _ IH];
    [constructor |].
  inversion Hr; subst. constructor; [congruence | auto].
Qed.

Lemma find_label_some {M} (rs : list (Row M)) (i : Z) :
  In i (map ix rs) -> exists r, find (fun r => ix r =? i) rs = Some r.
Proof.
  induction rs as [| r rs IH]; cbn; [intros [] |].
  destruct (Z.eqb_spec (ix r) i); [eauto | ].
  intros [E | H]; [contradiction | auto].
Qed.

Lemma read_cell_ok {L M} (w : nat) (labels : list Z) (X : Frame L M) (i k : Z) :
  wide_frame w labels X -> In i labels -> 0 < k <= Z.of_nat w ->
  exists v, read_cell X (- k) i = Ok v.
Proof.
  intros (Hc & Hr & Hl) Hi Hk. unfold read_cell.
  destruct (columns X) as [| c cs] eqn:Ec; [cbn in Hc; lia |].
  rewrite (py_index_neg (c :: cs) c) by lia. bind_step.
  rewrite <- Hl in Hi. destruct (find_label_some _ _ Hi) as [r Hfind].
  rewrite Hfind. bind_step.
  apply find_some in Hfind as [Hin _].
  rewrite Forall_forall in Hr. specialize (Hr r (proj2 (list_elem_of_In _ _) Hin)).
  rewrite (py_index_neg (values r) NaN) by lia. bind_step. eauto.
Qed.

Lemma write_cell_last_ok {L M} (w : nat) (labels : list Z) (X : Frame L M) (i : Z)
    (v : float) :
  wide_frame w labels X -> (0 < w)%nat ->
  exists X', write_cell X (-1) i v = Ok X' /\ wide_frame w labels X'.
Proof.
  intros HX Hw. destruct HX as (Hc & Hr & Hl).
  destruct (write_cell X (-1) i v) as [X' |] eqn:E.
  - exists X'. split; [reflexivity |].
    eapply wide_frame_last_written; [| eapply write_cell_last_written; eassumption].
    repeat split; assumption.
  - exfalso. unfold write_cell in E.
    destruct (columns X) as [| c cs] eqn:Ec; [cbn in Hc; lia |].
    rewrite (py_index_last (c :: cs) c) in E by (cbn; lia). discriminate E.
Qed.

Lemma scan_recent_ok {L M} (w : nat) (labels : list Z) (X : Frame L M) (i : Z)
    (recent : list Z) :
  wide_frame w labels X -> In i labels ->
  Forall (fun k => 0 < k <= Z.of_nat w) recent ->
  exists X', scan_recent X i recent = Ok X' /\ wide_frame w labels X'.
Proof.
  intros HX Hi Hrecent. induction Hrecent as [| k recent Hk _ IH]; cbn [scan_recent].
  - eauto.
  - destruct (read_cell_ok w labels X i k HX Hi Hk) as [v ->]. bind_step.
    destruct (isnan v); cbn [negb]; [exact IH |].
    apply (write_cell_last_ok w labels); [assumption | lia].
Qed.

Lemma fill_index_ok {L M} (w : nat) (labels : list Z) (m : float) (X : Frame L M)
    (i : Z) :
  wide_frame w labels X -> In i labels -> (9 <= w)%nat ->
  exists X', fill_index m X i = Ok X' /\ wide_frame w labels X'.
Proof.
  intros HX Hi Hw. unfold fill_index.
  destruct (write_cell_last_ok w labels X i m HX ltac:(lia)) as (X1 & -> & HX1).
  bind_step. apply (scan_recent_ok w labels); [assumption | assumption |].
  unfold lookback. repeat constructor; lia.
Qed.

Lemma loc_mask_incl (s : Series) (mask : list bool) (p : Z * float) :
  In p (loc_mask s mask) -> In p s.
Proof.
  unfold loc_mask. revert mask. induction s as [| x s IH]; intros [| b mask]; cbn;
    try tauto.
  destruct b; cbn; [intros [-> | H]; eauto | eauto].
Qed.

Lemma fill_indicator_ok {L} (w : nat) (labels : list Z)
    (training_set full : Frame L Meta) (lct lca : Series) (X : Frame Z unit)
    (ind : string) :
  wide_frame w labels X -> (9 <= w)%nat ->
  (forall p, In p lct -> In (fst p) labels) ->
  exists X', fill_indicator training_set full lct lca X ind = Ok X' /\
             wide_frame w labels X'.
Proof.
  intros HX Hw Hlct. unfold fill_indicator.
  apply foldM_total; [| assumption].
  intros s i Hi Hs. apply (fill_index_ok w labels); [assumption | | assumption].
  apply in_map_iff in Hi as (p & <- & Hp). apply filter_In in Hp as [Hp _].
  apply Hlct. eapply loc_mask_incl. eassumption.
Qed.

(** On a table of one cell per column whose year labels parse and whose
    requested rows exist, with at least nine feature columns,
    [preprocess_avg_NANs] raises nothing. *)
Lemma preprocess_avg_NANs_returns
    (py_int : string -> option Z)
    (training_set sel : Frame string Meta) (submit_rows_index : list Z)
    (years_ahead : Z) (cols : list Z) :
  rectangular training_set ->
  loc training_set submit_rows_index = Ok sel ->
  mapM (fun c => of_option ValueError (py_int (first_token c))) (columns training_set)
  = Ok cols ->
  0 < years_ahead ->
  9 + years_ahead <= Z.of_nat (length (columns training_set)) ->
  exists X Y,
    preprocess_avg_NANs py_int training_set submit_rows_index years_ahead = Ok (X, Y).
Proof.
  intros Hrect Hloc Hcols Hya Hwide.
  pose proof (mapM_length _ _ _ Hcols) as Hlen.
  unfold preprocess_avg_NANs, median_recent_fill. rewrite Hloc. bind_step.
  rewrite <- (loc_columns _ _ _ Hloc) in Hcols.
  destruct (rename_years_spec py_int (drop_meta sel) cols Hcols) as [-> _]. bind_step.
  assert (Hr : rectangular (mkFrame cols (rows (drop_meta sel)))).
  { pose proof (drop_meta_rectangular _ (loc_rectangular _ _ _ Hrect Hloc)) as H.
    unfold rectangular, drop_meta in *. cbn [columns rows] in *.
    now rewrite Hlen, <- (loc_columns _ _ _ Hloc). }
  rewrite (iloc_col_last _ Hr) by (cbn [columns]; lia). bind_step.
  set (features := iloc_cols_to _ (-1 * years_ahead)).
  pose proof (iloc_cols_to_rectangular _ (-1 * years_ahead) Hr) as Hrf.
  fold features in Hrf.
  set (w := Z.to_nat (Z.of_nat (length (columns training_set)) - years_ahead)).
  assert (Hwc : length (columns features) = w).
  { unfold features, iloc_cols_to. cbn [columns].
    replace (-1 * years_ahead) with (- years_ahead) by lia.
    rewrite py_slice_to_neg, length_take by lia. lia. }
  rewrite (iloc_col_last features Hrf) by lia. bind_step.
  rewrite (iloc_col_fifth_from_end training_set Hrect) by lia. bind_step.
  assert (HX : wide_frame w (map ix (rows features)) features).
  { repeat split; [assumption |]. unfold rectangular in Hrf. now rewrite Hwc in Hrf. }
  match goal with
  | |- context [foldM ?body ?l features] =>
      destruct (foldM_total (wide_frame w (map ix (rows features))) body l features)
        as (X1 & -> & HX1); [| exact HX |]
  end.
  { intros s ind _ Hs. apply fill_indicator_ok; [assumption | lia |].
    intros p Hp. apply in_map_iff in Hp as (r & <- & Hin). cbn [fst].
    now apply in_map. }
  bind_step. unfold iterrows_update.
  match goal with
  | |- context [foldM ?body (rows X1) (rows X1)] =>
      destruct (foldM_total (fun _ => True) body (rows X1) (rows X1))
        as (rs & -> & _); [| exact I |]
  end.
  { intros s r _ _. bind_step. eauto. }
  bind_step. eauto.
Qed.

Lemma py_index_neg_length {A} (l : list A) (k : Z) (v : A) :
  0 < k -> py_index l (- k) = Some v -> k <= Z.of_nat (length l).
Proof.
  intros Hk H. destruct (Z_le_gt_dec k (Z.of_nat (length l))); [assumption |].
  unfold py_index in H. rewrite py_pos_neg_out in H by lia. discriminate H.
Qed.

(** The feature cells of a selected row: as many as the year columns less
    [years_ahead]. *)
Lemma selected_features_length (training_set sel : Frame string Meta)
    (submit_rows_index : list Z) (years_ahead : Z) (r : Row Meta) :
  rectangular training_set ->
  loc training_set submit_rows_index = Ok sel ->
  In r (rows sel) ->
  0 < years_ahead ->
  length (py_slice_to (values r) (-1 * years_ahead))
  = Z.to_nat (Z.of_nat (length (columns training_set)) - years_ahead).
Proof.
  intros Hrect Hloc Hr Hya.
  destruct (loc_rows _ _ _ _ Hloc Hr) as [Hin _].
  unfold rectangular in Hrect. rewrite Forall_forall in Hrect.
  specialize (Hrect r (proj2 (list_elem_of_In _ _) Hin)).
  replace (-1 * years_ahead) with (- years_ahead) by lia.
  rewrite py_slice_to_neg, length_take by lia. lia.
Qed.

(** C2. Take a table of one cell per column whose selected rows carry
    distinct labels, and a selected row whose most recent feature cell is
    missing and whose [k]-th most recent feature cell, [2 <= k <= 9], is the
    first known one scanning from the 2nd most recent. In whatever
    [preprocess_avg_NANs] returns, the row of that label has that known value
    in its most recent feature cell, whatever the median of the indicator
    is; and [preprocess_avg_NANs] does return when the year labels parse,
    [years_ahead] is positive and there are at least nine feature columns. *)
Theorem recent_value_takes_precedence
    (py_int : string -> option Z)
    (training_set sel : Frame string Meta) (submit_rows_index : list Z)
    (years_ahead : Z) (r : Row Meta) (k : Z) (v : float) :
  rectangular training_set ->
  List.NoDup (map ix (rows sel)) ->
  loc training_set submit_rows_index = Ok sel ->
  In r (rows sel) ->
  let features := py_slice_to (values r) (-1 * years_ahead) in
  py_index features (-1) = Some NaN ->
  2 <= k <= 9 ->
  py_index features (- k) = Some v ->
  isnan v = false ->
  (forall k', 2 <= k' < k -> py_index features (- k') = Some NaN) ->
  (forall (X : Frame Z unit) (Y : Series),
     preprocess_avg_NANs py_int training_set submit_rows_index years_ahead = Ok (X, Y) ->
     exists r',
       In r' (rows X) /\ ix r' = ix r /\ py_index (values r') (-1) = Some v) /\
  (forall cols : list Z,
     mapM (fun c => of_option ValueError (py_int (first_token c))) (columns training_set)
     = Ok cols ->
     0 < years_ahead ->
     9 + years_ahead <= Z.of_nat (length (columns training_set)) ->
     exists X Y,
       preprocess_avg_NANs py_int training_set submit_rows_index years_ahead
       = Ok (X, Y)).
Proof.
  intros Hrect Hnd Hloc Hr features Hlast Hk Hq Hv Hnan. split.
  - intros X Y Hrun.
    destruct (lookback_split k Hk) as (l1 & l2 & Hsplit & Hl1).
    apply (avg_NANs_last_cell py_int training_set sel submit_rows_index years_ahead
             X Y r (Some v) Hrect Hnd Hloc Hrun Hr Hlast).
    rewrite Hsplit. apply scan_cells_first; [| exact Hq | exact Hv].
    intros k' Hk'. apply Hnan, Hl1, Hk'.
  - intros cols Hcols Hya Hwide.
    eapply preprocess_avg_NANs_returns; eassumption.
Qed.

Lemma recent_value_takes_precedence_witness :
  exists r',
    In r' (rows (fst ex_wide_result)) /\ ix r' = 10 /\
    py_index (values r') (-1) = Some (2%float).
Proof.
  destruct (recent_value_takes_precedence dec_int ex_wide_training_set ex_wide_selected
              ex_wide_index 1
              (mkRow 10 [NaN; NaN; NaN; NaN; NaN; NaN; 2%float; NaN; NaN; 3%float]
                 (mkMeta "Kosovo" "NY.GDP" "GDP"))
              3 2) as [H _].
  - repeat constructor.
  - repeat constructor; cbn; intuition discriminate.
  - reflexivity.
  - cbn. tauto.
  - reflexivity.
  - lia.
  - reflexivity.
  - reflexivity.
  - intros k' Hk'. assert (k' = 2) as -> by lia. reflexivity.
  - apply (H (fst ex_wide_result) (snd ex_wide_result)). vm_compute. reflexivity.
Defined.

(** * Further properties of the code *)

(** ** Interpolator: which cells are filled, and with what *)

Lemma valid_points_repeat_NaN (i : Z) (k : nat) (rest : list float) :
  valid_points i (repeat NaN k ++ rest) = valid_points (i + Z.of_nat k) rest.
Proof.
  revert i. induction k as [| k IH]; intros i; cbn [repeat app].
  - f_equal. lia.
  - rewrite valid_points_NaN, IH. f_equal. lia.
Qed.

Lemma forallb_isnan_known_within (n m : nat) (b : float) (rest : list float) :
  isnan b = false ->
  (m < n)%nat -> forallb isnan (take n (repeat NaN m ++ b :: rest)) = false.
Proof.
  intros Hb. revert n. induction m as [| m IH]; intros n Hn.
  - destruct n; [lia |]. cbn [repeat app take forallb]. now rewrite Hb.
  - destruct n; [lia |]. cbn [repeat app take forallb].
    change (isnan NaN) with true. cbn [andb]. apply IH. lia.
Qed.

Lemma fill_backward_known (limit : nat) (pts : list (Z * float)) (i : Z)
    (row : list float) (j : nat) (v : float) :
  row !! j = Some v -> isnan v = false -> fill_backward limit pts i row !! j = Some v.
Proof.
  revert i j. induction row as [| w row IH]; intros i j; [intros [=] |].
  destruct j as [| j]; cbn [fill_backward lookup list_lookup].
  - intros [= ->] Hv. now rewrite Hv.
  - apply IH.
Qed.

Lemma interpolate_lookup (limit : nat) (l1 : list float) (v : float) (l2 : list float) :
  interpolate limit (l1 ++ v :: l2) !! length l1
  = Some (filled_cell limit (valid_points 0 (l1 ++ v :: l2)) (Z.of_nat (length l1)) v l2).
Proof. unfold interpolate. now rewrite fill_backward_lookup. Qed.

(** X1. The interpolation leaves a row's length and its known values as they
    are, and never fills the missing cells after the last known value. *)
Theorem interpolate_keeps_known_and_tail (limit : nat) (row l1 : list float)
    (j k : nat) (v : float) :
  length (interpolate limit row) = length row /\
  (row !! j = Some v -> isnan v = false -> interpolate limit row !! j = Some v) /\
  ((j < k)%nat ->
   interpolate limit (l1 ++ repeat NaN k) !! (length l1 + j)%nat = Some NaN).
Proof.
  split; [apply interpolate_length |]. split.
  - apply fill_backward_known.
  - intros Hj.
    replace k with (j + S (k - j - 1))%nat by lia.
    rewrite repeat_app. cbn [repeat].
    replace (l1 ++ repeat NaN j ++ NaN :: repeat NaN (k - j - 1))
      with ((l1 ++ repeat NaN j) ++ NaN :: repeat NaN (k - j - 1))
      by now rewrite <- app_assoc.
    replace (length l1 + j)%nat with (length (l1 ++ repeat NaN j))
      by (rewrite length_app, repeat_length; lia).
    unfold interpolate. rewrite fill_backward_lookup, filled_cell_NaN.
    assert (E : forall n m, forallb isnan (take n (repeat NaN m)) = true).
    { induction n as [| n IHn]; intros [| m]; cbn [repeat take forallb]; auto.
      change (isnan NaN) with true. cbn [andb]. apply IHn. }
    now rewrite E.
Qed.

Lemma interpolate_keeps_known_and_tail_witness :
  interpolate 50 [1%float; NaN; 3%float; NaN; NaN] !! 2%nat = Some (3%float) /\
  interpolate 50 ([1%float; NaN; 3%float] ++ repeat NaN 2) !! (3 + 1)%nat = Some NaN.
Proof.
  destruct (interpolate_keeps_known_and_tail 50 [1%float; NaN; 3%float; NaN; NaN]
              [1%float; NaN; 3%float] 2 3 3) as (_ & H1 & _).
  destruct (interpolate_keeps_known_and_tail 50 [1%float; NaN; 3%float; NaN; NaN]
              [1%float; NaN; 3%float] 1 2 3) as (_ & _ & H2).
  split; [apply H1; reflexivity | apply H2; lia].
Defined.

(** X3. Missing cells before the first known value of a row are filled with
    that value, as far as 50 cells back from it; the direction is backward
    and there is nothing to the left to draw a line from. *)
Theorem interpolate_leading_run (l2 : list float) (b : float) (k j : nat) :
  isnan b = false ->
  (j < k)%nat ->
  (k - j <= 50)%nat ->
  interpolate 50 (repeat NaN k ++ b :: l2) !! j = Some b.
Proof.
  intros Hb Hj Hk.
  assert (Hrow : repeat NaN k ++ b :: l2
                 = repeat NaN j ++ NaN :: (repeat NaN (k - j - 1) ++ b :: l2)).
  { replace k with (j + S (k - j - 1))%nat at 1 by lia.
    rewrite repeat_app. cbn [repeat]. now rewrite <- app_assoc. }
  rewrite Hrow.
  pose proof (interpolate_lookup 50 (repeat NaN j) NaN
                (repeat NaN (k - j - 1) ++ b :: l2)) as H.
  rewrite repeat_length in H. rewrite H, filled_cell_NaN.
  rewrite forallb_isnan_known_within by (assumption || lia).
  rewrite valid_points_repeat_NaN, valid_points_NaN.
  rewrite valid_points_repeat_NaN, valid_points_known by assumption.
  cbn [np_interp].
  destruct (Z.leb_spec (Z.of_nat j) (0 + Z.of_nat j + 1 + Z.of_nat (k - j - 1)));
    [reflexivity | lia].
Qed.

Lemma interpolate_leading_run_witness :
  interpolate 50 (repeat NaN 2 ++ 7%float :: [8%float]) !! 0%nat = Some (7%float).
Proof. apply (interpolate_leading_run [8%float] 7 2 0); [reflexivity | lia | lia]. Defined.

(** ** Row selection and the index of the outputs *)

Lemma filter_label_absent {M} (rs : list (Row M)) (l : Z) :
  ~ In l (map ix rs) -> List.filter (fun r => ix r =? l) rs = [].
Proof.
  induction rs as [| r rs IH]; [reflexivity |].
  cbn. intros H. destruct (Z.eqb_spec (ix r) l); [tauto |]. apply IH. tauto.
Qed.

Lemma filter_label_unique {M} (rs : list (Row M)) (l : Z) (h : Row M) (t : list (Row M)) :
  List.NoDup (map ix rs) ->
  List.filter (fun r => ix r =? l) rs = h :: t -> t = [] /\ ix h = l.
Proof.
  induction rs as [| r rs IH]; cbn; [discriminate |].
  intros Hnd. apply NoDup_cons_iff in Hnd as [Hfresh Hnd].
  destruct (Z.eqb_spec (ix r) l) as [E | E]; [| now apply IH].
  rewrite filter_label_absent by (rewrite <- E; exact Hfresh).
  intros [= <- <-]. auto.
Qed.

(** With distinct labels in the table, [X.loc[labels]] returns one row per
    requested label, in the requested order. *)
Lemma loc_labels {L M} (X sel : Frame L M) (labels : list Z) :
  List.NoDup (map ix (rows X)) ->
  loc X labels = Ok sel -> map ix (rows sel) = labels.
Proof.
  intros Hnd. unfold loc.
  destruct (mapM _ labels) as [rs |] eqn:E; bind_step; [| discriminate].
  intros [= <-]. cbn [rows]. revert rs E.
  induction labels as [| l labels IH]; intros rs; cbn [mapM].
  - intros [= <-]. reflexivity.
  - destruct (List.filter _ (rows X)) as [| h t] eqn:Eh; bind_step; [discriminate |].
    destruct (mapM _ labels) as [rs' |]; bind_step; [| discriminate].
    intros [= <-]. destruct (filter_label_unique _ _ _ _ Hnd Eh) as [-> <-].
    cbn. f_equal. now apply IH.
Qed.

Lemma iloc_col_labels {L M} (X : Frame L M) (i : Z) (s : Series) :
  iloc_col X i = Ok s -> map fst s = map ix (rows X).
Proof.
  unfold iloc_col. destruct (py_index (columns X) i); bind_step; [| discriminate].
  revert s. induction (rows X) as [| r rs IH]; intros s; cbn [mapM].
  - intros [= <-]. reflexivity.
  - destruct (py_index (values r) i); bind_step; [| discriminate].
    destruct (mapM _ rs) as [s' |]; bind_step; [| discriminate].
    intros [= <-]. cbn. f_equal. now apply IH.
Qed.

Lemma iloc_cols_to_labels {L M} (X : Frame L M) (stop : Z) :
  map ix (rows (iloc_cols_to X stop)) = map ix (rows X).
Proof. unfold iloc_cols_to. cbn [rows]. now rewrite map_map. Qed.

Lemma drop_meta_labels {L M} (X : Frame L M) :
  map ix (rows (drop_meta X)) = map ix (rows X).
Proof. unfold drop_meta. cbn [rows]. now rewrite map_map. Qed.

Lemma set_row_labels {M} (l : Z) (cells : list float) (rs : list (Row M)) :
  map ix (set_row l cells rs) = map ix rs.
Proof.
  unfold set_row. rewrite map_map. apply map_ext. intros r. now destruct (ix r =? l).
Qed.

(** A row loop keeps the row labels, in order. *)
Lemma iterrows_update_labels {L M} (f : Row M -> result (list float)) (X X' : Frame L M) :
  iterrows_update f X = Ok X' -> map ix (rows X') = map ix (rows X).
Proof.
  unfold iterrows_update.
  destruct (foldM _ (rows X) (rows X)) as [rs |] eqn:E; bind_step; [| discriminate].
  intros [= <-]. cbn [rows]. revert E.
  apply (foldM_rel (fun s s' : list (Row M) => map ix s' = map ix s));
    [reflexivity | congruence |].
  intros s r s' _. destruct (f r); bind_step; [| discriminate].
  intros [= <-]. apply set_row_labels.
Qed.

Lemma preprocess_continents_labels
    (countries_get alpha2 : string -> option string) {L}
    (training_set : Frame L Meta) (X_with_cont : Frame L (Meta * string)) :
  preprocess_continents countries_get alpha2 training_set = Ok X_with_cont ->
  map ix (rows X_with_cont) = map ix (rows training_set).
Proof.
  unfold preprocess_continents.
  destruct (mapM _ (rows training_set)) as [rs |] eqn:E; bind_step; [| discriminate].
  intros [= <-]. cbn [rows]. revert rs E.
  induction (rows training_set) as [| r rs0 IH]; intros rs; cbn [mapM].
  - intros [= <-]. reflexivity.
  - destruct (snd (get_continent _ _ _)); bind_step; [| discriminate].
    destruct (mapM _ rs0) as [rs' |]; bind_step; [| discriminate].
    intros [= <-]. cbn. f_equal. now apply IH.
Qed.

Lemma preprocess_simple_labels (py_int : string -> option Z)
    (training_set : Frame string Meta) (submit_rows_index : list Z) (years_ahead : Z)
    (X : Frame Z unit) (Y : Series) :
  preprocess_simple py_int training_set submit_rows_index years_ahead = Ok (X, Y) ->
  exists sel,
    loc training_set submit_rows_index = Ok sel /\
    map ix (rows X) = map ix (rows sel) /\ map fst Y = map ix (rows sel).
Proof.
  unfold preprocess_simple.
  destruct (loc training_set submit_rows_index) as [sel |] eqn:Hloc; bind_step;
    [| discriminate].
  unfold rename_years. destruct (mapM _ (columns (drop_meta sel))) as [cols |];
    bind_step; [| discriminate].
  destruct (iloc_col _ (-1)) as [Y0 |] eqn:EY; bind_step; [| discriminate].
  intros [= <- <-]. exists sel. split; [reflexivity |].
  rewrite (iloc_col_labels _ _ _ EY), iloc_cols_to_labels. cbn [rows].
  rewrite ?drop_meta_labels, ?map_map. split; reflexivity.
Qed.

Lemma preprocess_avg_NANs_labels (py_int : string -> option Z)
    (training_set : Frame string Meta) (submit_rows_index : list Z) (years_ahead : Z)
    (X : Frame Z unit) (Y : Series) :
  preprocess_avg_NANs py_int training_set submit_rows_index years_ahead = Ok (X, Y) ->
  exists sel,
    loc training_set submit_rows_index = Ok sel /\
    map ix (rows X) = map ix (rows sel) /\ map fst Y = map ix (rows sel).
Proof.
  unfold preprocess_avg_NANs, median_recent_fill.
  destruct (loc training_set submit_rows_index) as [sel |] eqn:Hloc; bind_step;
    [| discriminate].
  unfold rename_years. destruct (mapM _ (columns (drop_meta sel))) as [cols |];
    bind_step; [| discriminate].
  destruct (iloc_col (mkFrame cols _) (-1)) as [Y0 |] eqn:EY; bind_step; [| discriminate].
  set (features := iloc_cols_to _ (-1 * years_ahead)).
  destruct (iloc_col features (-1)) as [lct |]; bind_step; [| discriminate].
  destruct (iloc_col training_set (-5 + 3)) as [lca |]; bind_step; [| discriminate].
  destruct (foldM _ _ features) as [X1 |] eqn:Efold; bind_step; [| discriminate].
  destruct (iterrows_update _ X1) as [X2 |] eqn:Ei; bind_step; [| discriminate].
  intros [= <- <-]. exists sel. split; [reflexivity |].
  assert (Hw : last_written features X1).
  { revert Efold. apply foldM_rel.
    - apply last_written_refl.
    - apply last_written_trans.
    - intros s a s' _. apply fill_indicator_last_written. }
  rewrite (iterrows_update_labels _ _ _ Ei), (last_written_labels _ _ Hw).
  rewrite (iloc_col_labels _ _ _ EY). unfold features.
  rewrite iloc_cols_to_labels. cbn [rows].
  rewrite ?drop_meta_labels, ?map_map. split; reflexivity.
Qed.

Lemma preprocess_with_continent_interpolation_labels
    (py_int : string -> option Z)
    (countries_get alpha2 : string -> option string)
    (tuple_str : string -> string -> label -> string)
    (cont_avgs : gmap string float)
    (training_set : Frame string Meta) (submit_rows_index : list Z) (years_ahead : Z)
    (X : Frame label unit) (Y : Series) :
  preprocess_with_continent_interpolation py_int countries_get alpha2 tuple_str
    cont_avgs training_set submit_rows_index years_ahead = Ok (X, Y) ->
  exists X_with_cont X_submit,
    preprocess_continents countries_get alpha2 training_set = Ok X_with_cont /\
    loc X_with_cont submit_rows_index = Ok X_submit /\
    map ix (rows X) = map ix (rows X_submit) /\ map fst Y = map ix (rows X_submit).
Proof.
  unfold preprocess_with_continent_interpolation.
  destruct (preprocess_continents _ _ _) as [Xc |] eqn:Hc; bind_step; [| discriminate].
  destruct (loc Xc submit_rows_index) as [Xs |] eqn:Hloc; bind_step; [| discriminate].
  destruct (mapM _ (columns Xs)) as [cols |]; bind_step; [| discriminate].
  destruct (iterrows_update _ _) as [Xi |] eqn:Ei; bind_step; [| discriminate].
  destruct (iloc_col _ (-1)) as [Y0 |] eqn:EY; bind_step; [| discriminate].
  intros [= <- <-]. exists Xc, Xs. split; [reflexivity |]. split; [exact Hloc |].
  split.
  - rewrite iloc_cols_to_labels, drop_meta_labels.
    now rewrite (iterrows_update_labels _ _ _ Ei).
  - rewrite (iloc_col_labels _ _ _ EY), drop_meta_labels.
    now rewrite (iterrows_update_labels _ _ _ Ei).
Qed.

(** X4. Whatever the three preprocessing functions return, the Features and
    the Target carry the same row labels in the same order; and when the
    labels of the raw table are distinct, these are the requested labels
    [submit_rows_index], in the order requested. *)
Theorem outputs_follow_submit_rows_index
    (py_int : string -> option Z)
    (countries_get alpha2 : string -> option string)
    (tuple_str : string -> string -> label -> string)
    (cont_avgs : gmap string float)
    (training_set : Frame string Meta) (submit_rows_index : list Z) (years_ahead : Z) :
  aligned_with training_set submit_rows_index
    (preprocess_simple py_int training_set submit_rows_index years_ahead) /\
  aligned_with training_set submit_rows_index
    (preprocess_avg_NANs py_int training_set submit_rows_index years_ahead) /\
  aligned_with training_set submit_rows_index
    (preprocess_with_continent_interpolation py_int countries_get alpha2 tuple_str
       cont_avgs training_set submit_rows_index years_ahead).
Proof.
  unfold aligned_with. repeat split.
  - destruct (preprocess_simple_labels _ _ _ _ _ _ H) as (sel & _ & -> & ->).
    reflexivity.
  - intros Hnd. destruct (preprocess_simple_labels _ _ _ _ _ _ H) as (sel & Hloc & _ & ->).
    eapply loc_labels; eassumption.
  - destruct (preprocess_avg_NANs_labels _ _ _ _ _ _ H) as (sel & _ & -> & ->).
    reflexivity.
  - intros Hnd.
    destruct (preprocess_avg_NANs_labels _ _ _ _ _ _ H) as (sel & Hloc & _ & ->).
    eapply loc_labels; eassumption.
  - destruct (preprocess_with_continent_interpolation_labels _ _ _ _ _ _ _ _ _ _ H)
      as (Xc & Xs & _ & _ & -> & ->).
    reflexivity.
  - intros Hnd.
    destruct (preprocess_with_continent_interpolation_labels _ _ _ _ _ _ _ _ _ _ H)
      as (Xc & Xs & Hc & Hloc & _ & ->).
    eapply loc_labels; [| eassumption].
    now rewrite (preprocess_continents_labels _ _ _ _ Hc).
Qed.

Lemma outputs_follow_submit_rows_index_witness :
  map ix (rows (fst ex_wide_result)) = map fst (snd ex_wide_result) /\
  map fst (snd ex_wide_result) = ex_wide_index.
Proof.
  destruct (outputs_follow_submit_rows_index dec_int (fun _ => None) (fun _ => None)
              ex_tuple_str ex_cont_avgs ex_wide_training_set ex_wide_index 1)
    as (_ & H & _).
  destruct (H (fst ex_wide_result) (snd ex_wide_result)) as [H1 H2].
  - vm_compute. reflexivity.
  - split; [exact H1 |]. apply H2.
    repeat constructor; cbn; intuition discriminate.
Defined.

(** ** Renaming the year columns *)

Lemma first_token_no_space (tok : string) :
  ~ In " "%char (list_ascii_of_string tok) -> first_token tok = tok.
Proof.
  induction tok as [| c tok IH]; [reflexivity |].
  cbn. intros H. destruct (Ascii.eqb_spec c " "%char) as [-> | _]; [tauto |].
  f_equal. apply IH. tauto.
Qed.

Lemma first_token_app (tok rest : string) :
  ~ In " "%char (list_ascii_of_string tok) ->
  first_token (tok +:+ " " +:+ rest) = tok.
Proof.
  induction tok as [| c tok IH]; [reflexivity |].
  intros H. cbn in H.
  change (String c tok +:+ " " +:+ rest) with (String c (tok +:+ " " +:+ rest)).
  cbn [first_token]. destruct (Ascii.eqb_spec c " "%char) as [-> | _]; [tauto |].
  f_equal. apply IH. tauto.
Qed.

(** X5. A year label is renamed to the integer that its text before the
    first space denotes: when every label is a space-free token that [int]
    reads, alone or followed by a space and any description, the renaming
    succeeds with those integers and keeps the rows. *)
Theorem rename_years_reads_leading_token (py_int : string -> option Z) {M}
    (labels : list (string * option string * Z)) (rs : list (Row M)) :
  Forall (fun '(tok, _, y) =>
            ~ In " "%char (list_ascii_of_string tok) /\ py_int tok = Some y) labels ->
  rename_years py_int
    (mkFrame (map (fun '(tok, descr, _) =>
                     match descr with
                     | Some d => tok +:+ " " +:+ d
                     | None => tok
                     end) labels) rs)
  = Ok (mkFrame (map snd labels) rs).
Proof.
  intros H. unfold rename_years. cbn [columns rows].
  enough (E : mapM (fun c => of_option ValueError (py_int (first_token c)))
                (map (fun '(tok, descr, _) =>
                        match descr with
                        | Some d => tok +:+ " " +:+ d
                        | None => tok
                        end) labels) = Ok (map snd labels)) by now rewrite E.
  induction H as [| [[tok descr] y] labels [Hs Hy] _ IH]; [reflexivity |].
  cbn [map mapM snd].
  replace (first_token match descr with Some d => tok +:+ " " +:+ d | None => tok end)
    with tok
    by (destruct descr; [now rewrite first_token_app | now rewrite first_token_no_space]).
  rewrite Hy. bind_step. now rewrite IH.
Qed.

Lemma rename_years_reads_leading_token_witness :
  rename_years dec_int
    (mkFrame ["2006 [YR2006]"; "2007"] [mkRow 10 [1%float; NaN] tt])
  = Ok (mkFrame [2006; 2007] [mkRow 10 [1%float; NaN] tt]).
Proof.
  apply (rename_years_reads_leading_token dec_int
           [("2006", Some "[YR2006]", 2006); ("2007", None, 2007)]).
  repeat constructor; cbn; intuition discriminate.
Defined.

(** X6. A year label whose text before the first space [int] cannot read
    makes the functions raise [ValueError] once the rows are selected (and,
    on the average-table path, tagged): nothing is returned for the other
    columns. *)
Theorem unreadable_year_label_raises
    (py_int : string -> option Z)
    (countries_get alpha2 : string -> option string)
    (tuple_str : string -> string -> label -> string)
    (cont_avgs : gmap string float)
    (training_set sel : Frame string Meta) (submit_rows_index : list Z) (years_ahead : Z)
    (c : string) :
  loc training_set submit_rows_index = Ok sel ->
  In c (columns training_set) ->
  py_int (first_token c) = None ->
  preprocess_simple py_int training_set submit_rows_index years_ahead = Err ValueError /\
  preprocess_avg_NANs py_int training_set submit_rows_index years_ahead = Err ValueError /\
  (forall X_with_cont X_submit,
     preprocess_continents countries_get alpha2 training_set = Ok X_with_cont ->
     loc X_with_cont submit_rows_index = Ok X_submit ->
     ~ In c ["Country Name"; "Series Code"; "Series Name"; "continent"] ->
     preprocess_with_continent_interpolation py_int countries_get alpha2 tuple_str
       cont_avgs training_set submit_rows_index years_ahead = Err ValueError).
Proof.
  intros Hloc Hc Hint.
  assert (Hren : rename_years py_int (drop_meta sel) = Err ValueError).
  { unfold rename_years. cbn [columns drop_meta].
    rewrite (loc_columns _ _ _ Hloc).
    rewrite (mapM_raises _ ValueError _ c); [reflexivity | | exact Hc |].
    - intros x e'. destruct (py_int (first_token x)); cbn; congruence.
    - now rewrite Hint. }
  split; [| split].
  - unfold preprocess_simple. rewrite Hloc. bind_step. now rewrite Hren.
  - unfold preprocess_avg_NANs, median_recent_fill. rewrite Hloc. bind_step.
    now rewrite Hren.
  - intros Xc Xs Hcont Hlocc Hname.
    unfold preprocess_with_continent_interpolation.
    rewrite Hcont. bind_step. rewrite Hlocc. bind_step.
    rewrite (loc_columns _ _ _ Hlocc), (preprocess_continents_columns _ _ _ _ Hcont).
    rewrite (mapM_raises _ ValueError _ c); [reflexivity | | exact Hc |].
    + intros x e'. unfold rename_cols. destruct (str_in x _); cbn; [discriminate |].
      destruct (py_int (first_token x)); cbn; congruence.
    + unfold rename_cols. rewrite str_in_false by exact Hname. cbn [negb].
      now rewrite Hint.
Qed.

Lemma unreadable_year_label_raises_witness :
  preprocess_simple dec_int
    (mkFrame ["2006 [YR2006]"; "latest"] [mkRow 10 [1%float; NaN] (mkMeta "Kosovo" "c" "n")])
    [10] 1 = Err ValueError.
Proof.
  apply (unreadable_year_label_raises dec_int (fun _ => None) (fun _ => None)
           ex_tuple_str ex_cont_avgs
           (mkFrame ["2006 [YR2006]"; "latest"]
              [mkRow 10 [1%float; NaN] (mkMeta "Kosovo" "c" "n")])
           (mkFrame ["2006 [YR2006]"; "latest"]
              [mkRow 10 [1%float; NaN] (mkMeta "Kosovo" "c" "n")])
           [10] 1 "latest").
  - reflexivity.
  - cbn. tauto.
  - reflexivity.
Defined.

(** ** The cutoff [:-1*years_ahead] outside [0 < years_ahead < n] *)

Lemma py_slice_to_nothing {A} (l : list A) (k : Z) :
  k = 0 \/ Z.of_nat (length l) <= k -> py_slice_to l (-1 * k) = [].
Proof.
  intros Hk. unfold py_slice_to.
  destruct (Z.ltb_spec (-1 * k) 0).
  - replace (Z.to_nat (Z.max 0 (-1 * k + Z.of_nat (length l)))) with 0%nat by lia.
    reflexivity.
  - replace (Z.to_nat (Z.min (-1 * k) (Z.of_nat (length l)))) with 0%nat by lia.
    reflexivity.
Qed.

Lemma py_slice_to_nonneg {A} (l : list A) (stop : Z) :
  0 <= stop -> py_slice_to l stop = take (Z.to_nat stop) l.
Proof.
  intros Hs. unfold py_slice_to. destruct (Z.ltb_spec stop 0); [lia |].
  destruct (Z_le_gt_dec stop (Z.of_nat (length l))).
  - f_equal. lia.
  - rewrite !take_ge by lia. reflexivity.
Qed.

Lemma iloc_col_raises_IndexError {L M} (X : Frame L M) (i : Z) (e : exn) :
  iloc_col X i = Err e -> e = IndexError.
Proof.
  unfold iloc_col. destruct (py_index (columns X) i); bind_step; [| congruence].
  apply mapM_raises_only. intros r e'.
  destruct (py_index (values r) i); bind_step; congruence.
Qed.

(** X7. In what [preprocess_simple] returns, a [years_ahead] of 0, or one
    that is not below the number of year columns, leaves no feature column
    at all ([X.iloc[:, :-0]] is [X.iloc[:, :0]]), and a negative
    [years_ahead] keeps the first [-years_ahead] year columns. *)
Theorem preprocess_simple_cutoff_out_of_range
    (py_int : string -> option Z)
    (training_set sel : Frame string Meta) (submit_rows_index : list Z)
    (years_ahead : Z) (cols : list Z) (X : Frame Z unit) (Y : Series) :
  rectangular training_set ->
  loc training_set submit_rows_index = Ok sel ->
  mapM (fun c => of_option ValueError (py_int (first_token c))) (columns training_set)
  = Ok cols ->
  preprocess_simple py_int training_set submit_rows_index years_ahead = Ok (X, Y) ->
  (years_ahead = 0 \/ Z.of_nat (length cols) <= years_ahead ->
   X = mkFrame [] (map (fun r => mkRow (ix r) [] tt) (rows sel))) /\
  (years_ahead < 0 ->
   X = mkFrame (take (Z.to_nat (- years_ahead)) cols)
         (map (fun r => mkRow (ix r) (take (Z.to_nat (- years_ahead)) (values r)) tt)
              (rows sel))).
Proof.
  intros Hrect Hloc Hcols. unfold preprocess_simple. rewrite Hloc. bind_step.
  rewrite <- (loc_columns _ _ _ Hloc) in Hcols.
  destruct (rename_years_spec py_int (drop_meta sel) cols Hcols) as [-> Hlen].
  bind_step.
  destruct (iloc_col _ (-1)) as [Y0 |]; bind_step; [| discriminate].
  intros [= <- <-]. unfold iloc_cols_to, drop_meta. cbn [columns rows].
  rewrite map_map. cbn [ix values meta].
  split.
  - intros Hya. f_equal; [now apply py_slice_to_nothing |].
    apply map_ext_in. intros r Hr. f_equal.
    apply py_slice_to_nothing.
    pose proof (loc_rectangular _ _ _ Hrect Hloc) as Hs.
    unfold rectangular in Hs. rewrite Forall_forall in Hs.
    rewrite (Hs r) by now apply list_elem_of_In.
    cbn [columns drop_meta] in Hlen. now rewrite <- Hlen.
  - intros Hya. replace (-1 * years_ahead) with (- years_ahead) by lia.
    f_equal; [apply py_slice_to_nonneg; lia |].
    apply map_ext. intros r. now rewrite py_slice_to_nonneg by lia.
Qed.

Lemma preprocess_simple_cutoff_out_of_range_witness :
  mkFrame (@nil Z) [mkRow 10 [] tt]
  = mkFrame [] (map (fun r : Row Meta => mkRow (ix r) [] tt)
                  [mkRow 10 [1%float; NaN; 3%float] (mkMeta "Kosovo" "NY.GDP" "GDP")]).
Proof.
  destruct (preprocess_simple_cutoff_out_of_range dec_int ex_training_set
              (mkFrame (columns ex_training_set)
                 [mkRow 10 [1%float; NaN; 3%float] (mkMeta "Kosovo" "NY.GDP" "GDP")])
              [10] 0
              [2005; 2006; 2007] (mkFrame [] [mkRow 10 [] tt]) [(10, 3%float)])
    as [H _].
  - repeat constructor.
  - reflexivity.
  - reflexivity.
  - reflexivity.
  - apply H. now left.
Defined.

(** X8. [preprocess_avg_NANs] needs a feature column: once the rows are
    selected and the year labels read, a [years_ahead] of 0, or one that is
    not below the number of year columns, makes it raise [IndexError]. *)
Theorem preprocess_avg_NANs_needs_a_feature_column
    (py_int : string -> option Z)
    (training_set sel : Frame string Meta) (submit_rows_index : list Z)
    (years_ahead : Z) (cols : list Z) :
  loc training_set submit_rows_index = Ok sel ->
  mapM (fun c => of_option ValueError (py_int (first_token c))) (columns training_set)
  = Ok cols ->
  years_ahead = 0 \/ Z.of_nat (length cols) <= years_ahead ->
  preprocess_avg_NANs py_int training_set submit_rows_index years_ahead = Err IndexError.
Proof.
  intros Hloc Hcols Hya.
  unfold preprocess_avg_NANs, median_recent_fill. rewrite Hloc. bind_step.
  rewrite <- (loc_columns _ _ _ Hloc) in Hcols.
  destruct (rename_years_spec py_int (drop_meta sel) cols Hcols) as [-> _]. bind_step.
  destruct (iloc_col (mkFrame cols _) (-1)) as [Y0 | e] eqn:EY; bind_step.
  - set (features := iloc_cols_to _ (-1 * years_ahead)).
    assert (E : iloc_col features (-1) = Err IndexError).
    { unfold iloc_col, features, iloc_cols_to. cbn [columns].
      rewrite py_slice_to_nothing by exact Hya. reflexivity. }
    now rewrite E.
  - now rewrite (iloc_col_raises_IndexError _ _ _ EY).
Qed.

Lemma preprocess_avg_NANs_needs_a_feature_column_witness :
  preprocess_avg_NANs dec_int ex_training_set [10] 3 = Err IndexError.
Proof.
  apply (preprocess_avg_NANs_needs_a_feature_column dec_int ex_training_set
           (mkFrame (columns ex_training_set)
              [mkRow 10 [1%float; NaN; 3%float] (mkMeta "Kosovo" "NY.GDP" "GDP")])
           [10] 3 [2005; 2006; 2007]).
  - reflexivity.
  - reflexivity.
  - right. cbn. lia.
Defined.

(** ** The median of an indicator *)

Lemma dropna_all_missing (l : list float) :
  Forall (fun v => v = NaN) l -> dropna l = [].
Proof. induction 1 as [| v l -> _ IH]; [reflexivity | exact IH]. Qed.

(** X10. An indicator without any known value in the fifth column from the
    end of the raw table has no median, and nothing is raised for it: a
    selected row of that indicator whose most recent feature cell and 2nd to
    9th most recent feature cells are all missing is returned with its most
    recent feature cell still missing. *)
Theorem median_of_empty_group_stays_missing
    (py_int : string -> option Z)
    (training_set sel : Frame string Meta) (submit_rows_index : list Z)
    (years_ahead : Z) (cols : list Z) (r : Row Meta) :
  rectangular training_set ->
  List.NoDup (map ix (rows sel)) ->
  loc training_set submit_rows_index = Ok sel ->
  mapM (fun c => of_option ValueError (py_int (first_token c))) (columns training_set)
  = Ok cols ->
  0 < years_ahead ->
  In r (rows sel) ->
  let features := py_slice_to (values r) (-1 * years_ahead) in
  py_index features (-1) = Some NaN ->
  (forall k, 2 <= k <= 9 -> py_index features (- k) = Some NaN) ->
  (forall r', In r' (rows training_set) ->
              series_name (meta r') = series_name (meta r) ->
              nth (length (columns training_set) - 2) (values r') NaN = NaN) ->
  exists X Y r',
    preprocess_avg_NANs py_int training_set submit_rows_index years_ahead = Ok (X, Y) /\
    In r' (rows X) /\ ix r' = ix r /\ py_index (values r') (-1) = Some NaN.
Proof.
  intros Hrect Hnd Hloc Hcols Hya Hr features Hlast Hnan Hgroup.
  destruct (preprocess_avg_NANs_returns py_int training_set sel submit_rows_index
              years_ahead cols Hrect Hloc Hcols Hya) as (X & Y & Hrun).
  { pose proof (py_index_neg_length features 9 NaN ltac:(lia) (Hnan 9 ltac:(lia))) as H9.
    unfold features in H9.
    rewrite (selected_features_length _ _ _ _ _ Hrect Hloc Hr Hya) in H9. lia. }
  exists X, Y.
  destruct (avg_NANs_last_cell py_int training_set sel submit_rows_index years_ahead
              X Y r None Hrect Hnd Hloc Hrun Hr Hlast) as (r' & Hin & Hix & Hcell).
  { unfold lookback. cbn [scan_cells]. fold features.
    rewrite !Hnan by lia. reflexivity. }
  exists r'. repeat split; try assumption.
  rewrite Hcell. cbn [default]. f_equal.
  unfold indicator_median. rewrite dropna_all_missing; [reflexivity |].
  apply Forall_forall. intros v Hv.
  apply list_elem_of_In, in_map_iff in Hv as (r0 & <- & Hr0).
  apply filter_In in Hr0 as [Hr0 Hname]. apply String.eqb_eq in Hname.
  now apply Hgroup.
Qed.

Lemma median_of_empty_group_stays_missing_witness :
  exists X Y r',
    preprocess_avg_NANs dec_int ex_lonely_training_set [14] 1 = Ok (X, Y) /\
    In r' (rows X) /\ ix r' = 14 /\ py_index (values r') (-1) = Some NaN.
Proof.
  apply (median_of_empty_group_stays_missing dec_int ex_lonely_training_set
           (mkFrame (columns ex_lonely_training_set)
              [mkRow 14 [NaN; NaN; NaN; NaN; NaN; NaN; NaN; NaN; NaN; 1%float]
                 (mkMeta "Tanzania" "NY.GDP" "GDP")])
           [14] 1 [1998; 1999; 2000; 2001; 2002; 2003; 2004; 2005; 2006; 2007]
           (mkRow 14 [NaN; NaN; NaN; NaN; NaN; NaN; NaN; NaN; NaN; 1%float]
              (mkMeta "Tanzania" "NY.GDP" "GDP"))).
  - repeat constructor.
  - repeat constructor; cbn; intuition discriminate.
  - reflexivity.
  - reflexivity.
  - lia.
  - cbn. tauto.
  - reflexivity.
  - intros k Hk.
    assert (E : k = 2 \/ k = 3 \/ k = 4 \/ k = 5 \/ k = 6 \/ k = 7 \/ k = 8 \/ k = 9)
      by lia.
    destruct E as [-> | [-> | [-> | [-> | [-> | [-> | [-> | ->]]]]]]]; reflexivity.
  - intros r' Hr' Hname. cbn in Hr'.
    destruct Hr' as [<- | [<- | []]]; [reflexivity | discriminate Hname].
Defined.

(** ** Tables that need no filling *)

Lemma fill_backward_complete (limit : nat) (pts : list (Z * float)) (i : Z)
    (c : list float) :
  Forall (fun v => isnan v = false) c -> fill_backward limit pts i c = c.
Proof.
  intros H. revert i. induction H as [| v c Hv _ IH]; intros i; [reflexivity |].
  cbn [fill_backward]. now rewrite Hv, IH.
Qed.

Lemma foldM_id {A S} (body : S -> A -> result S) (l : list A) (s : S) :
  (forall a, In a l -> body s a = Ok s) -> foldM body l s = Ok s.
Proof.
  induction l as [| a l IH]; intros H; [reflexivity |].
  cbn [foldM]. rewrite (H a) by now left. bind_step.
  apply IH. intros b Hb. apply H. now right.
Qed.

Lemma fill_indicator_nothing_missing {L} (training_set full : Frame L Meta)
    (lct lca : Series) (X : Frame Z unit) (ind : string) :
  Forall (fun p => isnan (snd p) = false) lct ->
  fill_indicator training_set full lct lca X ind = Ok X.
Proof.
  intros H. unfold fill_indicator.
  match goal with
  | |- foldM _ (map fst ?l) X = _ => assert (E : l = []); [| now rewrite E]
  end.
  match goal with
  | |- List.filter ?p ?l = [] =>
      destruct (List.filter p l) as [| x t] eqn:Ef; [reflexivity | exfalso]
  end.
  assert (Hx : In x (x :: t)) by now left.
  rewrite <- Ef in Hx. apply filter_In in Hx as [Hx Hnan].
  apply loc_mask_incl in Hx. rewrite Forall_forall in H.
  rewrite (H x) in Hnan by now apply list_elem_of_In. discriminate Hnan.
Qed.

(** X11. When the feature table that [preprocess_simple] returns has at
    least one column, distinct row labels and no missing cell, and the raw
    table has at least two year columns, [preprocess_avg_NANs] returns
    exactly what [preprocess_simple] returns: there is nothing for the median
    fill or the interpolation to change. *)
Theorem preprocess_avg_NANs_on_complete_features
    (py_int : string -> option Z)
    (training_set : Frame string Meta) (submit_rows_index : list Z) (years_ahead : Z)
    (X : Frame Z unit) (Y : Series) :
  rectangular training_set ->
  (2 <= length (columns training_set))%nat ->
  preprocess_simple py_int training_set submit_rows_index years_ahead = Ok (X, Y) ->
  (1 <= length (columns X))%nat ->
  List.NoDup (map ix (rows X)) ->
  Forall (fun r => Forall (fun v => isnan v = false) (values r)) (rows X) ->
  preprocess_avg_NANs py_int training_set submit_rows_index years_ahead = Ok (X, Y).
Proof.
  intros Hrect Hn Hsimple Hcols Hnd Hfull. revert Hsimple.
  unfold preprocess_simple, preprocess_avg_NANs, median_recent_fill.
  destruct (loc training_set submit_rows_index) as [sel |] eqn:Hloc; bind_step;
    [| discriminate].
  destruct (rename_years py_int (drop_meta sel)) as [Xr |] eqn:Eren; bind_step;
    [| discriminate].
  destruct (iloc_col Xr (-1)) as [Y0 |] eqn:EY; bind_step; [| discriminate].
  intros [= HX ->]. rewrite HX.
  assert (Hrx : rectangular X).
  { subst X. apply iloc_cols_to_rectangular.
    unfold rename_years in Eren.
    destruct (mapM _ (columns (drop_meta sel))) as [cols |] eqn:Ecols;
      bind_step in Eren; [| discriminate].
    injection Eren as <-.
    pose proof (drop_meta_rectangular _ (loc_rectangular _ _ _ Hrect Hloc)) as H.
    unfold rectangular, drop_meta in *. cbn [columns rows] in *.
    now rewrite (mapM_length _ _ _ Ecols). }
  rewrite (iloc_col_last X Hrx) by exact Hcols. bind_step.
  rewrite (iloc_col_fifth_from_end training_set Hrect) by exact Hn. bind_step.
  rewrite foldM_id.
  - bind_step. rewrite interpolation_loop_rows by exact Hnd. bind_step.
    do 2 f_equal. destruct X as [cs rs]. cbn [columns rows] in *. f_equal.
    rewrite <- (map_id rs) at 2. apply map_ext_in. intros r Hr.
    rewrite Forall_forall in Hfull.
    unfold interpolate.
    rewrite fill_backward_complete by (apply Hfull; now apply list_elem_of_In).
    now destruct r.
  - intros ind _. apply fill_indicator_nothing_missing.
    apply Forall_forall. intros p Hp.
    apply list_elem_of_In, in_map_iff in Hp as (r & <- & Hr). cbn [snd].
    rewrite Forall_forall in Hfull.
    pose proof (Hfull r (proj2 (list_elem_of_In _ _) Hr)) as Hr_full.
    rewrite Forall_forall in Hr_full. apply Hr_full.
    apply list_elem_of_In, nth_In.
    unfold rectangular in Hrx. rewrite Forall_forall in Hrx.
    rewrite (Hrx r) by now apply list_elem_of_In. lia.
Qed.

Lemma preprocess_avg_NANs_on_complete_features_witness :
  preprocess_avg_NANs dec_int ex_training_set [11] 1
  = Ok (mkFrame [2005; 2006] [mkRow 11 [4%float; 5%float] tt], [(11, 6%float)]).
Proof.
  apply (preprocess_avg_NANs_on_complete_features dec_int ex_training_set [11] 1).
  - repeat constructor.
  - cbn. lia.
  - reflexivity.
  - cbn. lia.
  - repeat constructor. cbn. tauto.
  - repeat constructor.
Defined.

(** ** Known values are never overwritten *)

Lemma map_lookup {A B} (f : A -> B) (l : list A) (k : nat) :
  map f l !! k = option_map f (l !! k).
Proof.
  revert k. induction l as [| a l IH]; intros [| k]; cbn; auto.
Qed.

(** The per-indicator loop does not touch a selected row whose last feature
    cell is known, when row labels are distinct. *)
Lemma median_phase_untouched {L} (training_set full : Frame L Meta)
    (X0 X' : Frame Z unit) (g : Row Meta -> float) (lca : Series) (r : Row Meta) :
  List.NoDup (map ix (rows full)) ->
  In r (rows full) ->
  isnan (g r) = false ->
  foldM (fill_indicator training_set full (map (fun r => (ix r, g r)) (rows full)) lca)
        (np_unique (map (fun r => series_name (meta r)) (rows full))) X0 = Ok X' ->
  row_of X' (ix r) = row_of X0 (ix r).
Proof.
  intros Hnd Hr Hg.
  apply (foldM_rel (fun s s' : Frame Z unit => row_of s' (ix r) = row_of s (ix r)));
    [reflexivity | congruence |].
  intros X1 ind X2 _. rewrite fill_indicator_unfold.
  apply (foldM_rel (fun s s' : Frame Z unit => row_of s' (ix r) = row_of s (ix r)));
    [reflexivity | congruence |].
  intros X3 i X4 Hi H. apply (fill_index_row_of_other _ _ _ _ (ix r) H).
  apply NAN_labels_In in Hi as (r' & Hr' & _ & Hnan & Hi).
  intros E. rewrite (unique_label_eq (rows full) r' r) in Hnan
    by (congruence || assumption).
  rewrite Hnan in Hg. discriminate Hg.
Qed.

(** X12. [preprocess_avg_NANs] only ever fills missing cells: with distinct
    labels on the selected rows, every known feature value of every selected
    row is found unchanged, at the same row and column, in the feature table
    returned. *)
Theorem preprocess_avg_NANs_keeps_known_values
    (py_int : string -> option Z)
    (training_set sel : Frame string Meta) (submit_rows_index : list Z)
    (years_ahead : Z) (X : Frame Z unit) (Y : Series) (k : nat) (r : Row Meta) :
  rectangular training_set ->
  List.NoDup (map ix (rows sel)) ->
  loc training_set submit_rows_index = Ok sel ->
  preprocess_avg_NANs py_int training_set submit_rows_index years_ahead = Ok (X, Y) ->
  rows sel !! k = Some r ->
  exists r',
    rows X !! k = Some r' /\ ix r' = ix r /\
    forall (j : nat) (v : float),
      py_slice_to (values r) (-1 * years_ahead) !! j = Some v ->
      isnan v = false ->
      values r' !! j = Some v.
Proof.
  intros Hrect Hnd Hloc Hrun Hk.
  assert (Hr : In r (rows sel))
    by (apply list_elem_of_In; eapply list_elem_of_lookup_2; eassumption).
  unfold preprocess_avg_NANs in Hrun.
  destruct (median_recent_fill _ _ _ _) as [[X1 Y1] |] eqn:Em; bind_step in Hrun;
    [| discriminate].
  destruct (iterrows_update _ X1) as [X2 |] eqn:Ei; bind_step in Hrun; [| discriminate].
  injection Hrun as -> ->.
  revert Em. unfold median_recent_fill. rewrite Hloc. bind_step.
  destruct (rename_years py_int (drop_meta sel)) as [Xr |] eqn:Eren; bind_step;
    [| discriminate].
  unfold rename_years in Eren.
  destruct (mapM _ (columns (drop_meta sel))) as [cols |] eqn:Ecols;
    bind_step in Eren; [| discriminate].
  injection Eren as <-.
  destruct (iloc_col (mkFrame cols _) (-1)) as [Y0 |]; bind_step; [| discriminate].
  set (features := iloc_cols_to _ (-1 * years_ahead)).
  destruct (iloc_col features (-1)) as [lct |] eqn:Elct; bind_step; [| discriminate].
  destruct (iloc_col training_set (-5 + 3)) as [lca |] eqn:Elca; bind_step;
    [| discriminate].
  destruct (foldM _ _ features) as [X1' |] eqn:Efold; bind_step; [| discriminate].
  intros [= -> ->].
  assert (Hrf : rectangular features).
  { apply iloc_cols_to_rectangular.
    pose proof (drop_meta_rectangular _ (loc_rectangular _ _ _ Hrect Hloc)) as H.
    unfold rectangular, drop_meta in *. cbn [columns rows] in *.
    now rewrite (mapM_length _ _ _ Ecols). }
  set (h := fun r : Row Meta =>
              mkRow (ix r) (py_slice_to (values r) (-1 * years_ahead)) tt).
  assert (Hrows : rows features = map h (rows sel)).
  { unfold features, iloc_cols_to. cbn [rows]. now rewrite map_map. }
  assert (Hlabels : map ix (rows features) = map ix (rows sel)).
  { rewrite Hrows, map_map. reflexivity. }
  set (w := length (columns features)).
  set (g := fun r : Row Meta => nth (w - 1) (values (h r)) NaN).
  assert (Hlct : lct = map (fun r => (ix r, g r)) (rows sel)).
  { destruct (iloc_col_inv features 1 lct Hrf ltac:(lia) Elct) as [_ ->].
    rewrite Hrows, map_map. reflexivity. }
  subst lct.
  assert (Hin : In (h r) (rows features)) by (rewrite Hrows; now apply in_map).
  assert (Hw : length (values (h r)) = w).
  { unfold rectangular in Hrf. rewrite Forall_forall in Hrf.
    apply Hrf. now apply list_elem_of_In. }
  assert (Hw1 : last_written features X1).
  { revert Efold. apply foldM_rel.
    - apply last_written_refl.
    - apply last_written_trans.
    - intros s a s' _. apply fill_indicator_last_written. }
  assert (Hnd1 : List.NoDup (map ix (rows X1)))
    by (rewrite (last_written_labels _ _ Hw1), Hlabels; exact Hnd).
  (* the row at position [k] after the per-indicator loop *)
  assert (Hkf : rows features !! k = Some (h r))
    by (rewrite Hrows, map_lookup, Hk; reflexivity).
  destruct (Forall2_lookup_l _ _ _ _ _ (proj2 Hw1) Hkf)
    as (x1 & Hk1 & Hix1 & _ & Hlen1 & Hagree).
  rewrite interpolation_loop_rows in Ei by exact Hnd1.
  injection Ei as <-. cbn [rows].
  rewrite map_lookup, Hk1. cbn [option_map].
  eexists. split; [reflexivity |]. split; [exact Hix1 |].
  intros j v Hj Hv. cbn [values]. apply fill_backward_known; [| exact Hv].
  change (values (h r) !! j = Some v) in Hj.
  pose proof (lookup_lt_Some _ _ _ Hj) as Hjlt.
  destruct (Nat.eq_dec (S j) (length (values (h r)))) as [Elast | Hne].
  - (* the last feature cell is known: the loop left the row alone *)
    assert (Hg : isnan (g r) = false).
    { unfold g. rewrite <- Hw.
      replace (length (values (h r)) - 1)%nat with j by lia.
      now rewrite (nth_lookup_Some _ _ NaN _ Hj). }
    pose proof (median_phase_untouched training_set sel features X1 g lca r
                  Hnd Hr Hg Efold) as Hsame.
    assert (Hf0 : find (fun r' => ix r' =? ix (h r)) (rows features) = Some (h r)).
    { apply find_unique_label; [now rewrite Hlabels | exact Hin]. }
    assert (Hx1 : In x1 (rows X1))
      by (apply list_elem_of_In; eapply list_elem_of_lookup_2; eassumption).
    pose proof (find_unique_label (rows X1) x1 Hnd1 Hx1) as Hfind.
    rewrite Hix1 in Hfind. unfold row_of in Hsame. cbn [ix h] in Hsame, Hfind, Hf0.
    rewrite Hfind, Hf0 in Hsame. injection Hsame as ->. exact Hj.
  - rewrite Hagree by lia. exact Hj.
Qed.

Lemma preprocess_avg_NANs_keeps_known_values_witness :
  exists r',
    rows (fst ex_wide_result) !! 1%nat = Some r' /\ ix r' = 12 /\
    forall (j : nat) (v : float),
      py_slice_to [2%float; NaN; 1%float; NaN; NaN; NaN; NaN; NaN; 7%float; 9%float]
        (-1 * 1) !! j = Some v ->
      isnan v = false ->
      values r' !! j = Some v.
Proof.
  apply (preprocess_avg_NANs_keeps_known_values dec_int ex_wide_training_set
           ex_wide_selected ex_wide_index 1 (fst ex_wide_result) (snd ex_wide_result)
           1%nat
           (mkRow 12 [2%float; NaN; 1%float; NaN; NaN; NaN; NaN; NaN; 7%float; 9%float]
              (mkMeta "Bolivia" "SP.POP" "Population"))).
  - repeat constructor.
  - repeat constructor; cbn; intuition discriminate.
  - reflexivity.
  - vm_compute. reflexivity.
  - reflexivity.
Defined.

(** ** Fewer than nine feature columns *)

(** A loop fails with [e] when it reaches an element at which the body fails
    with [e] on every state satisfying [P], if the iterations before keep
    [P] and raise nothing but [e]. *)
Lemma foldM_fails {A S} `{EqDecision A} (Inv P : S -> Prop) (body : S -> A -> result S)
    (a : A) (e : exn) (l : list A) (s : S) :
  (forall s b s', In b l -> Inv s -> body s b = Ok s' ->
                  Inv s' /\ (b <> a -> P s -> P s')) ->
  (forall s b e', In b l -> Inv s -> body s b = Err e' -> e' = e) ->
  (forall s, Inv s -> P s -> body s a = Err e) ->
  In a l -> Inv s -> P s -> foldM body l s = Err e.
Proof.
  intros Hok Herr Hat. revert s.
  induction l as [| b l IH]; intros s Hin Hs HP; [destruct Hin |].
  cbn [foldM]. destruct (body s b) as [s1 | e'] eqn:Eb; bind_step.
  - destruct (Hok s b s1 (or_introl eq_refl) Hs Eb) as [Hs1 HP1].
    destruct (decide (b = a)) as [-> | Hne].
    + rewrite (Hat s Hs HP) in Eb. discriminate Eb.
    + apply IH; auto.
      * intros s0 b0 s0' Hb0. apply Hok. now right.
      * intros s0 b0 e0 Hb0. apply Herr. now right.
      * destruct Hin as [-> | Hin]; [contradiction | exact Hin].
  - f_equal. eapply (Herr s b); [now left | eassumption | eassumption].
Qed.

Lemma foldM_raises_only {A S} (Inv : S -> Prop) (body : S -> A -> result S)
    (e e' : exn) (l : list A) (s : S) :
  (forall s a s', In a l -> Inv s -> body s a = Ok s' -> Inv s') ->
  (forall s a e', In a l -> Inv s -> body s a = Err e' -> e' = e) ->
  Inv s -> foldM body l s = Err e' -> e' = e.
Proof.
  intros Hok Herr. revert s. induction l as [| a l IH]; intros s Hs; cbn [foldM];
    [discriminate |].
  destruct (body s a) as [s1 | e1] eqn:Ea; bind_step.
  - apply IH.
    + intros s0 b s0' Hb. apply Hok. now right.
    + intros s0 b e0 Hb. apply Herr. now right.
    + eapply Hok; [now left | eassumption | eassumption].
  - intros [= <-]. eapply Herr; [now left | eassumption | eassumption].
Qed.

Lemma read_cell_raises_IndexError {L M} (w : nat) (labels : list Z) (X : Frame L M)
    (pos i : Z) (e : exn) :
  wide_frame w labels X -> In i labels -> read_cell X pos i = Err e -> e = IndexError.
Proof.
  intros (_ & _ & Hl) Hi. unfold read_cell.
  destruct (py_index (columns X) pos); bind_step; [| congruence].
  rewrite <- Hl in Hi. destruct (find_label_some _ _ Hi) as [r ->]. bind_step.
  destruct (py_index (values r) pos); bind_step; congruence.
Qed.

Lemma write_cell_raises_IndexError {L M} (X : Frame L M) (pos i : Z) (v : float) (e : exn) :
  write_cell X pos i v = Err e -> e = IndexError.
Proof.
  unfold write_cell. destruct (py_index (columns X) pos); bind_step; congruence.
Qed.

Lemma fill_index_raises_IndexError {L M} (w : nat) (labels : list Z) (m : float)
    (X : Frame L M) (i : Z) (e : exn) :
  wide_frame w labels X -> In i labels -> fill_index m X i = Err e -> e = IndexError.
Proof.
  intros HX Hi. unfold fill_index.
  destruct (write_cell X (-1) i m) as [X1 | e1] eqn:E1; bind_step.
  2:{ intros [= <-]. eapply write_cell_raises_IndexError; eassumption. }
  assert (HX1 : wide_frame w labels X1)
    by (eapply wide_frame_last_written; [| eapply write_cell_last_written]; eassumption).
  generalize lookback. intros recent.
  induction recent as [| k recent IH]; cbn [scan_recent]; [discriminate |].
  destruct (read_cell X1 (- k) i) as [v | e1] eqn:Ev; bind_step.
  - destruct (isnan v); cbn [negb]; [exact IH |].
    apply write_cell_raises_IndexError.
  - intros [= <-]. eapply read_cell_raises_IndexError; eassumption.
Qed.

Lemma fill_index_wide {L M} (w : nat) (labels : list Z) (m : float)
    (X X' : Frame L M) (i : Z) :
  wide_frame w labels X -> fill_index m X i = Ok X' -> wide_frame w labels X'.
Proof.
  intros HX H. eapply wide_frame_last_written; [exact HX |].
  eapply fill_index_last_written; eassumption.
Qed.

(** The scan runs off the table when all the cells it can read are missing
    and the table is narrower than the lookback. *)
Lemma scan_recent_runs_off {L M} (w : nat) (labels : list Z) (X : Frame L M) (i : Z)
    (x : Row M) (recent : list Z) :
  wide_frame w labels X ->
  row_of X i = Some x ->
  (forall k, In k recent -> 0 < k /\
             (k <= Z.of_nat w -> py_index (values x) (- k) = Some NaN)) ->
  (exists k, In k recent /\ Z.of_nat w < k) ->
  scan_recent X i recent = Err IndexError.
Proof.
  intros (Hc & Hr & Hl) Hx. induction recent as [| k recent IH]; intros Hcells Hoff.
  - destruct Hoff as (k & [] & _).
  - cbn [scan_recent]. unfold read_cell. unfold row_of in Hx.
    destruct (Hcells k (or_introl eq_refl)) as [Hk Hnan].
    destruct (Z_le_gt_dec k (Z.of_nat w)) as [Hle | Hgt].
    + destruct (columns X) as [| c cs] eqn:Ec; [cbn in Hc; lia |].
      rewrite (py_index_neg (c :: cs) c) by lia. bind_step.
      rewrite Hx. bind_step. rewrite (Hnan Hle). bind_step. cbn [isnan negb].
      apply IH.
      * intros k' Hk'. apply Hcells. now right.
      * destruct Hoff as (k' & [-> | Hk'] & Hlt); [lia | eauto].
    + unfold py_index. rewrite py_pos_neg_out by lia. reflexivity.
Qed.

(** X13. With fewer than nine feature columns the lookback scan has no guard:
    if a selected row has all its feature cells missing,
    [preprocess_avg_NANs] raises [IndexError] instead of falling back to the
    median (labels of the selected rows distinct, at least two year
    columns, [0 < years_ahead]). *)
Theorem preprocess_avg_NANs_narrow_table_raises
    (py_int : string -> option Z)
    (training_set sel : Frame string Meta) (submit_rows_index : list Z)
    (years_ahead : Z) (cols : list Z) (r : Row Meta) :
  rectangular training_set ->
  List.NoDup (map ix (rows sel)) ->
  loc training_set submit_rows_index = Ok sel ->
  mapM (fun c => of_option ValueError (py_int (first_token c))) (columns training_set)
  = Ok cols ->
  (2 <= length (columns training_set))%nat ->
  0 < years_ahead < Z.of_nat (length (columns training_set)) ->
  Z.of_nat (length (columns training_set)) < 9 + years_ahead ->
  In r (rows sel) ->
  Forall (fun v => v = NaN) (py_slice_to (values r) (-1 * years_ahead)) ->
  preprocess_avg_NANs py_int training_set submit_rows_index years_ahead = Err IndexError.
Proof.
  intros Hrect Hnd Hloc Hcols Hn Hya Hnarrow Hr Hmissing.
  pose proof (mapM_length _ _ _ Hcols) as Hlen.
  unfold preprocess_avg_NANs, median_recent_fill. rewrite Hloc. bind_step.
  rewrite <- (loc_columns _ _ _ Hloc) in Hcols.
  destruct (rename_years_spec py_int (drop_meta sel) cols Hcols) as [-> _]. bind_step.
  assert (Hrr : rectangular (mkFrame cols (rows (drop_meta sel)))).
  { pose proof (drop_meta_rectangular _ (loc_rectangular _ _ _ Hrect Hloc)) as H.
    unfold rectangular, drop_meta in *. cbn [columns rows] in *.
    now rewrite Hlen, <- (loc_columns _ _ _ Hloc). }
  rewrite (iloc_col_last _ Hrr) by (cbn [columns]; lia). bind_step.
  set (features := iloc_cols_to _ (-1 * years_ahead)).
  pose proof (iloc_cols_to_rectangular _ (-1 * years_ahead) Hrr) as Hrf.
  fold features in Hrf.
  set (w := Z.to_nat (Z.of_nat (length (columns training_set)) - years_ahead)).
  assert (Hwc : length (columns features) = w).
  { unfold features, iloc_cols_to. cbn [columns].
    replace (-1 * years_ahead) with (- years_ahead) by lia.
    rewrite py_slice_to_neg, length_take by lia. lia. }
  rewrite (iloc_col_last features Hrf) by lia. bind_step.
  rewrite (iloc_col_fifth_from_end training_set Hrect) by lia. bind_step.
  set (h := fun r : Row Meta =>
              mkRow (ix r) (py_slice_to (values r) (-1 * years_ahead)) tt).
  assert (Hrows : rows features = map h (rows sel)).
  { unfold features, iloc_cols_to, drop_meta. cbn [rows]. now rewrite map_map. }
  assert (Hlabels : map ix (rows features) = map ix (rows sel)).
  { rewrite Hrows, map_map. reflexivity. }
  set (g := fun r : Row Meta => nth (length (columns features) - 1) (values (h r)) NaN).
  assert (Hlct : map (fun r0 : Row unit =>
                        (ix r0, nth (length (columns features) - 1) (values r0) NaN))
                     (rows features)
                 = map (fun r => (ix r, g r)) (rows sel)).
  { rewrite Hrows, map_map. reflexivity. }
  rewrite Hlct. clear Hlct.
  set (labels := map ix (rows sel)).
  assert (HX : wide_frame w labels features).
  { repeat split; [assumption | | exact Hlabels].
    unfold rectangular in Hrf. now rewrite Hwc in Hrf. }
  assert (Hg : g r = NaN).
  { unfold g. cbn [values h].
    destruct (nth_in_or_default (length (columns features) - 1)
                (py_slice_to (values r) (-1 * years_ahead)) NaN) as [Hin | ->];
      [| reflexivity].
    rewrite Forall_forall in Hmissing. apply Hmissing. now apply list_elem_of_In. }
  assert (Hx : row_of features (ix r) = Some (h r)).
  { apply (find_unique_label (rows features) (h r)); [now rewrite Hlabels |].
    rewrite Hrows. now apply in_map. }
  assert (Hlab : forall ind i, In i (NAN_labels sel g ind) -> In i labels).
  { intros ind i Hi. apply NAN_labels_In in Hi as (r' & Hr' & _ & _ & <-).
    now apply in_map. }
  set (P := fun X : Frame Z unit => row_of X (ix r) = Some (h r)).
  match goal with
  | |- context [foldM ?body ?l features] =>
      rewrite (foldM_fails (wide_frame w labels) P body (series_name (meta r))
                 IndexError l features); [reflexivity | | | | | exact HX | exact Hx]
  end.
  - (* iterations that return keep the table shape and the row of [r] *)
    intros X1 ind X2 _ HX1. rewrite fill_indicator_unfold. intros H. split.
    + eapply wide_frame_last_written; [exact HX1 |].
      revert H. apply foldM_rel;
        [apply last_written_refl | apply last_written_trans |].
      intros s i s' _. apply fill_index_last_written.
    + intros Hind. unfold P.
      enough (E : row_of X2 (ix r) = row_of X1 (ix r)) by now rewrite E.
      revert H.
      apply (foldM_rel (fun s s' : Frame Z unit => row_of s' (ix r) = row_of s (ix r)));
        [reflexivity | congruence |].
      intros X3 i X4 Hi H. apply (fill_index_row_of_other _ _ _ _ (ix r) H).
      apply NAN_labels_In in Hi as (r' & Hr' & Hname & _ & Hi).
      intros E. apply Hind. rewrite <- Hname.
      rewrite (unique_label_eq (rows sel) r' r); congruence || assumption.
  - (* iterations that raise raise IndexError *)
    intros X1 ind e' _ HX1. rewrite fill_indicator_unfold.
    apply (foldM_raises_only (wide_frame w labels)); [| | exact HX1].
    + intros s i s' _. apply fill_index_wide.
    + intros s i e0 Hi Hs. apply (fill_index_raises_IndexError w labels); eauto.
  - (* the indicator of [r] *)
    intros X1 HX1 HP1. rewrite fill_indicator_unfold.
    apply (foldM_fails (wide_frame w labels) P _ (ix r)); try assumption.
    + intros s i s' _ Hs H. split; [eapply fill_index_wide; eassumption |].
      intros Hi. unfold P. now rewrite (fill_index_row_of_other _ _ _ _ (ix r) H).
    + intros s i e0 Hi Hs. apply (fill_index_raises_IndexError w labels); eauto.
    + intros s Hs HPs. unfold fill_index.
      destruct (write_cell_last_ok w labels s (ix r)
                  (median_of_others training_set
                     (map (fun r0 : Row Meta =>
                             (ix r0, nth (length (columns training_set) - 2) (values r0) NaN))
                          (rows training_set)) (series_name (meta r)))
                  Hs ltac:(lia)) as (s1 & E1 & Hs1).
      rewrite E1. bind_step.
      pose proof (write_cell_row_of _ _ _ _ (ix r) _ E1) as Hrow1.
      rewrite Z.eqb_refl in Hrow1. unfold P in HPs. rewrite HPs in Hrow1.
      cbn [option_map] in Hrow1.
      eapply (scan_recent_runs_off w labels); [exact Hs1 | exact Hrow1 | |].
      * intros k Hk. split; [unfold lookback in Hk; cbn in Hk; lia |].
        intros Hle. cbn [values h].
        assert (H2 : 2 <= k) by (unfold lookback in Hk; cbn in Hk; lia).
        rewrite py_index_set_last_other by exact H2.
        assert (Hfl : length (py_slice_to (values r) (-1 * years_ahead)) = w)
          by (apply (selected_features_length training_set sel submit_rows_index);
              assumption || lia).
        rewrite (py_index_neg _ NaN) by lia. f_equal.
        destruct (nth_in_or_default
                    (length (py_slice_to (values r) (-1 * years_ahead)) - Z.to_nat k)
                    (py_slice_to (values r) (-1 * years_ahead)) NaN) as [Hin | ->];
          [| reflexivity].
        rewrite Forall_forall in Hmissing. apply Hmissing. now apply list_elem_of_In.
      * exists 9. split; [unfold lookback; cbn; tauto | lia].
    + apply NAN_labels_In. exists r. auto.
  - apply np_unique_In, in_map_iff. exists r. auto.
Qed.

Lemma preprocess_avg_NANs_narrow_table_raises_witness :
  preprocess_avg_NANs dec_int ex_training_set [10; 12] 1 = Err IndexError.
Proof.
  apply (preprocess_avg_NANs_narrow_table_raises dec_int ex_training_set
           (mkFrame (columns ex_training_set)
              [mkRow 10 [1%float; NaN; 3%float] (mkMeta "Kosovo" "NY.GDP" "GDP");
               mkRow 12 [NaN; NaN; 9%float] (mkMeta "Bolivia" "SP.POP" "Population")])
           [10; 12] 1 [2005; 2006; 2007]
           (mkRow 12 [NaN; NaN; 9%float] (mkMeta "Bolivia" "SP.POP" "Population"))).
  - repeat constructor.
  - repeat constructor; cbn; intuition discriminate.
  - reflexivity.
  - reflexivity.
  - cbn. lia.
  - cbn. lia.
  - cbn. lia.
  - cbn. tauto.
  - repeat constructor.
Defined.

(** ** The average-table path, cell by cell *)

Lemma impute_row_cells tuple_str cont_avgs cols (row : Row (Meta * string)) cells
    (j : nat) name v :
  impute_row tuple_str cont_avgs cols row = Ok cells ->
  cols !! j = Some name ->
  values row !! j = Some v ->
  exists v', cells !! j = Some v' /\
             impute_indyrcontavg tuple_str cont_avgs name v
               (series_code (fst (meta row))) (snd (meta row)) = Ok v'.
Proof.
  unfold impute_row. intros H Hc Hv.
  destruct (mapM_lookup _ _ _ j (name, v) H) as (b & Hb & Hl).
  { apply lookup_zip_with_Some. eauto. }
  exists b. split; assumption.
Qed.

Lemma impute_row_no_gap tuple_str (cont_avgs : gmap string float) cols
    (row : Row (Meta * string)) cells :
  (forall key v, cont_avgs !! key = Some v -> isnan v = false) ->
  impute_row tuple_str cont_avgs cols row = Ok cells ->
  Forall (fun v => isnan v = false) cells.
Proof.
  intros Htable. unfold impute_row. apply mapM_Forall.
  intros [name v] b _. unfold impute_indyrcontavg.
  destruct (isnan v) eqn:Hv.
  - destruct (cont_avgs !! _) as [v' |] eqn:Ek; cbn; [| discriminate].
    intros [= <-]. eauto.
  - intros [= <-]. exact Hv.
Qed.

(** The average-table path written out, for distinct labels of the selected
    rows: the labels renamed, every selected row imputed, the year cells cut
    at [years_ahead] and the last year cell taken as the target. *)
Lemma continent_path_explicit
    (py_int : string -> option Z)
    (countries_get alpha2 : string -> option string)
    (tuple_str : string -> string -> label -> string)
    (cont_avgs : gmap string float)
    (training_set : Frame string Meta) (X_with_cont X_submit : Frame string (Meta * string))
    (submit_rows_index : list Z) (years_ahead : Z)
    (X : Frame label unit) (Y : Series) :
  rectangular training_set ->
  preprocess_continents countries_get alpha2 training_set = Ok X_with_cont ->
  loc X_with_cont submit_rows_index = Ok X_submit ->
  List.NoDup (map ix (rows X_submit)) ->
  preprocess_with_continent_interpolation py_int countries_get alpha2 tuple_str
    cont_avgs training_set submit_rows_index years_ahead = Ok (X, Y) ->
  exists cols rs,
    mapM (rename_cols py_int) (columns training_set) = Ok cols /\
    mapM (updated_row (impute_row tuple_str cont_avgs cols)) (rows X_submit) = Ok rs /\
    (1 <= length cols)%nat /\
    Forall (fun r => length (values r) = length cols) rs /\
    X = mkFrame (py_slice_to cols (-1 * years_ahead))
          (map (fun r => mkRow (ix r) (py_slice_to (values r) (-1 * years_ahead)) tt) rs) /\
    Y = map (fun r => (ix r, nth (length cols - 1) (values r) NaN)) rs.
Proof.
  intros Hrect Hpc Hloc Hnd.
  unfold preprocess_with_continent_interpolation. rewrite Hpc. bind_step.
  rewrite Hloc. bind_step.
  rewrite (loc_columns _ _ _ Hloc),
    (preprocess_continents_columns _ _ _ _ Hpc).
  destruct (mapM (rename_cols py_int) (columns training_set)) as [cols |] eqn:Ecols;
    bind_step; [| discriminate].
  rewrite iterrows_update_unique by exact Hnd. cbn [rows columns].
  destruct (mapM _ (rows X_submit)) as [rs |] eqn:Ers; bind_step; [| discriminate].
  assert (Hsub : rectangular X_submit).
  { eapply loc_rectangular; [| exact Hloc].
    eapply preprocess_continents_rectangular; eassumption. }
  assert (Hlen : Forall (fun r : Row (Meta * string) =>
                           length (values r) = length cols) rs).
  { revert Ers. apply mapM_Forall. intros r r' Hr. unfold updated_row.
    destruct (impute_row _ _ _ r) as [cells |] eqn:Ec; bind_step; [| discriminate].
    intros [= <-]. cbn [values].
    apply (impute_row_length _ _ _ _ _) in Ec; [exact Ec |].
    unfold rectangular in Hsub. rewrite Forall_forall in Hsub.
    rewrite (Hsub r) by now apply list_elem_of_In.
    rewrite (loc_columns _ _ _ Hloc), (preprocess_continents_columns _ _ _ _ Hpc).
    symmetry. exact (mapM_length _ _ _ Ecols). }
  assert (Hrr : rectangular (drop_meta (mkFrame cols rs))).
  { unfold rectangular, drop_meta. cbn [columns rows].
    rewrite Forall_map. exact Hlen. }
  destruct (iloc_col (drop_meta (mkFrame cols rs)) (-1)) as [Y0 |] eqn:EY; bind_step;
    [| discriminate].
  apply (iloc_col_inv _ 1 _ Hrr) in EY; [| lia].
  destruct EY as [Hn ->]. intros [= <- <-].
  exists cols, rs. cbn [columns drop_meta] in Hn.
  repeat split; try assumption; try reflexivity.
  - lia.
  - unfold iloc_cols_to, drop_meta. cbn [columns rows]. now rewrite map_map.
  - unfold drop_meta. cbn [columns rows]. now rewrite map_map.
Qed.

(** X14. On the average-table path with distinct selected labels, the
    selected row at position [k] is imputed as a whole before the split:
    a known cell is kept, a missing cell becomes the table entry under the
    key of the row's series code, its continent and the renamed column
    label. [X] carries the imputed cells cut at [years_ahead], and the
    target [Y] is the last imputed cell, so a missing target is filled from
    the table too. *)
Theorem continent_interpolation_cells
    (py_int : string -> option Z)
    (countries_get alpha2 : string -> option string)
    (tuple_str : string -> string -> label -> string)
    (cont_avgs : gmap string float)
    (training_set : Frame string Meta) (X_with_cont X_submit : Frame string (Meta * string))
    (submit_rows_index : list Z) (years_ahead : Z)
    (X : Frame label unit) (Y : Series) (k : nat) (r : Row (Meta * string)) :
  rectangular training_set ->
  preprocess_continents countries_get alpha2 training_set = Ok X_with_cont ->
  loc X_with_cont submit_rows_index = Ok X_submit ->
  List.NoDup (map ix (rows X_submit)) ->
  preprocess_with_continent_interpolation py_int countries_get alpha2 tuple_str
    cont_avgs training_set submit_rows_index years_ahead = Ok (X, Y) ->
  rows X_submit !! k = Some r ->
  exists cells,
    length cells = length (columns training_set) /\
    rows X !! k = Some (mkRow (ix r) (py_slice_to cells (-1 * years_ahead)) tt) /\
    Y !! k = Some (ix r, nth (length (columns training_set) - 1) cells NaN) /\
    forall (j : nat) c v,
      columns training_set !! j = Some c ->
      values r !! j = Some v ->
      exists name v',
        rename_cols py_int c = Ok name /\
        cells !! j = Some v' /\
        (isnan v = false -> v' = v) /\
        (isnan v = true ->
         cont_avgs !! tuple_str (series_code (fst (meta r))) (snd (meta r)) name
         = Some v').
Proof.
  intros Hrect Hpc Hloc Hnd Hrun Hk.
  destruct (continent_path_explicit _ _ _ _ _ _ _ _ _ _ _ _ Hrect Hpc Hloc Hnd Hrun)
    as (cols & rs & Hcols & Hrs & Hn & Hlen & -> & ->).
  pose proof (mapM_length _ _ _ Hcols) as Hcl.
  destruct (mapM_lookup _ _ _ k r Hrs Hk) as (r' & Hr' & Hrk).
  unfold updated_row in Hr'.
  destruct (impute_row tuple_str cont_avgs cols r) as [cells |] eqn:Ec;
    bind_step in Hr'; [| discriminate].
  injection Hr' as <-.
  exists cells. repeat split.
  - rewrite Forall_forall in Hlen.
    specialize (Hlen _ (list_elem_of_lookup_2 _ _ _ Hrk)). cbn [values] in Hlen. lia.
  - cbn [rows]. rewrite map_lookup, Hrk. reflexivity.
  - unfold Series. rewrite map_lookup, Hrk. cbn. now rewrite Hcl.
  - intros j c v Hc Hv.
    destruct (mapM_lookup _ _ _ j c Hcols Hc) as (name & Hname & Hcj).
    destruct (impute_row_cells _ _ _ _ _ j name v Ec Hcj Hv) as (v' & Hv' & Himp).
    exists name, v'. repeat split; try assumption.
    + intros Hknown. unfold impute_indyrcontavg in Himp. rewrite Hknown in Himp.
      congruence.
    + intros Hmiss. unfold impute_indyrcontavg in Himp. rewrite Hmiss in Himp.
      destruct (cont_avgs !! _); cbn in Himp; congruence.
Qed.

(** X15. When the average table holds no missing value and the selected
    labels are distinct, what the average-table path returns has no
    missing value left, neither in [X] nor in the target [Y]. *)
Theorem continent_interpolation_leaves_no_gap
    (py_int : string -> option Z)
    (countries_get alpha2 : string -> option string)
    (tuple_str : string -> string -> label -> string)
    (cont_avgs : gmap string float)
    (training_set : Frame string Meta) (X_with_cont X_submit : Frame string (Meta * string))
    (submit_rows_index : list Z) (years_ahead : Z)
    (X : Frame label unit) (Y : Series) :
  (forall key v, cont_avgs !! key = Some v -> isnan v = false) ->
  rectangular training_set ->
  preprocess_continents countries_get alpha2 training_set = Ok X_with_cont ->
  loc X_with_cont submit_rows_index = Ok X_submit ->
  List.NoDup (map ix (rows X_submit)) ->
  preprocess_with_continent_interpolation py_int countries_get alpha2 tuple_str
    cont_avgs training_set submit_rows_index years_ahead = Ok (X, Y) ->
  Forall (fun r => Forall (fun v => isnan v = false) (values r)) (rows X) /\
  Forall (fun p => isnan (snd p) = false) Y.
Proof.
  intros Htable Hrect Hpc Hloc Hnd Hrun.
  destruct (continent_path_explicit _ _ _ _ _ _ _ _ _ _ _ _ Hrect Hpc Hloc Hnd Hrun)
    as (cols & rs & Hcols & Hrs & Hn & Hlen & -> & ->).
  assert (Hfull : Forall (fun r : Row (Meta * string) =>
                            Forall (fun v => isnan v = false) (values r)) rs).
  { revert Hrs. apply mapM_Forall. intros r r' _. unfold updated_row.
    destruct (impute_row _ _ _ r) as [cells |] eqn:Ec; bind_step; [| discriminate].
    intros [= <-]. cbn [values]. eapply impute_row_no_gap; eassumption. }
  cbn [rows]. split; rewrite Forall_map.
  - eapply Forall_impl; [exact Hfull |]. intros r Hr. cbn [values].
    unfold py_slice_to. rewrite Forall_forall in Hr |- *.
    intros v Hv. apply Hr. apply list_elem_of_In. apply list_elem_of_In in Hv.
    match type of Hv with
    | In _ (firstn ?n ?l) => rewrite <- (firstn_skipn n l)
    end.
    apply in_or_app. now left.
  - rewrite Forall_forall in Hfull, Hlen |- *. intros r Hr. cbn [snd].
    specialize (Hfull r Hr). specialize (Hlen r Hr).
    rewrite Forall_forall in Hfull. apply Hfull. apply list_elem_of_In.
    apply nth_In. lia.
Qed.

Lemma continent_interpolation_cells_witness :
  exists cells,
    length cells = 3%nat /\
    rows (mkFrame [Year 2005; Year 2006]
            [mkRow 10 [1%float; 7%float] tt; mkRow 11 [4%float; 5%float] tt]) !! 0%nat
    = Some (mkRow 10 (py_slice_to cells (-1 * 1)) tt) /\
    [(10, 3%float); (11, 6%float)] !! 0%nat = Some (10, nth (3 - 1) cells NaN) /\
    forall (j : nat) c v,
      columns ex_training_set !! j = Some c ->
      [1%float; NaN; 3%float] !! j = Some v ->
      exists name v',
        rename_cols dec_int c = Ok name /\
        cells !! j = Some v' /\
        (isnan v = false -> v' = v) /\
        (isnan v = true -> ex_cont_avgs !! ex_tuple_str "NY.GDP" "EU" name = Some v').
Proof.
  apply (continent_interpolation_cells dec_int (fun _ => None) (fun _ => None)
           ex_tuple_str ex_cont_avgs ex_training_set ex_tagged_training_set
           ex_tagged_selected [10; 11] 1
           (mkFrame [Year 2005; Year 2006]
              [mkRow 10 [1%float; 7%float] tt; mkRow 11 [4%float; 5%float] tt])
           [(10, 3%float); (11, 6%float)] 0
           (mkRow 10 [1%float; NaN; 3%float] (mkMeta "Kosovo" "NY.GDP" "GDP", "EU"))).
  - repeat constructor.
  - reflexivity.
  - reflexivity.
  - repeat constructor; cbn; intuition discriminate.
  - vm_compute. reflexivity.
  - reflexivity.
Defined.

Lemma continent_interpolation_leaves_no_gap_witness :
  Forall (fun r => Forall (fun v => isnan v = false) (values r))
    (rows (mkFrame [Year 2005; Year 2006]
             [mkRow 10 [1%float; 7%float] tt; mkRow 11 [4%float; 5%float] tt])) /\
  Forall (fun p => isnan (snd p) = false) [(10, 3%float); (11, 6%float)].
Proof.
  apply (continent_interpolation_leaves_no_gap dec_int (fun _ => None) (fun _ => None)
           ex_tuple_str ex_cont_avgs ex_training_set ex_tagged_training_set
           ex_tagged_selected [10; 11] 1).
  - intros key v H. unfold ex_cont_avgs in H.
    apply lookup_singleton_Some in H as [_ <-]. reflexivity.
  - repeat constructor.
  - reflexivity.
  - reflexivity.
  - repeat constructor; cbn; intuition discriminate.
  - vm_compute. reflexivity.
Defined.

(** ** When [preprocess_simple] raises *)

Lemma mapM_raises_at {A B} (f : A -> result B) (l : list A) (e : exn) :
  mapM f l = Err e -> exists a, In a l /\ f a = Err e.
Proof.
  induction l as [| x l IH]; cbn; [discriminate |].
  destruct (f x) as [b | e'] eqn:Ex; cbn.
  - destruct (mapM f l) as [bs | e'']; cbn; [discriminate |].
    intros [= <-]. destruct (IH eq_refl) as (a & Ha & Hfa). eauto.
  - intros [= <-]. eauto.
Qed.

(** X16. On a rectangular table [preprocess_simple] raises in exactly three
    situations: the row selection raises; a year label has no integer before
    its first space ([ValueError]); the table has no year column
    ([IndexError]). No value of [years_ahead] makes it raise. *)
Theorem preprocess_simple_failure_modes
    (py_int : string -> option Z)
    (training_set : Frame string Meta) (submit_rows_index : list Z) (years_ahead : Z)
    (e : exn) :
  rectangular training_set ->
  preprocess_simple py_int training_set submit_rows_index years_ahead = Err e <->
  loc training_set submit_rows_index = Err e \/
  (exists sel, loc training_set submit_rows_index = Ok sel) /\
  (e = ValueError /\
   (exists c, In c (columns training_set) /\ py_int (first_token c) = None) \/
   e = IndexError /\ columns training_set = []).
Proof.
  intros Hrect. unfold preprocess_simple.
  destruct (loc training_set submit_rows_index) as [sel | e0] eqn:Hloc; bind_step.
  2:{ split; [intros [= <-]; now left |].
      intros [[= <-] | [[sel [=]] _]]. reflexivity. }
  unfold rename_years. cbn [columns drop_meta]. rewrite (loc_columns _ _ _ Hloc).
  destruct (mapM _ (columns training_set)) as [cols |] eqn:Ecols; bind_step.
  - pose proof (mapM_length _ _ _ Ecols) as Hlen.
    assert (Hrr : rectangular (mkFrame cols (rows (drop_meta sel)))).
    { pose proof (drop_meta_rectangular _ (loc_rectangular _ _ _ Hrect Hloc)) as H.
      unfold rectangular, drop_meta in *. cbn [columns rows] in *.
      now rewrite Hlen, <- (loc_columns _ _ _ Hloc). }
    destruct (columns training_set) as [| c cs] eqn:Ec.
    + cbn in Ecols. injection Ecols as <-.
      assert (Ei : iloc_col (mkFrame (@nil Z) (rows (drop_meta sel))) (-1)
                   = Err IndexError) by reflexivity.
      rewrite Ei. bind_step. split.
      * intros [= <-]. right. split; [eauto |]. right. split; reflexivity.
      * intros [[=] | [_ [[_ (c & [] & _)] | [-> _]]]]. reflexivity.
    + rewrite (iloc_col_last _ Hrr) by (cbn [columns]; rewrite Hlen; cbn; lia).
      bind_step. split; [discriminate |].
      intros [[=] | [_ [[-> (c' & Hc' & Hint)] | [_ [=]]]]].
      assert (E : mapM (fun c => of_option ValueError (py_int (first_token c))) (c :: cs)
                  = Err ValueError).
      { apply (mapM_raises _ ValueError _ c'); [| exact Hc' | now rewrite Hint].
        intros x e'. destruct (py_int (first_token x)); cbn; congruence. }
      congruence.
  - destruct (mapM_raises_at _ _ _ Ecols) as (c & Hc & Hfc).
    destruct (py_int (first_token c)) eqn:Hint; cbn in Hfc; [discriminate |].
    injection Hfc as <-.
    split.
    + intros [= <-]. right. split; [eauto |]. left. split; [reflexivity | eauto].
    + intros [[=] | [_ [[-> _] | [_ Hnil]]]]; [reflexivity |].
      rewrite Hnil in Hc. destruct Hc.
Qed.

Lemma preprocess_simple_failure_modes_witness :
  preprocess_simple dec_int (mkFrame [] [mkRow 10 [] (mkMeta "Kosovo" "NY.GDP" "GDP")])
    [10] 1 = Err IndexError <->
  loc (mkFrame (@nil string) [mkRow 10 [] (mkMeta "Kosovo" "NY.GDP" "GDP")]) [10]
  = Err IndexError \/
  (exists sel,
     loc (mkFrame (@nil string) [mkRow 10 [] (mkMeta "Kosovo" "NY.GDP" "GDP")]) [10]
     = Ok sel) /\
  (IndexError = ValueError /\
   (exists c,
      In c (columns (mkFrame (@nil string) [mkRow 10 [] (mkMeta "Kosovo" "NY.GDP" "GDP")]))
      /\ dec_int (first_token c) = None) \/
   IndexError = IndexError /\
   columns (mkFrame (@nil string) [mkRow 10 [] (mkMeta "Kosovo" "NY.GDP" "GDP")]) = []).
Proof.
  apply (preprocess_simple_failure_modes dec_int
           (mkFrame [] [mkRow 10 [] (mkMeta "Kosovo" "NY.GDP" "GDP")]) [10] 1 IndexError).
  repeat constructor.
Defined.

(** ** Grouping for visualisation *)

Lemma string_lt_trans (a b c : string) : string_lt a b -> string_lt b c -> string_lt a c.
Proof.
  unfold string_lt. revert b c.
  induction a as [| a0 a IH]; intros [| b0 b] [| c0 c]; cbn [String.compare];
    try congruence.
  unfold Ascii.compare.
  destruct (N.compare_spec (N_of_ascii a0) (N_of_ascii b0)) as [E1 | L1 | G1];
    try discriminate;
    destruct (N.compare_spec (N_of_ascii b0) (N_of_ascii c0)) as [E2 | L2 | G2];
    try discriminate;
    destruct (N.compare_spec (N_of_ascii a0) (N_of_ascii c0)) as [E3 | L3 | G3];
    try lia; try reflexivity.
  apply IH.
Qed.

Lemma string_lt_irrefl (a : string) : ~ string_lt a a.
Proof.
  unfold string_lt. intros H.
  pose proof (String.compare_antisym a a) as E. rewrite H in E. discriminate E.
Qed.

Lemma insert_unique_Sorted (s : string) (l : list string) :
  Sorted string_lt l -> Sorted string_lt (insert_unique s l).
Proof.
  induction l as [| x l IH]; intros Hs; cbn [insert_unique].
  - repeat constructor.
  - destruct (String.compare s x) eqn:E.
    + exact Hs.
    + constructor; [exact Hs | constructor; exact E].
    + inversion Hs as [| ? ? Hl Hhd]; subst.
      constructor; [apply IH, Hl |].
      assert (Hxs : string_lt x s).
      { unfold string_lt. rewrite String.compare_antisym, E. reflexivity. }
      destruct l as [| y l]; cbn [insert_unique]; [now constructor |].
      destruct (String.compare s y); constructor; try assumption.
      * now inversion Hhd.
      * now inversion Hhd.
Qed.

(** [np.unique] returns its values in strictly ascending order. *)
Lemma np_unique_Sorted (l : list string) : Sorted string_lt (np_unique l).
Proof.
  unfold np_unique. induction l as [| s l IH]; cbn [foldr]; [constructor |].
  now apply insert_unique_Sorted.
Qed.

Lemma Sorted_string_lt_NoDup (l : list string) : Sorted string_lt l -> List.NoDup l.
Proof.
  intros Hs. apply Sorted_StronglySorted in Hs;
    [| intros a b c; apply string_lt_trans].
  induction Hs as [| a l Hl IH Ha]; constructor; [| exact IH].
  intros Hin. rewrite Forall_forall in Ha.
  apply (string_lt_irrefl a), Ha. now apply list_elem_of_In.
Qed.

Lemma filter_either_perm {A} (p q : A -> bool) (l : list A) :
  (forall x, p x = true -> q x = true -> False) ->
  Permutation (List.filter p l ++ List.filter q l)
              (List.filter (fun x => p x || q x) l).
Proof.
  intros Hpq. induction l as [| a l IH]; cbn [List.filter]; [constructor |].
  destruct (p a) eqn:Hp, (q a) eqn:Hq; cbn [orb app].
  - destruct (Hpq a Hp Hq).
  - now constructor.
  - rewrite <- Permutation_middle. now constructor.
  - exact IH.
Qed.

(** Filtering by each of a list of distinct keys in turn splits the elements
    whose key is listed. *)
Lemma filter_by_keys_perm {A} (key : A -> string) (keys : list string) (l : list A) :
  List.NoDup keys ->
  Permutation (concat (map (fun k => List.filter (fun x => String.eqb (key x) k) l) keys))
              (List.filter (fun x => existsb (String.eqb (key x)) keys) l).
Proof.
  induction 1 as [| k keys Hk Hnd IH]; cbn [map concat existsb].
  - induction l as [| a l IHl]; cbn; [constructor | exact IHl].
  - rewrite IH. apply filter_either_perm.
    intros x Hx Hex. apply String.eqb_eq in Hx. subst k.
    apply Hk. apply existsb_exists in Hex as (k' & Hk' & E).
    apply String.eqb_eq in E. now subst.
Qed.

Lemma filter_all {A} (p : A -> bool) (l : list A) :
  (forall x, In x l -> p x = true) -> List.filter p l = l.
Proof.
  induction l as [| a l IH]; intros H; cbn [List.filter]; [reflexivity |].
  rewrite (H a (or_introl eq_refl)). f_equal. apply IH. intros x Hx. apply H. now right.
Qed.

Lemma concat_names_drop_meta {L} (cols : list L) (X : Frame string Meta) :
  concat_names (mkFrame cols (rows (drop_meta X))) (map meta (rows X))
  = mkFrame cols (rows X).
Proof.
  unfold concat_names, drop_meta. cbn [columns rows]. f_equal.
  induction (rows X) as [| [i vs m] l IH]; cbn; [reflexivity |]. now rewrite IH.
Qed.

(** X17. [preprocess_for_viz] returns whenever the rows can be selected and
    every year label starts with an integer; nothing is cut off for
    [years_ahead]. Its groups are keyed by the Series Names of the selected
    rows in strictly ascending order; each group has all the year
    columns, renamed, and exactly the selected rows with its name, in the
    order of the selection, and is not empty. Every selected row is in the
    group of its name, and the groups together are a rearrangement of the
    selected rows. *)
Theorem preprocess_for_viz_groups
    (py_int : string -> option Z)
    (training_set sel : Frame string Meta) (submit_rows_index : list Z)
    (cols : list Z) :
  loc training_set submit_rows_index = Ok sel ->
  mapM (fun c => of_option ValueError (py_int (first_token c))) (columns training_set)
  = Ok cols ->
  exists gb,
    preprocess_for_viz py_int training_set submit_rows_index = Ok gb /\
    Sorted string_lt (map fst gb) /\
    List.NoDup (map fst gb) /\
    (forall key g,
       In (key, g) gb ->
       columns g = cols /\ rows g <> [] /\
       rows g = List.filter (fun r => String.eqb (series_name (meta r)) key) (rows sel)) /\
    (forall r, In r (rows sel) ->
               exists g, In (series_name (meta r), g) gb /\ In r (rows g)) /\
    Permutation (concat (map (fun kg => rows (snd kg)) gb)) (rows sel).
Proof.
  intros Hloc Hcols.
  unfold preprocess_for_viz. rewrite Hloc. bind_step.
  unfold rename_years. cbn [columns drop_meta]. rewrite (loc_columns _ _ _ Hloc), Hcols.
  bind_step.
  change (rows {| columns := columns sel;
                  rows := map (fun r : Row Meta => mkRow (ix r) (values r) tt) (rows sel) |})
    with (rows (drop_meta sel)).
  rewrite concat_names_drop_meta.
  eexists. split; [reflexivity |].
  unfold groupby_series_name. cbn [columns rows].
  set (keys := np_unique (map (fun r : Row Meta => series_name (meta r)) (rows sel))).
  assert (Hfst : forall (f : string -> Frame Z Meta),
             map fst (map (fun key => (key, f key)) keys) = keys).
  { intros f. rewrite map_map. cbn [fst]. apply map_id. }
  assert (Hsorted : Sorted string_lt keys) by apply np_unique_Sorted.
  rewrite Hfst. repeat split.
  - exact Hsorted.
  - now apply Sorted_string_lt_NoDup.
  - apply in_map_iff in H as (k & [= <- <-] & Hk). reflexivity.
  - apply in_map_iff in H as (k & [= <- <-] & Hk). cbn [rows].
    apply np_unique_In, in_map_iff in Hk as (r & Hname & Hr).
    intros E.
    assert (Hin : In r (List.filter (fun r0 : Row Meta =>
                                       String.eqb (series_name (meta r0)) k) (rows sel))).
    { apply filter_In. split; [exact Hr |]. now apply String.eqb_eq. }
    rewrite E in Hin. destruct Hin.
  - apply in_map_iff in H as (k & [= <- <-] & Hk). reflexivity.
  - intros r Hr. eexists. split.
    + apply in_map_iff. exists (series_name (meta r)). split; [reflexivity |].
      apply np_unique_In, in_map_iff. eauto.
    + cbn [rows]. apply filter_In. split; [exact Hr |]. apply String.eqb_refl.
  - rewrite map_map. cbn [snd rows].
    rewrite (filter_by_keys_perm (fun r : Row Meta => series_name (meta r)) keys (rows sel))
      by now apply Sorted_string_lt_NoDup.
    rewrite filter_all; [reflexivity |].
    intros r Hr. apply existsb_exists. exists (series_name (meta r)).
    split; [| apply String.eqb_refl].
    apply np_unique_In, in_map_iff. eauto.
Qed.

Lemma preprocess_for_viz_groups_witness :
  exists gb,
    preprocess_for_viz dec_int ex_training_set [12; 10; 11] = Ok gb /\
    Sorted string_lt (map fst gb) /\
    List.NoDup (map fst gb) /\
    (forall key g,
       In (key, g) gb ->
       columns g = [2005; 2006; 2007] /\ rows g <> [] /\
       rows g = List.filter (fun r => String.eqb (series_name (meta r)) key)
                  [mkRow 12 [NaN; NaN; 9%float] (mkMeta "Bolivia" "SP.POP" "Population");
                   mkRow 10 [1%float; NaN; 3%float] (mkMeta "Kosovo" "NY.GDP" "GDP");
                   mkRow 11 [4%float; 5%float; 6%float] (mkMeta "Moldova" "NY.GDP" "GDP")]) /\
    (forall r,
       In r [mkRow 12 [NaN; NaN; 9%float] (mkMeta "Bolivia" "SP.POP" "Population");
             mkRow 10 [1%float; NaN; 3%float] (mkMeta "Kosovo" "NY.GDP" "GDP");
             mkRow 11 [4%float; 5%float; 6%float] (mkMeta "Moldova" "NY.GDP" "GDP")] ->
       exists g, In (series_name (meta r), g) gb /\ In r (rows g)) /\
    Permutation (concat (map (fun kg => rows (snd kg)) gb))
      [mkRow 12 [NaN; NaN; 9%float] (mkMeta "Bolivia" "SP.POP" "Population");
       mkRow 10 [1%float; NaN; 3%float] (mkMeta "Kosovo" "NY.GDP" "GDP");
       mkRow 11 [4%float; 5%float; 6%float] (mkMeta "Moldova" "NY.GDP" "GDP")].
Proof.
  apply (preprocess_for_viz_groups dec_int ex_training_set
           (mkFrame (columns ex_training_set)
              [mkRow 12 [NaN; NaN; 9%float] (mkMeta "Bolivia" "SP.POP" "Population");
               mkRow 10 [1%float; NaN; 3%float] (mkMeta "Kosovo" "NY.GDP" "GDP");
               mkRow 11 [4%float; 5%float; 6%float] (mkMeta "Moldova" "NY.GDP" "GDP")])
           [12; 10; 11] [2005; 2006; 2007]).
  - reflexivity.
  - reflexivity.
Defined.

(** * The median fallback and the interpolated cells *)

(** ** The median that the fallback writes *)

(** [np_median] returns a median of its values. *)
Lemma np_median_is_median (l : list float) :
  Forall (fun v => isnan v = false) l -> is_median l (np_median l).
Proof.
  intros Hl. exists (np_sort l).
  split; [apply np_sort_perm |]. split; [now apply np_sort_sorted |]. reflexivity.
Qed.

(** The values [fill_indicator] passes to [np.median] are the known values
    of the specification. *)
Lemma indicator_median_known (training_set : Frame string Meta) (ind : string) :
  rectangular training_set ->
  (2 <= length (columns training_set))%nat ->
  indicator_median training_set ind
  = np_median (known_fifth_from_last training_set ind) /\
  Forall (fun v => isnan v = false) (known_fifth_from_last training_set ind).
Proof.
  intros Hrect Hn.
  assert (E : dropna
                (map (fun r => nth (length (columns training_set) - 2) (values r) NaN)
                     (List.filter (fun r => String.eqb (series_name (meta r)) ind)
                                  (rows training_set)))
              = known_fifth_from_last training_set ind).
  { unfold known_fifth_from_last, rectangular in *.
    induction Hrect as [| r rs Hr _ IH]; [reflexivity |].
    cbn [List.filter flat_map].
    destruct (String.eqb (series_name (meta r)) ind); [| exact IH].
    cbn [map dropna app].
    change (-5 + 3) with (- (2)).
    rewrite (py_index_neg (values r) NaN 2) by lia.
    rewrite Hr. change (Z.to_nat 2) with 2%nat.
    destruct (isnan _); cbn [app]; now rewrite IH. }
  split.
  - unfold indicator_median. now rewrite E.
  - rewrite <- E. apply dropna_known.
Qed.

(** C3. The table of the specification's end-to-end scenario, years 2000 to
    2007, with [years_ahead = 1], has seven feature columns. Its second GDP
    row is selected, its most recent feature cell is missing and no feature
    cell of it is known; the median of the known values of indicator GDP in
    the fifth column from the end of the raw table is 7. The claim has that
    row's most recent feature cell filled with 7, but
    [preprocess_avg_NANs] raises [IndexError]: after writing the median the
    lookback reads [X.columns[-8]] of a table of seven columns. *)
Theorem median_fallback_raises_on_eight_year_table :
  loc ex_eight_year_training_set [2]
  = Ok (mkFrame (columns ex_eight_year_training_set)
          [mkRow 2 [NaN; NaN; NaN; NaN; NaN; NaN; NaN; 5%float]
             (mkMeta "CountryB" "NY.GDP" "GDP")]) /\
  py_slice_to [NaN; NaN; NaN; NaN; NaN; NaN; NaN; 5%float] (-1 * 1) = repeat NaN 7 /\
  is_median (known_fifth_from_last ex_eight_year_training_set "GDP") 7%float /\
  preprocess_avg_NANs dec_int ex_eight_year_training_set [2] 1 = Err IndexError.
Proof.
  split; [reflexivity |]. split; [reflexivity |]. split; [| reflexivity].
  exists [7%float]. split; [reflexivity |]. split; [repeat constructor | reflexivity].
Qed.

(** X18. With the whole lookback in the table: take a table of one cell per
    column whose selected rows carry distinct labels, and a selected row
    whose most recent feature cell is missing and whose 2nd to 9th most
    recent feature cells exist and are all missing. In whatever
    [preprocess_avg_NANs] returns, the row of that label has in its most
    recent feature cell a median of the known values that the rows of the
    same indicator name, selected or not, hold in the fifth column from the
    end of the raw table; and [preprocess_avg_NANs] does return when the
    year labels parse and [years_ahead] is positive. *)
Theorem median_fallback_with_full_lookback
    (py_int : string -> option Z)
    (training_set sel : Frame string Meta) (submit_rows_index : list Z)
    (years_ahead : Z) (r : Row Meta) :
  rectangular training_set ->
  List.NoDup (map ix (rows sel)) ->
  loc training_set submit_rows_index = Ok sel ->
  In r (rows sel) ->
  let features := py_slice_to (values r) (-1 * years_ahead) in
  py_index features (-1) = Some NaN ->
  (forall k, 2 <= k <= 9 -> py_index features (- k) = Some NaN) ->
  (forall (X : Frame Z unit) (Y : Series),
     preprocess_avg_NANs py_int training_set submit_rows_index years_ahead = Ok (X, Y) ->
     exists r' m,
       In r' (rows X) /\ ix r' = ix r /\
       py_index (values r') (-1) = Some m /\
       is_median (known_fifth_from_last training_set (series_name (meta r))) m) /\
  (forall cols : list Z,
     mapM (fun c => of_option ValueError (py_int (first_token c))) (columns training_set)
     = Ok cols ->
     0 < years_ahead ->
     exists X Y,
       preprocess_avg_NANs py_int training_set submit_rows_index years_ahead
       = Ok (X, Y)).
Proof.
  intros Hrect Hnd Hloc Hr features Hlast Hnan. split.
  - intros X Y Hrun.
    destruct (avg_NANs_last_cell py_int training_set sel submit_rows_index years_ahead
                X Y r None Hrect Hnd Hloc Hrun Hr Hlast) as (r' & Hin & Hix & Hcell).
    { unfold lookback. cbn [scan_cells]. fold features.
      rewrite !Hnan by lia. reflexivity. }
    assert (Hn : (2 <= length (columns training_set))%nat).
    { pose proof (py_index_neg_length features 9 NaN ltac:(lia) (Hnan 9 ltac:(lia)))
        as H9.
      assert (Hle : (length features <= length (values r))%nat)
        by (unfold features, py_slice_to; rewrite length_take; lia).
      destruct (loc_rows _ _ _ _ Hloc Hr) as [Hin0 _].
      unfold rectangular in Hrect. rewrite Forall_forall in Hrect.
      specialize (Hrect r (proj2 (list_elem_of_In _ _) Hin0)). lia. }
    destruct (indicator_median_known training_set (series_name (meta r)) Hrect Hn)
      as [Em Hknown].
    exists r', (indicator_median training_set (series_name (meta r))).
    repeat split; try assumption.
    rewrite Em. now apply np_median_is_median.
  - intros cols Hcols Hya.
    eapply preprocess_avg_NANs_returns; try eassumption.
    pose proof (py_index_neg_length features 9 NaN ltac:(lia) (Hnan 9 ltac:(lia))) as H9.
    unfold features in H9.
    rewrite (selected_features_length _ _ _ _ _ Hrect Hloc Hr Hya) in H9. lia.
Qed.

Lemma median_fallback_with_full_lookback_witness :
  exists r' m,
    In r' (rows (fst ex_wide_result)) /\ ix r' = 14 /\
    py_index (values r') (-1) = Some m /\
    is_median (known_fifth_from_last ex_wide_training_set "GDP") m.
Proof.
  destruct (median_fallback_with_full_lookback dec_int ex_wide_training_set
              ex_wide_selected ex_wide_index 1
              (mkRow 14 [NaN; NaN; NaN; NaN; NaN; NaN; NaN; NaN; NaN; NaN]
                 (mkMeta "Tanzania" "NY.GDP" "GDP"))) as [H _].
  - repeat constructor.
  - repeat constructor; cbn; intuition discriminate.
  - reflexivity.
  - cbn. tauto.
  - reflexivity.
  - intros k Hk.
    assert (E : k = 2 \/ k = 3 \/ k = 4 \/ k = 5 \/ k = 6 \/ k = 7 \/ k = 8 \/ k = 9)
      by lia.
    destruct E as [-> | [-> | [-> | [-> | [-> | [-> | [-> | ->]]]]]]]; reflexivity.
  - apply (H (fst ex_wide_result) (snd ex_wide_result)). vm_compute. reflexivity.
Defined.

(** ** The interpolation loop, row by row *)

Lemma upto_In (n : nat) (s z : Z) : s <= z < s + Z.of_nat n -> In z (upto n s).
Proof.
  revert s. induction n as [| n IH]; intros s Hz; [lia |].
  cbn [upto]. destruct (Z.eq_dec s z) as [-> | Hne]; [now left | right].
  apply IH. lia.
Qed.

Lemma positions_exact_spec (np nd p d : Z) :
  positions_exact np nd = true -> 0 <= p < np -> 0 <= d < nd ->
  (float_of_pos (p + d) - float_of_pos p)%float = float_of_pos d.
Proof.
  intros H Hp Hd.
  unfold positions_exact in H. rewrite forallb_forall in H.
  assert (Hin : forall n z, 0 <= z < n -> In z (upto (Z.to_nat n) 0)).
  { intros n z Hz. apply upto_In. rewrite Z2Nat.id; lia. }
  specialize (H p (Hin np p Hp)). rewrite forallb_forall in H.
  specialize (H d (Hin nd d Hd)).
  now apply Leibniz.eqb_spec in H.
Qed.

Lemma positions_exact_square : positions_exact 1024 1024 = true.
Proof. vm_compute. reflexivity. Qed.


(** Differences of the positions in a row of fewer than 1024 cells are
    exact in binary64. *)
Lemma float_of_pos_diff (p d : Z) :
  0 <= p -> 0 <= d -> p + d < 1024 ->
  (float_of_pos (p + d) - float_of_pos p)%float = float_of_pos d.
Proof.
  intros Hp Hd Hpd.
  apply (positions_exact_spec 1024 1024); [apply positions_exact_square | |]; lia.
Qed.


Lemma interp_between_line (p n j : Z) (a b : float) :
  (float_of_pos (p + (n + 1)) - float_of_pos p)%float = float_of_pos (n + 1) ->
  (float_of_pos (p + (j + 1)) - float_of_pos p)%float = float_of_pos (j + 1) ->
  isnan (line_value a b (n + 1) (j + 1)) = false ->
  interp_between p a (p + n + 1) b (p + 1 + j) = line_value a b (n + 1) (j + 1).
Proof.
  intros Hn Hj Hv. unfold interp_between.
  replace (p + n + 1) with (p + (n + 1)) by lia.
  replace (p + 1 + j) with (p + (j + 1)) by lia.
  rewrite Hn, Hj.
  fold (line_value a b (n + 1) (j + 1)).
  unfold isnan in Hv. now rewrite Hv.
Qed.

(** A missing cell of a run between two known values, with a known value
    among the 50 cells after it, receives the [np.interp] value between the
    two. *)
Lemma interpolate_gap_cell (l1 l2 : list float) (a b : float) (n j : nat) :
  isnan a = false -> isnan b = false ->
  (j < n)%nat -> (n - j <= 50)%nat ->
  interpolate 50 (l1 ++ a :: repeat NaN n ++ b :: l2) !! (S (length l1) + j)%nat
  = Some (interp_between (Z.of_nat (length l1)) a
            (Z.of_nat (length l1) + Z.of_nat n + 1) b
            (Z.of_nat (length l1) + 1 + Z.of_nat j)).
Proof.
  intros Ha Hb Hj Hk.
  set (row := l1 ++ a :: repeat NaN n ++ b :: l2).
  set (x0 := Z.of_nat (length l1)).
  assert (Hrow : row = (l1 ++ a :: repeat NaN j)
                       ++ NaN :: (repeat NaN (n - j - 1) ++ b :: l2)).
  { unfold row. replace n with (j + S (n - j - 1))%nat at 1 by lia.
    rewrite repeat_app. cbn [repeat].
    repeat (rewrite <- app_assoc; cbn [app]). reflexivity. }
  unfold interpolate. rewrite Hrow at 2.
  replace (S (length l1) + j)%nat with (length (l1 ++ a :: repeat NaN j))
    by (rewrite length_app; cbn [length]; rewrite repeat_length; lia).
  rewrite fill_backward_lookup, filled_cell_NaN.
  rewrite forallb_isnan_known_within by (assumption || lia).
  f_equal. unfold row. rewrite valid_points_app.
  rewrite valid_points_known by assumption.
  rewrite valid_points_repeat_NaN, valid_points_known by assumption.
  rewrite length_app. cbn [length]. rewrite repeat_length.
  replace (0 + Z.of_nat (length l1 + S j)) with (x0 + 1 + Z.of_nat j)
    by (unfold x0; lia).
  rewrite np_interp_between.
  - f_equal; fold x0; lia.
  - intros [x y] Hp. apply valid_points_bounds in Hp. cbn. lia.
  - fold x0. lia.
Qed.


Lemma agree_but_last_prefix (pre suf c : list float) :
  agree_but_last (pre ++ suf) c -> suf <> [] ->
  exists suf', c = pre ++ suf'.
Proof.
  intros [Hlen Hagree] Hsuf. exists (drop (length pre) c).
  rewrite <- (take_drop (length pre) c) at 1. f_equal.
  assert (Hs : (0 < length suf)%nat) by (destruct suf; [congruence | cbn; lia]).
  rewrite length_app in Hlen, Hagree.
  apply list_eq. intros i.
  destruct (Nat.lt_ge_cases i (length pre)) as [Hi | Hi].
  - rewrite lookup_take_lt by assumption.
    rewrite Hagree by lia. now apply lookup_app_l.
  - rewrite lookup_take_ge by assumption. symmetry. now apply lookup_ge_None_2.
Qed.

(** The row that [preprocess_avg_NANs] returns for the selected row at
    position [k], when the labels of the selected rows are distinct: the
    interpolation of cells that are the row's feature cells up to the last
    one, and all of them when the last one is known. *)
Lemma avg_NANs_row
    (py_int : string -> option Z)
    (training_set sel : Frame string Meta) (submit_rows_index : list Z)
    (years_ahead : Z) (X : Frame Z unit) (Y : Series) (k : nat) (r : Row Meta) :
  rectangular training_set ->
  List.NoDup (map ix (rows sel)) ->
  loc training_set submit_rows_index = Ok sel ->
  preprocess_avg_NANs py_int training_set submit_rows_index years_ahead = Ok (X, Y) ->
  rows sel !! k = Some r ->
  exists c,
    rows X !! k = Some (mkRow (ix r) (interpolate 50 c) tt) /\
    agree_but_last (py_slice_to (values r) (-1 * years_ahead)) c /\
    (forall v, py_index (py_slice_to (values r) (-1 * years_ahead)) (-1) = Some v ->
               isnan v = false ->
               c = py_slice_to (values r) (-1 * years_ahead)).
Proof.
  intros Hrect Hnd Hloc Hrun Hk.
  assert (Hr : In r (rows sel))
    by (apply list_elem_of_In; eapply list_elem_of_lookup_2; eassumption).
  unfold preprocess_avg_NANs in Hrun.
  destruct (median_recent_fill _ _ _ _) as [[X1 Y1] |] eqn:Em; bind_step in Hrun;
    [| discriminate].
  destruct (iterrows_update _ X1) as [X2 |] eqn:Ei; bind_step in Hrun; [| discriminate].
  injection Hrun as -> ->.
  revert Em. unfold median_recent_fill. rewrite Hloc. bind_step.
  destruct (rename_years py_int (drop_meta sel)) as [Xr |] eqn:Eren; bind_step;
    [| discriminate].
  unfold rename_years in Eren.
  destruct (mapM _ (columns (drop_meta sel))) as [cols |] eqn:Ecols;
    bind_step in Eren; [| discriminate].
  injection Eren as <-.
  destruct (iloc_col (mkFrame cols _) (-1)) as [Y0 |]; bind_step; [| discriminate].
  set (features := iloc_cols_to _ (-1 * years_ahead)).
  destruct (iloc_col features (-1)) as [lct |] eqn:Elct; bind_step; [| discriminate].
  destruct (iloc_col training_set (-5 + 3)) as [lca |] eqn:Elca; bind_step;
    [| discriminate].
  destruct (foldM _ _ features) as [X1' |] eqn:Efold; bind_step; [| discriminate].
  intros [= -> ->].
  assert (Hrf : rectangular features).
  { apply iloc_cols_to_rectangular.
    pose proof (drop_meta_rectangular _ (loc_rectangular _ _ _ Hrect Hloc)) as H.
    unfold rectangular, drop_meta in *. cbn [columns rows] in *.
    now rewrite (mapM_length _ _ _ Ecols). }
  set (h := fun r : Row Meta =>
              mkRow (ix r) (py_slice_to (values r) (-1 * years_ahead)) tt).
  assert (Hrows : rows features = map h (rows sel)).
  { unfold features, iloc_cols_to. cbn [rows]. now rewrite map_map. }
  assert (Hlabels : map ix (rows features) = map ix (rows sel)).
  { rewrite Hrows, map_map. reflexivity. }
  set (w := length (columns features)).
  set (g := fun r : Row Meta => nth (w - 1) (values (h r)) NaN).
  assert (Hlct : lct = map (fun r => (ix r, g r)) (rows sel)).
  { destruct (iloc_col_inv features 1 lct Hrf ltac:(lia) Elct) as [_ ->].
    rewrite Hrows, map_map. reflexivity. }
  subst lct.
  assert (Hin : In (h r) (rows features)) by (rewrite Hrows; now apply in_map).
  assert (Hw : length (values (h r)) = w).
  { unfold rectangular in Hrf. rewrite Forall_forall in Hrf.
    apply Hrf. now apply list_elem_of_In. }
  assert (Hw1 : last_written features X1).
  { revert Efold. apply foldM_rel.
    - apply last_written_refl.
    - apply last_written_trans.
    - intros s a s' _. apply fill_indicator_last_written. }
  assert (Hnd1 : List.NoDup (map ix (rows X1)))
    by (rewrite (last_written_labels _ _ Hw1), Hlabels; exact Hnd).
  assert (Hkf : rows features !! k = Some (h r))
    by (rewrite Hrows, map_lookup, Hk; reflexivity).
  destruct (Forall2_lookup_l _ _ _ _ _ (proj2 Hw1) Hkf)
    as (x1 & Hk1 & Hix1 & Hmeta1 & Hagree).
  rewrite interpolation_loop_rows in Ei by exact Hnd1.
  injection Ei as <-. cbn [rows].
  rewrite map_lookup, Hk1. cbn [option_map].
  exists (values x1). split; [| split].
  - cbn [ix h] in Hix1. rewrite Hix1. now destruct (meta x1).
  - exact Hagree.
  - intros v Hlast Hv.
    change (py_index (values (h r)) (-1) = Some v) in Hlast.
    assert (Hg : isnan (g r) = false).
    { pose proof (py_index_Some_length _ _ _ Hlast) as Hpos.
      rewrite (py_index_last _ NaN Hpos) in Hlast.
      unfold g. rewrite <- Hw.
      assert (E : nth (length (values (h r)) - 1) (values (h r)) NaN = v)
        by congruence.
      now rewrite E. }
    pose proof (median_phase_untouched training_set sel features X1 g lca r
                  Hnd Hr Hg Efold) as Hsame.
    assert (Hf0 : find (fun r' => ix r' =? ix (h r)) (rows features) = Some (h r)).
    { apply find_unique_label; [now rewrite Hlabels | exact Hin]. }
    assert (Hx1 : In x1 (rows X1))
      by (apply list_elem_of_In; eapply list_elem_of_lookup_2; eassumption).
    pose proof (find_unique_label (rows X1) x1 Hnd1 Hx1) as Hfind.
    rewrite Hix1 in Hfind. unfold row_of in Hsame. cbn [ix h] in Hsame, Hfind, Hf0.
    rewrite Hfind, Hf0 in Hsame.
    assert (E : x1 = h r) by congruence.
    now rewrite E.
Qed.

(** The cells after the median phase have the shape of the feature cells up
    to a known cell. *)
Lemma cells_up_to_known (features c l1 l2 : list float) (b : float) :
  agree_but_last features c ->
  (forall v, py_index features (-1) = Some v -> isnan v = false -> c = features) ->
  features = l1 ++ b :: l2 ->
  isnan b = false ->
  exists l2', c = l1 ++ b :: l2'.
Proof.
  intros Hagree Hlast -> Hb.
  destruct l2 as [| v l2].
  - exists []. apply (Hlast b); [| exact Hb].
    rewrite (py_index_last _ NaN) by (rewrite length_app; cbn; lia).
    f_equal. rewrite length_app. cbn [length].
    replace (length l1 + 1 - 1)%nat with (length l1) by lia.
    now rewrite nth_middle.
  - replace (l1 ++ b :: v :: l2) with ((l1 ++ [b]) ++ v :: l2) in Hagree
      by now rewrite <- app_assoc.
    destruct (agree_but_last_prefix _ _ _ Hagree ltac:(discriminate)) as [suf ->].
    exists suf. now rewrite <- app_assoc.
Qed.

(** The cell that [preprocess_avg_NANs] returns inside a run of [n] missing
    feature cells between the known values [a] and [b], at a cell with a
    known value among the 50 cells after it. *)
Lemma avg_NANs_gap_cell
    (py_int : string -> option Z)
    (training_set sel : Frame string Meta) (submit_rows_index : list Z)
    (years_ahead : Z) (X : Frame Z unit) (Y : Series) (k : nat) (r : Row Meta)
    (l1 l2 : list float) (a b : float) (n j : nat) :
  rectangular training_set ->
  List.NoDup (map ix (rows sel)) ->
  loc training_set submit_rows_index = Ok sel ->
  preprocess_avg_NANs py_int training_set submit_rows_index years_ahead = Ok (X, Y) ->
  rows sel !! k = Some r ->
  isnan a = false -> isnan b = false ->
  py_slice_to (values r) (-1 * years_ahead) = l1 ++ a :: repeat NaN n ++ b :: l2 ->
  (j < n)%nat -> (n - j <= 50)%nat ->
  (forall d, d = Z.of_nat n + 1 \/ d = Z.of_nat j + 1 ->
             (float_of_pos (Z.of_nat (length l1) + d)
              - float_of_pos (Z.of_nat (length l1)))%float = float_of_pos d) ->
  isnan (line_value a b (Z.of_nat n + 1) (Z.of_nat j + 1)) = false ->
  exists r',
    rows X !! k = Some r' /\ ix r' = ix r /\
    values r' !! (S (length l1) + j)%nat
    = Some (line_value a b (Z.of_nat n + 1) (Z.of_nat j + 1)).
Proof.
  intros Hrect Hnd Hloc Hrun Hk Ha Hb Hshape Hj Hreach Hexact Hv.
  destruct (avg_NANs_row py_int training_set sel submit_rows_index years_ahead X Y k r
              Hrect Hnd Hloc Hrun Hk) as (c & Hrow & Hagree & Hlast).
  eexists. split; [exact Hrow |]. split; [reflexivity |]. cbn [values].
  destruct (cells_up_to_known _ c (l1 ++ a :: repeat NaN n) l2 b Hagree Hlast)
    as [l2' ->]; [rewrite Hshape, <- app_assoc; reflexivity | exact Hb |].
  rewrite <- app_assoc. cbn [app].
  rewrite interpolate_gap_cell by assumption. f_equal.
  apply interp_between_line; [apply Hexact; now left | apply Hexact; now right | exact Hv].
Qed.




(** X2. In the feature table [preprocess_avg_NANs] returns, for selected
    rows with distinct labels and fewer than 1024 cells: in a run of [n]
    missing feature cells between the known values [a] and [b], every cell
    with at most 50 cells from it to [b] holds the point on the line from [a]
    to [b] as binary64 computes it, [(b - a) / (n + 1) * (j + 1) + a] at
    offset [j], when that is a number. This holds of runs longer than 50
    too, whose last 50 cells are filled. *)
Theorem interpolate_gap_linear
    (py_int : string -> option Z)
    (training_set sel : Frame string Meta) (submit_rows_index : list Z)
    (years_ahead : Z) (X : Frame Z unit) (Y : Series) (k : nat) (r : Row Meta)
    (l1 l2 : list float) (a b : float) (n j : nat) :
  rectangular training_set ->
  List.NoDup (map ix (rows sel)) ->
  loc training_set submit_rows_index = Ok sel ->
  preprocess_avg_NANs py_int training_set submit_rows_index years_ahead = Ok (X, Y) ->
  rows sel !! k = Some r ->
  isnan a = false -> isnan b = false ->
  py_slice_to (values r) (-1 * years_ahead) = l1 ++ a :: repeat NaN n ++ b :: l2 ->
  (j < n)%nat -> (n - j <= 50)%nat ->
  (length l1 + n + 1 < 1024)%nat ->
  let v := ((b - a) / float_of_pos (Z.of_nat n + 1) * float_of_pos (Z.of_nat j + 1)
            + a)%float in
  isnan v = false ->
  exists r',
    rows X !! k = Some r' /\ ix r' = ix r /\
    values r' !! (S (length l1) + j)%nat = Some v.
Proof.
  intros Hrect Hnd Hloc Hrun Hk Ha Hb Hshape Hj Hreach Hlen v Hv.
  eapply avg_NANs_gap_cell; try eassumption.
  intros d Hd. apply float_of_pos_diff; lia.
Qed.

Lemma interpolate_gap_linear_witness :
  exists r',
    rows (mkFrame [2004; 2005; 2006]
            [mkRow 10 [0x1.999999999999ap-4; 0x1.3333333333334p-2; 0.5]%float tt])
      !! 0%nat = Some r' /\ ix r' = 10 /\
    values r' !! (S (length (@nil float)) + 0)%nat
    = Some ((0.5 - 0x1.999999999999ap-4) / float_of_pos (Z.of_nat 1 + 1)
            * float_of_pos (Z.of_nat 0 + 1) + 0x1.999999999999ap-4)%float.
Proof.
  apply (interpolate_gap_linear dec_int ex_gap_training_set
           ex_gap_training_set [10] 1
           (mkFrame [2004; 2005; 2006]
              [mkRow 10 [0x1.999999999999ap-4; 0x1.3333333333334p-2; 0.5]%float tt])
           [(10, 9%float)] 0%nat
           (mkRow 10 [0x1.999999999999ap-4; NaN; 0.5; 9]%float
              (mkMeta "Kosovo" "NY.GDP" "GDP"))
           [] [] 0x1.999999999999ap-4%float 0.5%float 1%nat 0%nat).
  - repeat constructor.
  - repeat constructor. cbn. tauto.
  - reflexivity.
  - vm_compute. reflexivity.
  - reflexivity.
  - reflexivity.
  - reflexivity.
  - reflexivity.
  - lia.
  - lia.
  - cbn. lia.
  - reflexivity.
Defined.
